(** * A dynamic questionnaire form: conditional visibility, answer state,
      submission and resume-from-storage

    Shallow embedding of [src/components/InfoForm.tsx] (the [DynamicForm]
    React component) and the properties its specification states about it.

    The component keeps five pieces of state ([questions], [formData],
    [loading], [submitted], [collapsedSections]), mutates them from event
    handlers, and talks to a remote store.  Handlers are embedded as
    functions from a state (and a description of the remote world) to a new
    state and the list of effects they perform, in order; what the
    component returns is embedded as a tree of elements with the handlers
    bound on them, and a user event is a click or a change on an element
    of that tree.

    The component uses plain objects as dictionaries keyed by data
    ([formData], [collapsedSections], the accumulator of
    [groupedQuestions]).  Reading [o[k]] follows the prototype chain, so
    the state carries, next to the five pieces of React state, what has
    been added to [Object.prototype]: the grouping itself writes there
    when a section is named [__proto__].  What React, the browser and the
    store client do with such additions is not followed; the store is a
    table of replies.

    Identifiers are integers and [String(n)] is their decimal form;
    strings are sequences of 8-bit code units; numbers are the integers
    JavaScript holds exactly (up to 2^53 in magnitude). *)

From Stdlib Require Import ZArith List String Ascii Bool Lia DecimalString.
From Stdlib Require Import DecimalPos DecimalZ.
Import ListNotations.
Local Open Scope string_scope.
Local Open Scope list_scope.
Local Open Scope Z_scope.

Set Implicit Arguments.
Local Set Warnings "-register-all".

(* ================================================================== *)
(** * JavaScript values *)
(* ================================================================== *)

Module JS.

(** A browser [File]: the name is all the component reads of it. *)
Record File := mkFile { file_name : string; file_contents : string }.

(** The values an answer or a row field can hold.  A JavaScript string is a
    sequence of code units; here the code units are the 256 characters of
    [ascii].  A number [JNum z] is an integer that JavaScript holds
    exactly, at most 2^53 in magnitude (question and form identifiers,
    and what [JSON.parse] reads of such a literal); its decimal form is
    then what [String] and [JSON.stringify] give.  [undefined] is not a
    stored value: it is what a failed lookup gives, [None]. *)
Inductive jsval :=
| JNull
| JBool (b : bool)
| JNum (z : Z)
| JStr (s : string)
| JArr (l : list jsval)
| JObj (o : list (string * jsval))
| JFile (f : File).

(** Objects used as dictionaries: the own properties, in creation order. *)
Definition obj (A : Type) := list (string * A).
Definition object := obj jsval.

Section Obj.
Context {A : Type}.

(** The own property [k] of [o]: what [o[k]] reads when [o] has the
    property itself.  (When it has not, the read goes on to
    [Object.prototype]: see [inherit] and [is_inherited] below.) *)
Fixpoint get (o : obj A) (k : string) : option A :=
  match o with
  | [] => None
  | (k', v) :: o' => if String.eqb k k' then Some v else get o' k
  end.

(** [o[k] = v]: an existing property keeps its place. *)
Fixpoint set (o : obj A) (k : string) (v : A) : obj A :=
  match o with
  | [] => [(k, v)]
  | (k', v') :: o' =>
      if String.eqb k k' then (k', v) :: o' else (k', v') :: set o' k v
  end.

Definition keys (o : obj A) : list string := map fst o.

(** [o[k] = v] for a value [v] that is not an object.  The name
    [__proto__] is an accessor of [Object.prototype] that ignores such a
    value: no property is created. *)
Definition assign (o : obj A) (k : string) (v : A) : obj A :=
  if String.eqb k "__proto__" then o else set o k v.

(** [o[k]] for an object [o] whose prototype is [Object.prototype], and a
    name [k] that is none of [inheritedNames] below: the own property, or
    else the property that has been added to [Object.prototype] under
    that name.  The argument [added] lists those additions. *)
Definition inherit (added o : obj A) : obj A := o ++ added.
End Obj.

(** The property names every object inherits from [Object.prototype] as
    the engine makes it (ECMAScript 2024, with its Annex B); all are
    functions but [__proto__], an accessor that answers the prototype of
    the object. *)
Definition inheritedNames : list string :=
  ["constructor"; "__defineGetter__"; "__defineSetter__"; "hasOwnProperty";
   "__lookupGetter__"; "__lookupSetter__"; "isPrototypeOf";
   "propertyIsEnumerable"; "toString"; "valueOf"; "__proto__";
   "toLocaleString"].

Definition is_inherited (k : string) : bool :=
  existsb (String.eqb k) inheritedNames.

(** [String(n)] for an integer [n]. *)
Definition NumberToString (z : Z) : string :=
  NilZero.string_of_int (Z.to_int z).

(** An array index is the canonical decimal form of an integer in
    [0, 2^32 - 2]; such property names are enumerated first, in ascending
    numeric order. *)
Definition array_index (k : string) : option Z :=
  match NilZero.int_of_string k with
  | Some d =>
      let z := Z.of_int d in
      if String.eqb (NumberToString z) k && (0 <=? z) && (z <? 4294967295)
      then Some z else None
  | None => None
  end.

Section Entries.
Context {A : Type}.

Fixpoint insert_index (e : Z * (string * A)) (l : list (Z * (string * A))) :=
  match l with
  | [] => [e]
  | e' :: l' =>
      if fst e <=? fst e' then e :: l else e' :: insert_index e l'
  end.

Fixpoint indexed (o : obj A) : list (Z * (string * A)) :=
  match o with
  | [] => []
  | kv :: o' =>
      match array_index (fst kv) with
      | Some z => insert_index (z, kv) (indexed o')
      | None => indexed o'
      end
  end.

Definition named (o : obj A) : obj A :=
  filter (fun kv => match array_index (fst kv) with
                    | Some _ => false | None => true end) o.

(** [Object.entries(o)]: array indices ascending, then the other names in
    creation order. *)
Definition entries (o : obj A) : obj A := map snd (indexed o) ++ named o.

(** [{...a, ...b}]: the properties of [b], as enumerated, set on a copy
    of [a]. *)
Definition spread (a b : obj A) : obj A :=
  fold_left (fun acc kv => set acc (fst kv) (snd kv)) (entries b) a.
End Entries.

(** [typeof v] *)
Definition typeof (v : jsval) : string :=
  match v with
  | JNull => "object"
  | JBool _ => "boolean"
  | JNum _ => "number"
  | JStr _ => "string"
  | JArr _ | JObj _ | JFile _ => "object"
  end.

(** ToBoolean; [undefined] is falsy. *)
Definition truthy (v : jsval) : bool :=
  match v with
  | JNull => false
  | JBool b => b
  | JNum z => negb (z =? 0)
  | JStr s => negb (String.eqb s "")
  | JArr _ | JObj _ | JFile _ => true
  end.

Definition truthy_opt (v : option jsval) : bool :=
  match v with Some x => truthy x | None => false end.

(** [v instanceof File] *)
Definition instanceof_File (v : option jsval) : option File :=
  match v with Some (JFile f) => Some f | _ => None end.

(** A field that a row typed [string | undefined] holds once it has come
    from the store: the string, [undefined] when the row has no such
    field, [null] when the store holds NULL. *)
Inductive field (A : Type) :=
| Undefined
| Null
| Has (a : A).
Arguments Undefined {A}.
Arguments Null {A}.
Arguments Has {A} _.

(** [x === s] where [x] is the result of a lookup and [s] a field. *)
Definition strict_eq_string (x : option jsval) (s : field string) : bool :=
  match x, s with
  | None, Undefined => true
  | Some JNull, Null => true
  | Some (JStr a), Has b => String.eqb a b
  | _, _ => false
  end.

(** [s.startsWith(p)] *)
Definition startsWith (s p : string) : bool := String.prefix p s.

(** [s.includes(v)] on a string: substring test. *)
Definition string_includes (s v : string) : bool :=
  match String.index 0 v s with Some _ => true | None => false end.

(** What a step that reads stored text comes to: it returns a value, it
    throws, or it is [Beyond] this embedding: the text denotes a value
    that is not a [jsval] (a number with a fraction or an exponent or
    above 2^53, a code unit above 255), and nothing is said of the
    step. *)
Inductive reading (A : Type) :=
| Reads (a : A)
| Throws
| Beyond.
Arguments Reads {A} _.
Arguments Throws {A}.
Arguments Beyond {A}.

Definition andThen {A B} (r : reading A) (f : A -> reading B) : reading B :=
  match r with
  | Reads a => f a
  | Throws => Throws
  | Beyond => Beyond
  end.

(** [String(v)] *)
Fixpoint ToString (v : jsval) : string :=
  match v with
  | JNull => "null"
  | JBool true => "true"
  | JBool false => "false"
  | JNum z => NumberToString z
  | JStr s => s
  | JArr l =>
      String.concat ","
        (map (fun x => match x with JNull => "" | _ => ToString x end) l)
  | JObj _ => "[object Object]"
  | JFile _ => "[object File]"
  end.

End JS.

Import JS.

(* ================================================================== *)
(** * JSON.stringify and JSON.parse *)
(* ================================================================== *)

(** The save-time encoding calls [JSON.stringify] and the resume-time
    decoding calls [JSON.parse].  Both are modelled on the grammar of
    ECMA-404 for the values of [jsval].  The reader goes through the text
    once, from left to right: it answers [Throws] where the text is not
    JSON (a SyntaxError), and [Beyond] as soon as it meets what denotes no
    [jsval]: a number literal with a fraction or an exponent, an integer
    above 2^53, the negative zero, a [\u] escape above code 255. *)

Module JSON.

Definition dquote : ascii := "034"%char.
Definition backslash : ascii := "\"%char.

Definition hex_digit (n : N) : ascii :=
  ascii_of_N (if (n <? 10)%N then 48 + n else 87 + n)%N.

(** QuoteJSONString, one code unit. *)
Definition escape_char (c : ascii) : string :=
  let n := N_of_ascii c in
  if (n =? 8)%N then "\b"
  else if (n =? 9)%N then "\t"
  else if (n =? 10)%N then "\n"
  else if (n =? 12)%N then "\f"
  else if (n =? 13)%N then "\r"
  else if (n =? 34)%N then String backslash (String dquote "")
  else if (n =? 92)%N then "\\"
  else if (n <? 32)%N then
    ("\u00" ++ String (hex_digit (n / 16)) (String (hex_digit (n mod 16)) ""))%string
  else String c "".

Fixpoint escape (s : string) : string :=
  match s with
  | EmptyString => EmptyString
  | String c s' => (escape_char c ++ escape s')%string
  end.

Definition quote (s : string) : string :=
  String dquote (escape s ++ String dquote "")%string.

(** [JSON.stringify(v)].  A [File] has no enumerable property of its own. *)
Fixpoint stringify (v : jsval) : string :=
  match v with
  | JNull => "null"
  | JBool true => "true"
  | JBool false => "false"
  | JNum z => NumberToString z
  | JStr s => quote s
  | JArr l => ("[" ++ String.concat "," (map stringify l) ++ "]")%string
  | JObj o =>
      ("{" ++ String.concat ","
         (map (fun kv => quote (fst kv) ++ ":" ++ snd kv)
            (entries (map (fun kv => match kv with
                                     | (k, x) => (k, stringify x)
                                     end) o)))
        ++ "}")%string
  | JFile _ => "{}"
  end.

(** ** Reading *)

Definition is_ws (c : ascii) : bool :=
  let n := N_of_ascii c in
  ((n =? 32) || (n =? 9) || (n =? 10) || (n =? 13))%N.

Fixpoint skip_ws (s : string) : string :=
  match s with
  | String c s' => if is_ws c then skip_ws s' else s
  | EmptyString => s
  end.

Definition hex_value (c : ascii) : option N :=
  let n := N_of_ascii c in
  if ((48 <=? n) && (n <=? 57))%N then Some (n - 48)%N
  else if ((97 <=? n) && (n <=? 102))%N then Some (n - 87)%N
  else if ((65 <=? n) && (n <=? 70))%N then Some (n - 55)%N
  else None.

Definition hex4 (a b c d : ascii) : option N :=
  match hex_value a, hex_value b, hex_value c, hex_value d with
  | Some x, Some y, Some z, Some w => Some (((x * 16 + y) * 16 + z) * 16 + w)%N
  | _, _, _, _ => None
  end.

(** The character a two-character escape stands for. *)
Definition unescape (e : ascii) : option ascii :=
  let n := N_of_ascii e in
  if (n =? 34)%N then Some dquote
  else if (n =? 92)%N then Some backslash
  else if (n =? 47)%N then Some "/"%char
  else if (n =? 98)%N then Some "008"%char
  else if (n =? 102)%N then Some "012"%char
  else if (n =? 110)%N then Some "010"%char
  else if (n =? 114)%N then Some "013"%char
  else if (n =? 116)%N then Some "009"%char
  else None.

Definition cons_char (c : ascii) (r : reading (string * string)) :=
  andThen r (fun xr => Reads (String c (fst xr), snd xr)).

(** The characters of a string literal after its opening quote, up to and
    including the closing quote: the string denoted and the rest of the
    input. *)
Fixpoint parse_chars (s : string) : reading (string * string) :=
  match s with
  | EmptyString => Throws
  | String c rest =>
      if Ascii.eqb c dquote then Reads ("", rest)
      else if Ascii.eqb c backslash then
        match rest with
        | EmptyString => Throws
        | String e rest1 =>
            match unescape e with
            | Some c' => cons_char c' (parse_chars rest1)
            | None =>
                if Ascii.eqb e "u"%char then
                  match rest1 with
                  | String h1 (String h2 (String h3 (String h4 rest2))) =>
                      match hex4 h1 h2 h3 h4 with
                      | Some u =>
                          if (u <? 256)%N
                          then cons_char (ascii_of_N u) (parse_chars rest2)
                          else Beyond
                      | None => Throws
                      end
                  | _ => Throws
                  end
                else Throws
            end
        end
      else if (N_of_ascii c <? 32)%N then Throws
      else cons_char c (parse_chars rest)
  end.

Definition is_digit (c : ascii) : bool :=
  let n := N_of_ascii c in ((48 <=? n) && (n <=? 57))%N.

Fixpoint take_digits (s : string) : string * string :=
  match s with
  | String c s' =>
      if is_digit c
      then let '(d, rest) := take_digits s' in (String c d, rest)
      else ("", s)
  | EmptyString => ("", s)
  end.

(** The integers JavaScript holds exactly. *)
Definition MAX_EXACT : Z := 9007199254740992.

(** A number literal: an optional minus sign, then either 0 or a digit
    that is not 0 followed by any digits.  What may follow, a fraction or
    an exponent, is not read, and neither is the negative zero. *)
Definition parse_number (s : string) : reading (jsval * string) :=
  let '(neg, body) :=
    match s with
    | String "-"%char s' => (true, s')
    | _ => (false, s)
    end in
  let '(digits, rest) := take_digits body in
  match digits with
  | EmptyString => Throws
  | String "0"%char (String _ _) => Throws
  | _ =>
      match rest with
      | String "."%char _ | String "e"%char _ | String "E"%char _ => Beyond
      | _ =>
          match NilEmpty.uint_of_string digits with
          | Some d =>
              let z := Z.of_uint d in
              if (z <=? MAX_EXACT) && negb (neg && (z =? 0))
              then Reads (JNum (if neg then - z else z), rest)
              else Beyond
          | None => Beyond
          end
      end
  end.

Fixpoint drop (n : nat) (s : string) : string :=
  match n, s with
  | S n', String _ s' => drop n' s'
  | _, _ => s
  end.

Section Composite.
Variable parse_value : string -> reading (jsval * string).

(** The elements of an array after the first bracket, when the array is
    not empty.  The bound [n] is above the length of the text, which no
    array exhausts. *)
Fixpoint parse_elements (n : nat) (s : string) : reading (list jsval * string) :=
  match n with
  | O => Beyond
  | S n' =>
      andThen (parse_value s) (fun vr =>
        match skip_ws (snd vr) with
        | String ","%char r' =>
            andThen (parse_elements n' r')
              (fun lr => Reads (fst vr :: fst lr, snd lr))
        | String "]"%char r' => Reads ([fst vr], r')
        | _ => Throws
        end)
  end.

(** The members of an object after the first brace, when the object is
    not empty; a repeated name keeps its first place and its last value. *)
Fixpoint parse_members (n : nat) (acc : object) (s : string)
  : reading (object * string) :=
  match n with
  | O => Beyond
  | S n' =>
      match skip_ws s with
      | String c r0 =>
          if Ascii.eqb c dquote then
            andThen (parse_chars r0) (fun kr =>
              match skip_ws (snd kr) with
              | String ":"%char r2 =>
                  andThen (parse_value r2) (fun vr =>
                    match skip_ws (snd vr) with
                    | String ","%char r4 =>
                        parse_members n' (set acc (fst kr) (fst vr)) r4
                    | String "}"%char r4 =>
                        Reads (set acc (fst kr) (fst vr), r4)
                    | _ => Throws
                    end)
              | _ => Throws
              end)
          else Throws
      | EmptyString => Throws
      end
  end.
End Composite.

(** A value; the bound [fuel] is above the length of the text, which no
    nesting exhausts. *)
Fixpoint parse_value (fuel : nat) (s : string) : reading (jsval * string) :=
  match fuel with
  | O => Beyond
  | S fuel' =>
      match skip_ws s with
      | EmptyString => Throws
      | String c rest as s1 =>
          if Ascii.eqb c dquote then
            andThen (parse_chars rest) (fun xr => Reads (JStr (fst xr), snd xr))
          else if Ascii.eqb c "["%char then
            match skip_ws rest with
            | String "]"%char r => Reads (JArr [], r)
            | _ =>
                andThen
                  (parse_elements (parse_value fuel') (S (String.length rest)) rest)
                  (fun lr => Reads (JArr (fst lr), snd lr))
            end
          else if Ascii.eqb c "{"%char then
            match skip_ws rest with
            | String "}"%char r => Reads (JObj [], r)
            | _ =>
                andThen
                  (parse_members (parse_value fuel') (S (String.length rest)) [] rest)
                  (fun mr => Reads (JObj (fst mr), snd mr))
            end
          else if String.prefix "true" s1 then Reads (JBool true, drop 4 s1)
          else if String.prefix "false" s1 then Reads (JBool false, drop 5 s1)
          else if String.prefix "null" s1 then Reads (JNull, drop 4 s1)
          else parse_number s1
      end
  end.

(** [JSON.parse(s)]; [Throws] is its SyntaxError. *)
Definition parse (s : string) : reading jsval :=
  andThen (parse_value (S (String.length s)) s) (fun vr =>
    match skip_ws (snd vr) with
    | EmptyString => Reads (fst vr)
    | _ => Throws
    end).

End JSON.

(* ================================================================== *)
(** * The data model *)
(* ================================================================== *)

(** One choice of a radio, select or checkbox question. *)
Module Choice.
Record t := make { label : string; value : string }.
End Choice.

(** [type Question].  An optional field that the component only tests
    for truthiness, chains with [?.] or compares to a number is [None]
    when it is [undefined] or [null]; the condition value, which is
    compared with [===], keeps the two apart. *)
Record Question := mkQuestion {
  id : Z;
  form_id : Z;
  section : string;
  subsection : option string;
  type : string;
  label : string;
  options : option (list Choice.t);
  parent_question_id : option Z;
  condition_value : field string
}.

(** A fetched row as a value: the fields its type declares (what other
    columns the table has is not in the component). *)
Definition rowOf (q : Question) : jsval :=
  JObj
    ([("id", JNum (id q));
      ("form_id", JNum (form_id q));
      ("section", JStr (section q));
      ("subsection", match subsection q with
                     | Some x => JStr x
                     | None => JNull
                     end);
      ("type", JStr (type q));
      ("label", JStr (label q));
      ("options", match options q with
                  | Some l =>
                      JArr (map (fun o => JObj [("label", JStr (Choice.label o));
                                                ("value", JStr (Choice.value o))])
                              l)
                  | None => JNull
                  end);
      ("parent_question_id", match parent_question_id q with
                             | Some p => JNum p
                             | None => JNull
                             end)]
     ++ match condition_value q with
        | Undefined => []
        | Null => [("condition_value", JNull)]
        | Has c => [("condition_value", JStr c)]
        end).

(** The component's state: one field per [useState], and with them
    [ObjectPrototype], which is not React state: the properties that have
    been added to [Object.prototype] since the page was loaded, each an
    array of fetched rows (the grouping of the questions is what writes
    there, see [groupStep]).  Every object of the page inherits them,
    until the page is left. *)
Record State := mkState {
  questions : list Question;
  formData : object;
  loading : bool;
  submitted : bool;
  collapsedSections : obj bool;
  ObjectPrototype : obj (list Question)
}.

Definition setQuestions (v : list Question) (s : State) : State :=
  mkState v (formData s) (loading s) (submitted s) (collapsedSections s)
    (ObjectPrototype s).
Definition setFormData (v : object) (s : State) : State :=
  mkState (questions s) v (loading s) (submitted s) (collapsedSections s)
    (ObjectPrototype s).
Definition setLoading (v : bool) (s : State) : State :=
  mkState (questions s) (formData s) v (submitted s) (collapsedSections s)
    (ObjectPrototype s).
Definition setSubmitted (v : bool) (s : State) : State :=
  mkState (questions s) (formData s) (loading s) v (collapsedSections s)
    (ObjectPrototype s).
Definition setCollapsedSections (v : obj bool) (s : State) : State :=
  mkState (questions s) (formData s) (loading s) (submitted s) v
    (ObjectPrototype s).
Definition setObjectPrototype (v : obj (list Question)) (s : State) : State :=
  mkState (questions s) (formData s) (loading s) (submitted s)
    (collapsedSections s) v.

(** The state a freshly mounted component starts from, in a page whose
    [Object.prototype] is as the engine made it. *)
Definition initialState : State := mkState [] [] true false [] [].

(** The additions to [Object.prototype] as values. *)
Definition added (prototype : obj (list Question)) : object :=
  map (fun kv => (fst kv, JArr (map rowOf (snd kv)))) prototype.

(** [formData] as the component reads it: [formData[k]] is the own
    property [k], or else the property inherited under that name.  (The
    names read are [String(id)] and [contactEmail], none of them one of
    [inheritedNames].) *)
Definition answers (s : State) : object :=
  inherit (added (ObjectPrototype s)) (formData s).
Arguments answers : simpl never.

(** [formData[id]]: the property name is [String(id)]. *)
Definition answerOf (fd : object) (i : Z) : option jsval :=
  get fd (NumberToString i).

(* ================================================================== *)
(** * The remote store *)
(* ================================================================== *)

Module Remote.

Record Error := mkError { code : string; message : string }.

(** What a call of the client resolves to: [{ data, error }]. *)
Record Reply (A : Type) := mkReply { data : option A; error : option Error }.
Arguments mkReply {A} _ _.
Arguments data {A} _.
Arguments error {A} _.

Definition ok {A} (a : A) : Reply A := mkReply (Some a) None.
Definition failed {A} (e : Error) : Reply A := mkReply None (Some e).

Record OrganizationRow := mkOrganization {
  organization_id : Z;
  contactEmail : string
}.

(** A row of [responses]; a column that is NULL reads as [null]. *)
Record ResponseRow := mkResponse {
  response_organization_id : option Z;
  response_question_id : Z;
  response_answer : option string
}.

Record UploadData := mkUpload { path : string }.

(** The collaborator as the component sees it: two tables it reads, the
    replies of the calls that write, and the failures a read can meet. *)
Record World := mkWorld {
  organizations : list OrganizationRow;
  responses : list ResponseRow;
  organizations_failure : option Error;
  responses_failure : option Error;
  (** the reply to the [n]-th upload of a submission *)
  upload_reply : nat -> string -> File -> Reply UploadData;
  upsert_responses_failure : list object -> option Error;
  upsert_progress_failure : list object -> option Error
}.

(** The error the store answers when [.single()] is asked for one row and
    the query matched none, or several. *)
Definition PGRST116 : Error :=
  mkError "PGRST116" "JSON object requested, multiple (or no) rows returned".

(** [.single()] *)
Definition single {A} (r : Reply (list A)) : Reply A :=
  match error r with
  | Some e => failed e
  | None =>
      match data r with
      | Some [x] => ok x
      | _ => failed PGRST116
      end
  end.

(** [from("organizations").select("id").eq("contactEmail", email)] *)
Definition select_organizations (w : World) (email : string)
  : Reply (list OrganizationRow) :=
  match organizations_failure w with
  | Some e => failed e
  | None => ok (filter (fun r => String.eqb (contactEmail r) email)
                  (organizations w))
  end.

(** [from("responses").select("question_id, answer").eq("organization_id", i)] *)
Definition select_responses (w : World) (i : Z) : Reply (list ResponseRow) :=
  match responses_failure w with
  | Some e => failed e
  | None =>
      ok (filter (fun r => match response_organization_id r with
                           | Some j => j =? i
                           | None => false
                           end) (responses w))
  end.

End Remote.
Import Remote.

(** What a handler does to the outside, in order.  [NativeSubmit] is the
    browser sending a form that has no submit handler.  (The effect hook
    that logs every new [formData] to the console is left out.) *)
Inductive effect :=
| Alert (message : string)
| ConsoleError (label : string)
| ConsoleLog (label : string)
| StorageUpload (bucket : string) (path : string) (file : File)
| Upsert (table : string) (rows : list object) (onConflict : string)
| Select (table : string) (columns : string) (column : string)
    (operand : string) (single : bool)
| NativeSubmit.


(* ================================================================== *)
(** * Answer state handlers *)
(* ================================================================== *)

(** [e.target] of a change event. *)
Record Target := mkTarget {
  target_is_input : bool;      (** [target instanceof HTMLInputElement] *)
  target_name : string;
  target_value : string;
  target_type : string;
  target_checked : bool;
  target_files : list File
}.

(** [handleChange] *)
Definition handleChange (t : Target) (s : State) : State :=
  if target_is_input t && String.eqb (target_type t) "checkbox" then
    setFormData (set (formData s) (target_name t) (JBool (target_checked t))) s
  else
    setFormData (set (formData s) (target_name t) (JStr (target_value t))) s.

Fixpoint chars (s : string) : list jsval :=
  match s with
  | EmptyString => []
  | String c s' => JStr (String c "") :: chars s'
  end.

(** [[...currentValues, value]]: an array or a string can be spread, any
    other value is not iterable. *)
Definition spread_append (currentValues : jsval) (value : string)
  : option (list jsval) :=
  match currentValues with
  | JArr l => Some (l ++ [JStr value])
  | JStr s => Some (chars s ++ [JStr value])
  | _ => None
  end.

(** [v !== value] *)
Definition differs (value : string) (v : jsval) : bool :=
  match v with
  | JStr x => negb (String.eqb x value)
  | _ => true
  end.

(** [currentValues.filter((v) => v !== value)]: only an array has
    [filter]. *)
Definition filter_out (currentValues : jsval) (value : string)
  : option (list jsval) :=
  match currentValues with
  | JArr l => Some (filter (differs value) l)
  | _ => None
  end.

(** [prevData[questionId] || []] *)
Definition currentValues (fd : object) (questionId : Z) : jsval :=
  match answerOf fd questionId with
  | Some v => if truthy v then v else JArr []
  | None => JArr []
  end.

(** [handleCheckboxChange]; [None] when the state updater throws a
    TypeError. *)
Definition handleCheckboxChange (t : Target) (questionId : Z) (s : State)
  : option State :=
  let cur := currentValues (answers s) questionId in
  let updatedValues :=
    if target_checked t
    then spread_append cur (target_value t)
    else filter_out cur (target_value t) in
  match updatedValues with
  | Some l =>
      Some (setFormData
              (set (formData s) (NumberToString questionId) (JArr l)) s)
  | None => None
  end.

(** [handleFileChange] *)
Definition handleFileChange (t : Target) (questionId : Z) (s : State) : State :=
  match target_files t with
  | file :: _ =>
      setFormData (set (formData s) (NumberToString questionId) (JFile file)) s
  | [] => s
  end.

(** [handleFilePhotoChange]: the file is kept for the preview; the upload
    inside its [try] block is commented out. *)
Definition handleFilePhotoChange (t : Target) (questionId : Z) (s : State)
  : State :=
  match target_files t with
  | file :: _ =>
      setFormData (set (formData s) (NumberToString questionId) (JFile file)) s
  | [] => s
  end.

(** [flags[key]] as a condition: the own flag; without one, what the key
    inherits, which is truthy (an array that was added to
    [Object.prototype], a built-in function, or for [__proto__] the
    prototype itself); [undefined], which is falsy, otherwise. *)
Definition collapsed (prototype : obj (list Question)) (flags : obj bool)
  (key : string) : bool :=
  match get flags key with
  | Some b => b
  | None =>
      match get prototype key with
      | Some _ => true
      | None => is_inherited key
      end
  end.

(** [toggleCollapse]: the flag becomes [!prevState[key]]. *)
Definition toggleCollapse (key : string) (s : State) : State :=
  let flag := collapsed (ObjectPrototype s) (collapsedSections s) key in
  setCollapsedSections (set (collapsedSections s) key (negb flag)) s.

(** The body of [fetchQuestions] once the query has resolved. *)
Definition initialCollapsedState (rows : list Question) : obj bool :=
  fold_left
    (fun acc q =>
       let acc1 :=
         if negb (String.eqb (section q) "") then assign acc (section q) false
         else acc in
       match subsection q with
       | Some sub =>
           if negb (String.eqb sub "")
           then assign acc1 (section q ++ "-" ++ sub)%string false
           else acc1
       | None => acc1
       end)
    rows [].

Definition fetchQuestions (r : Reply (list Question)) (s : State)
  : State * list effect :=
  let log := match error r with
             | Some _ => [ConsoleError "Error fetching questions:"]
             | None => []
             end in
  let rows := match data r with Some l => l | None => [] end in
  (setLoading false
     (setCollapsedSections (initialCollapsedState rows)
        (setQuestions rows s)),
   log).

(* ================================================================== *)
(** * Conditional visibility *)
(* ================================================================== *)

(** [!parent_question_id]: true for a missing identifier and for 0. *)
Definition no_parent (q : Question) : bool :=
  match parent_question_id q with
  | None => true
  | Some p => p =? 0
  end.

(** The [shouldDisplay] test of [renderQuestion]. *)
Definition shouldDisplay (fd : object) (q : Question) : bool :=
  no_parent q
  || match parent_question_id q with
     | Some p =>
         negb (p =? 0) && strict_eq_string (answerOf fd p) (condition_value q)
     | None => false
     end.

(* ================================================================== *)
(** * The submission pipeline *)
(* ================================================================== *)

(** The record [handleSubmit] prepares for a question. *)
Definition responseRecord (q : Question) (answer : jsval) : object :=
  [("question_id", JNum (id q)); ("answer", answer)].

(** [formData[question.id] || ""] *)
Definition rawAnswer (fd : object) (q : Question) : jsval :=
  match answerOf fd (id q) with
  | Some v => if truthy v then v else JStr ""
  | None => JStr ""
  end.

(** [question.type === "file" && formData[question.id] instanceof File] *)
Definition fileToUpload (fd : object) (question : Question) : option File :=
  if String.eqb (type question) "file"
  then instanceof_File (answerOf fd (id question))
  else None.

(** The mapper of [questions.map] run over the list: every mapper runs up
    to its upload (the [n]-th of the submission) before any reply arrives,
    so the uploads are all issued, in the order of the questions.  The
    result of a mapper is its record, or the error it throws. *)
Fixpoint prepare (w : World) (fd : object) (n : nat) (qs : list Question)
  : list effect * list (Error + object) :=
  match qs with
  | [] => ([], [])
  | question :: rest =>
      match fileToUpload fd question with
      | Some file =>
          let p := ("files/" ++ file_name file)%string in
          let reply := upload_reply w n p file in
          let '(effs, rs) := prepare w fd (S n) rest in
          let r :=
            match error reply with
            | Some fileError => inl fileError
            | None =>
                let answer := match data reply with
                              | Some d => path d
                              | None => ""
                              end in
                inr (responseRecord question (JStr answer))
            end in
          (StorageUpload "profile_photo" p file :: effs, r :: rs)
      | None =>
          let '(effs, rs) := prepare w fd n rest in
          (effs, inr (responseRecord question (rawAnswer fd question)) :: rs)
      end
  end.

(** [Promise.all]: the array of results, or a rejection when a promise
    rejects (here the first one in the list). *)
Fixpoint promise_all {E A : Type} (l : list (E + A)) : E + list A :=
  match l with
  | [] => inr []
  | inl e :: _ => inl e
  | inr a :: rest =>
      match promise_all rest with
      | inl e => inl e
      | inr r => inr (a :: r)
      end
  end.

Definition responsesConflict : string := "organization_id,question_id".

(** [handleSubmit] *)
Definition handleSubmit (w : World) (s : State) : State * list effect :=
  let s1 := setLoading true s in
  let '(uploads, results) := prepare w (answers s1) 0 (questions s1) in
  let failure :=
    [ConsoleError "Submission error:";
     Alert "An error occurred while submitting the form. Please try again."] in
  match promise_all results with
  | inl _ => (setLoading false s1, uploads ++ failure)
  | inr responsePayload =>
      let upsert := Upsert "responses" responsePayload responsesConflict in
      match upsert_responses_failure w responsePayload with
      | Some _ => (setLoading false s1, uploads ++ upsert :: failure)
      | None => (setLoading false (setSubmitted true s1), uploads ++ [upsert])
      end
  end.

(* ================================================================== *)
(** * Saving and resuming progress *)
(* ================================================================== *)

(** The save-time encoding:
    [typeof answer === "object" ? JSON.stringify(answer) : answer]. *)
Definition encode (answer : jsval) : jsval :=
  if String.eqb (typeof answer) "object"
  then JStr (JSON.stringify answer)
  else answer.

(** The resume-time decoding of a stored answer. *)
Definition decode (answer : string) : reading jsval :=
  if startsWith answer "{" || startsWith answer "["
  then JSON.parse answer
  else Reads (JStr answer).

Section SaveProgress.
(** The form identifier read from the query string, and [Number(...)] on a
    property name. *)
Variable formId : Z.
Variable Number : string -> jsval.

Definition progressRecord (email : jsval) (entry : string * jsval) : object :=
  [("form_id", JNum formId);
   ("contactEmail", email);
   ("question_id", Number (fst entry));
   ("answer", encode (snd entry))].

Definition progressConflict : string := "form_id,contactEmail,question_id".

(** [handleSaveProgress] *)
Definition handleSaveProgress (w : World) (s : State) : State * list effect :=
  match get (answers s) "contactEmail" with
  | Some email =>
      if truthy email then
        let savePayload := map (progressRecord email) (entries (formData s)) in
        let upsert := Upsert "progress" savePayload progressConflict in
        match upsert_progress_failure w savePayload with
        | Some _ =>
            (s, [upsert; ConsoleError "Error saving progress:";
                 Alert "Failed to save progress. Please try again."])
        | None => (s, [upsert; Alert "Progress saved successfully!"])
        end
      else (s, [Alert "Please enter your email before saving progress."])
  | None => (s, [Alert "Please enter your email before saving progress."])
  end.
End SaveProgress.

(** The [forEach] of [handleSearch]: each entry is decoded into
    [savedData] and logged twice; a [null] answer or a text [JSON.parse]
    rejects throws, which ends the loop.  After an entry whose value is
    [Beyond] the embedding the loop goes on: it still throws if a later
    entry does, and what it builds is [Beyond] otherwise. *)
Fixpoint populate (rows : list ResponseRow) (savedData : object)
  : list effect * reading object :=
  match rows with
  | [] => ([], Reads savedData)
  | entry :: rest =>
      let logged (logs : list effect) :=
        ConsoleLog "Raw responses from Supabase:"
        :: ConsoleLog "Saved Data before setting formData:" :: logs in
      match response_answer entry with
      | Some answer =>
          match decode answer with
          | Reads v =>
              let saved :=
                set savedData (NumberToString (response_question_id entry)) v in
              let '(logs, r) := populate rest saved in
              (logged logs, r)
          | Throws => ([], Throws)
          | Beyond =>
              let '(logs, r) := populate rest savedData in
              (logged logs, match r with Throws => Throws | _ => Beyond end)
          end
      | None => ([], Throws)
      end
  end.

(** [handleSearch]; [None] when a stored answer is [Beyond] the
    embedding. *)
Definition handleSearch (w : World) (s : State)
  : option (State * list effect) :=
  match get (answers s) "contactEmail" with
  | Some email =>
      if truthy email then
        let s1 := setLoading true s in
        let failure := [ConsoleError "Error fetching progress:";
                        Alert "Failed to retrieve saved progress."] in
        let lookup :=
          Select "organizations" "id" "contactEmail" (ToString email) true in
        let org := single (select_organizations w (ToString email)) in
        match error org with
        | Some _ => Some (setLoading false s1, lookup :: failure)
        | None =>
            match data org with
            | None =>
                Some (setLoading false (setLoading false s1),
                      [lookup; Alert "No organization found for this email."])
            | Some orgData =>
                let organizationId := organization_id orgData in
                let fetch :=
                  Select "responses" "question_id, answer" "organization_id"
                    (NumberToString organizationId) false in
                let res := select_responses w organizationId in
                match error res with
                | Some _ => Some (setLoading false s1, lookup :: fetch :: failure)
                | None =>
                    match data res with
                    | None =>
                        Some (setLoading false s1, lookup :: fetch :: failure)
                    | Some [] =>
                        Some (setLoading false s1,
                              [lookup; fetch;
                               Alert "No saved progress found for this email."])
                    | Some rows =>
                        match populate rows [] with
                        | (logs, Reads savedData) =>
                            Some (setLoading false
                                    (setFormData
                                       (spread (formData s1) savedData) s1),
                                  lookup :: fetch :: logs)
                        | (logs, Throws) =>
                            Some (setLoading false s1,
                                  lookup :: fetch :: logs ++ failure)
                        | (_, Beyond) => None
                        end
                    end
                end
            end
        end
      else Some (s, [Alert "Please enter an email to search."])
  | None => Some (s, [Alert "Please enter an email to search."])
  end.

(* ================================================================== *)
(** * The rendered form *)
(* ================================================================== *)

(** The functions of the component an element can be bound to. *)
Inductive handler :=
| HandleChange
| HandleCheckboxChange (questionId : Z)
| HandleFileChange (questionId : Z)
| HandleFilePhotoChange (questionId : Z)
| ToggleCollapse (key : string)
| HandleSubmit
| HandleSaveProgress
| HandleSearch.

Inductive attr :=
| Key (k : string)
| TypeAttr (t : string)
| Name (n : string)
| Value (v : jsval)
| Checked (b : bool)
| OnChange (h : handler)
| OnClick (h : handler)
| OnSubmit (h : handler)
| Static (name : string) (v : string).

(** The element tree [DynamicForm] returns (styling left out).
    [Markup q n] is the markup [n] that [renderQuestion(q)] returned. *)
Inductive node :=
| Text (s : string)
| Element (tag : string) (attrs : list attr) (children : list node)
| Markup (q : Question) (n : node).

(** Rendering either returns, throws, exhausts the depth it was given
    (the recursion of [renderQuestion] follows parent links, which the
    data need not make well-founded), or is [NotFollowed]: it does to a
    built-in object something this embedding keeps no account of (see
    [groupStep]), and nothing is said of it. *)
Inductive outcome (A : Type) :=
| Done (a : A)
| Throw (e : string)
| OutOfFuel
| NotFollowed.
Arguments Done {A} _.
Arguments Throw {A} _.
Arguments OutOfFuel {A}.
Arguments NotFollowed {A}.

Definition bind {A B} (m : outcome A) (f : A -> outcome B) : outcome B :=
  match m with
  | Done a => f a
  | Throw e => Throw e
  | OutOfFuel => OutOfFuel
  | NotFollowed => NotFollowed
  end.

Notation "x <- m ;; k" := (bind m (fun x => k))
  (at level 61, m at next level, right associativity).

Fixpoint sequence {A} (l : list (outcome A)) : outcome (list A) :=
  match l with
  | [] => Done []
  | m :: rest => a <- m ;; r <- sequence rest ;; Done (a :: r)
  end.

(** A value placed between tags. *)
Fixpoint child_of (v : jsval) : outcome (list node) :=
  match v with
  | JStr s => Done [Text s]
  | JNum z => Done [Text (NumberToString z)]
  | JBool _ | JNull => Done []
  | JArr l =>
      fold_right
        (fun x acc => a <- child_of x ;; b <- acc ;; Done (a ++ b))
        (Done []) l
  | JObj _ | JFile _ => Throw "Objects are not valid as a React child"
  end.

(** [formData[id]?.includes(value) || false] *)
Definition includes (v : option jsval) (value : string) : outcome bool :=
  match v with
  | None | Some JNull => Done false
  | Some (JArr l) =>
      Done (existsb (fun e => match e with
                              | JStr y => String.eqb y value
                              | _ => false
                              end) l)
  | Some (JStr s) => Done (string_includes s value)
  | Some _ => Throw "includes is not a function"
  end.

(** [formData[id] || ""] *)
Definition orEmpty (v : option jsval) : jsval :=
  match v with
  | Some x => if truthy x then x else JStr ""
  | None => JStr ""
  end.

(** [formData[id]?.name || formData[id]], for a truthy [formData[id]] *)
Definition nameOrValue (v : jsval) : jsval :=
  match v with
  | JFile f => if String.eqb (file_name f) "" then v else JStr (file_name f)
  | JObj o => match get o "name" with
              | Some n => if truthy n then n else v
              | None => v
              end
  | _ => v
  end.

Definition choices (q : Question) : list Choice.t :=
  match options q with Some l => l | None => [] end.

(** [renderQuestion]; [Done None] is [null]. *)
Fixpoint renderQuestion (fuel : nat) (qs : list Question) (fd : object)
  (question : Question) : outcome (option node) :=
  match fuel with
  | O => OutOfFuel
  | S fuel' =>
      let i := id question in
      let key := Key (NumberToString i) in
      let name := Name (NumberToString i) in
      let lbl := Element "span" [] [Text (label question)] in
      let shown n := Done (Some (Markup question n)) in
      if negb (shouldDisplay fd question) then Done None
      else if String.eqb (type question) "text" then
        shown (Element "label" [key]
                 [lbl; Text " ";
                  Element "input"
                    [TypeAttr "text"; name; Value (orEmpty (answerOf fd i));
                     OnChange HandleChange] []])
      else if String.eqb (type question) "radio" then
        let radios :=
          map (fun o =>
                 Element "label" [Key (Choice.value o)]
                   [Element "input"
                      [TypeAttr "radio"; name; Value (JStr (Choice.value o));
                       Checked (strict_eq_string (answerOf fd i)
                                  (Has (Choice.value o)));
                       OnChange HandleChange] [];
                    Text (Choice.label o)])
              (choices question) in
        let subQuestions :=
          filter (fun subQuestion =>
                    match parent_question_id subQuestion with
                    | Some p => p =? i
                    | None => false
                    end
                    && strict_eq_string (answerOf fd i)
                         (condition_value subQuestion)) qs in
        subs <- sequence
                  (map (fun subQuestion =>
                          r <- renderQuestion fuel' qs fd subQuestion ;;
                          Done (Element "div"
                                  [Key (NumberToString (id subQuestion))]
                                  (match r with
                                   | Some n => [n]
                                   | None => []
                                   end)))
                     subQuestions) ;;
        shown (Element "div" [key] (lbl :: radios ++ subs))
      else if String.eqb (type question) "select" then
        shown (Element "div" [key]
                 [Element "label" [] [Text (label question)];
                  Element "select"
                    [name; Value (orEmpty (answerOf fd i));
                     OnChange HandleChange]
                    (Element "option" [Value (JStr "")]
                       [Text "Select an option"]
                     :: map (fun o =>
                               Element "option"
                                 [Key (Choice.value o);
                                  Value (JStr (Choice.value o))]
                                 [Text (Choice.label o)])
                          (choices question))])
      else if String.eqb (type question) "checkbox" then
        boxes <- sequence
                   (map (fun o =>
                           c <- includes (answerOf fd i) (Choice.value o) ;;
                           Done (Element "label" [Key (Choice.value o)]
                                   [Element "input"
                                      [TypeAttr "checkbox";
                                       Name (NumberToString i ++ "-"
                                             ++ Choice.value o)%string;
                                       Value (JStr (Choice.value o));
                                       Checked c;
                                       OnChange (HandleCheckboxChange i)] [];
                                    Text (Choice.label o)]))
                      (choices question)) ;;
        shown (Element "div" [key] (lbl :: boxes))
      else if String.eqb (type question) "file" then
        uploaded <-
          match answerOf fd i with
          | None => Done []
          | Some v =>
              if truthy v then
                c <- child_of (nameOrValue v) ;;
                Done [Element "p" [] (Text "Uploaded: " :: c)]
              else child_of v
          end ;;
        shown (Element "label" [key]
                 (lbl
                  :: Element "input"
                       [TypeAttr "file"; name; OnChange (HandleFileChange i)] []
                  :: uploaded))
      else if String.eqb (type question) "textarea" then
        shown (Element "label" [key]
                 [lbl;
                  Element "textarea"
                    [name; Value (orEmpty (answerOf fd i));
                     OnChange HandleChange] []])
      else if String.eqb (type question) "file-photo" then
        let preview :=
          match answerOf fd i with
          | Some v =>
              if truthy v then
                match v with
                | JFile f =>
                    Element "Image"
                      [Static "src" ("blob:" ++ file_name f)%string;
                       Static "alt" "Profile Preview"] []
                | _ =>
                    Element "Image"
                      [Static "src" (ToString v);
                       Static "alt" "Profile Preview"] []
                end
              else
                Element "Image"
                  [Static "src" "/dummy.png";
                   Static "alt" "Upload Placeholder"] []
          | None =>
              Element "Image"
                [Static "src" "/dummy.png";
                 Static "alt" "Upload Placeholder"] []
          end in
        shown (Element "div" [key]
                 [Element "label" [] [Text (label question)];
                  Element "div" []
                    [Element "label" []
                       [Element "input"
                          [TypeAttr "file"; Static "accept" "image/*";
                           OnChange (HandleFilePhotoChange i)] [];
                        preview];
                     Element "p" [] [Text "Click to upload"]]])
      else Done None
  end.

(** ** Grouping *)

(** [question.section || "General"] and
    [question.subsection || "No Subsection"] *)
Definition sectionOf (q : Question) : string :=
  if String.eqb (section q) "" then "General" else section q.
Definition subsectionOf (q : Question) : string :=
  match subsection q with
  | Some x => if String.eqb x "" then "No Subsection" else x
  | None => "No Subsection"
  end.

Definition groups := obj (obj (list Question)).

(** The string-named members of the built-in values a section name can
    resolve to (ECMAScript 2024): of a function, its own [length] and
    [name] and what [Function.prototype] gives it; of the function
    [Object], which [constructor] names, its other own members; of an
    array, what [Array.prototype] gives it. *)
Definition functionMembers : list string :=
  ["length"; "name"; "apply"; "bind"; "call"; "constructor"; "toString";
   "caller"; "arguments"].

Definition ObjectMembers : list string :=
  ["prototype"; "assign"; "create"; "defineProperties"; "defineProperty";
   "entries"; "freeze"; "fromEntries"; "getOwnPropertyDescriptor";
   "getOwnPropertyDescriptors"; "getOwnPropertyNames";
   "getOwnPropertySymbols"; "getPrototypeOf"; "groupBy"; "hasOwn"; "is";
   "isExtensible"; "isFrozen"; "isSealed"; "keys"; "preventExtensions";
   "seal"; "setPrototypeOf"; "values"].

Definition ArrayMembers : list string :=
  ["at"; "concat"; "constructor"; "copyWithin"; "entries"; "every"; "fill";
   "filter"; "find"; "findIndex"; "findLast"; "findLastIndex"; "flat";
   "flatMap"; "forEach"; "includes"; "indexOf"; "join"; "keys";
   "lastIndexOf"; "map"; "pop"; "push"; "reduce"; "reduceRight"; "reverse";
   "shift"; "slice"; "some"; "sort"; "splice"; "toLocaleString";
   "toReversed"; "toSorted"; "toSpliced"; "toString"; "unshift"; "values";
   "with"].

(** Whether the built-in function that the inherited name [section]
    resolves to has a member [subsection] of its own or from
    [Function.prototype]. *)
Definition functionHas (section subsection : string) : bool :=
  existsb (String.eqb subsection) functionMembers
  || (String.eqb section "constructor"
      && existsb (String.eqb subsection) ObjectMembers).

(** Whether an array of [n] elements has a member [subsection] of its own
    (an index below [n], or [length]) or from [Array.prototype]. *)
Definition arrayHas (n : nat) (subsection : string) : bool :=
  match array_index subsection with
  | Some i => i <? Z.of_nat n
  | None => false
  end
  || String.eqb subsection "length"
  || existsb (String.eqb subsection) ArrayMembers.

(** The names the component reads on a fetched row, on a choice and on
    an answer, and the names of the properties it gives its elements.  A
    row, a choice, an answer or an element that has no such property of
    its own would read what [Object.prototype] holds under the name. *)
Definition namesRead : list string :=
  ["id"; "form_id"; "section"; "subsection"; "type"; "label"; "options";
   "parent_question_id"; "condition_value"; "value"; "name";
   "key"; "ref"; "children"; "className"; "checked"; "onChange"; "onClick";
   "onSubmit"; "src"; "alt"; "width"; "height"; "encType"; "accept"].

Definition isRead (k : string) : bool := existsb (String.eqb k) namesRead.

(** Nothing has been added to [Object.prototype] under a name of
    [namesRead]. *)
Definition noReadNameAdded (prototype : obj (list Question)) : bool :=
  forallb (fun kv => negb (isRead (fst kv))) prototype.

Definition typeError : string := "TypeError".

(** [if (!t[subsection]) t[subsection] = []; t[subsection].push(question)]
    once the lookup of [subsection] has left [t] for [Object.prototype]
    (or when [t] is [Object.prototype] itself).  An array that was added
    there under that name receives the question.  A built-in member is
    truthy and has no [push] (and the accessor [__proto__] of
    [Object.prototype], which reads [null], refuses the assignment):
    a TypeError.  Otherwise the name is [undefined]: the caller decides
    where the new array goes. *)
Inductive lookedUp :=
| Pushed (prototype : obj (list Question))
| NotAFunction
| Undefined_.

Definition onPrototype (prototype : obj (list Question)) (subsection : string)
  (question : Question) : lookedUp :=
  match get prototype subsection with
  | Some l => Pushed (set prototype subsection (l ++ [question]))
  | None => if is_inherited subsection then NotAFunction else Undefined_
  end.

(** One turn of the [reduce] of [groupedQuestions]: what it leaves in
    [Object.prototype], and the accumulator or the TypeError.

    [acc[section]] is the own property of [acc] when there is one (a plain
    object of the component's making); for [__proto__] it is
    [Object.prototype]; else it is what [Object.prototype] holds under
    that name, an array added there or a built-in function, both truthy;
    else it is [undefined] and an empty object is stored under
    [section].

    The turn is [NotFollowed] when it adds to [Object.prototype] a name
    of [namesRead], and when it writes into an array held by
    [Object.prototype] otherwise than by pushing onto it (a new named or
    indexed property of the array; through [__proto__], an element of
    [Array.prototype]).  A new property of a built-in function is
    followed: nothing of the component reads it but this very lookup,
    which finds the array it then holds and pushes onto it. *)
Definition groupStep (prototype : obj (list Question)) (acc : groups)
  (question : Question) : obj (list Question) * outcome groups :=
  let section := sectionOf question in
  let subsection := subsectionOf question in
  match get acc section with
  | Some subs =>
      match get subs subsection with
      | Some l =>
          (prototype,
           Done (set acc section (set subs subsection (l ++ [question]))))
      | None =>
          match onPrototype prototype subsection question with
          | Pushed prototype' => (prototype', Done acc)
          | NotAFunction => (prototype, Throw typeError)
          | Undefined_ =>
              (prototype,
               Done (set acc section (set subs subsection [question])))
          end
      end
  | None =>
      if String.eqb section "__proto__" then
        match onPrototype prototype subsection question with
        | Pushed prototype' => (prototype', Done acc)
        | NotAFunction => (prototype, Throw typeError)
        | Undefined_ =>
            if isRead subsection then (prototype, NotFollowed)
            else (set prototype subsection [question], Done acc)
        end
      else
        match get prototype section with
        | Some rows =>
            (* an array that was added to [Object.prototype] *)
            if arrayHas (List.length rows) subsection
            then (prototype, Throw typeError)
            else if String.eqb subsection "__proto__"
            then (prototype, NotFollowed)
            else
              match onPrototype prototype subsection question with
              | Pushed prototype' => (prototype', Done acc)
              | NotAFunction => (prototype, Throw typeError)
              | Undefined_ => (prototype, NotFollowed)
              end
        | None =>
            if is_inherited section then
              (* a built-in function *)
              if functionHas section subsection
              then (prototype, Throw typeError)
              else
                match onPrototype prototype subsection question with
                | Pushed prototype' => (prototype', Done acc)
                | NotAFunction => (prototype, Throw typeError)
                | Undefined_ => (prototype, Done acc)
                end
            else
              match onPrototype prototype subsection question with
              | Pushed prototype' => (prototype', Done (set acc section []))
              | NotAFunction => (prototype, Throw typeError)
              | Undefined_ =>
                  (prototype,
                   Done (set acc section [(subsection, [question])]))
              end
        end
  end.

(** [questions.reduce(..., {})], which stops at the first TypeError. *)
Fixpoint reduce (qs : list Question) (prototype : obj (list Question))
  (acc : groups) : obj (list Question) * outcome groups :=
  match qs with
  | [] => (prototype, Done acc)
  | question :: rest =>
      match groupStep prototype acc question with
      | (prototype', Done acc') => reduce rest prototype' acc'
      | (prototype', Throw e) => (prototype', Throw e)
      | (prototype', OutOfFuel) => (prototype', OutOfFuel)
      | (prototype', NotFollowed) => (prototype', NotFollowed)
      end
  end.

(** [groupedQuestions], computed in the body of the component at every
    render: [Object.prototype] as it leaves it, and the groups.  It is
    [NotFollowed] where [Object.prototype] holds a name of [namesRead]
    (a row or an element that lacks such a property is then not what
    this embedding takes it to be). *)
Definition groupedQuestions (prototype : obj (list Question))
  (qs : list Question) : obj (list Question) * outcome groups :=
  if noReadNameAdded prototype then reduce qs prototype []
  else (prototype, NotFollowed).

(** The state in which the markup is built: [Object.prototype] is as the
    grouping of this render left it. *)
Definition grouped (s : State) : State :=
  setObjectPrototype
    (fst (groupedQuestions (ObjectPrototype s) (questions s))) s.

Definition toggleButton (key text : string) : node :=
  Element "button" [TypeAttr "button"; OnClick (ToggleCollapse key)] [Text text].

Definition some_nodes (r : option node) : list node :=
  match r with Some n => [n] | None => [] end.

(** One entry of [Object.entries(subsections)]. *)
Definition renderSubsection (fuel : nat) (s : State) (section : string)
  (entry : string * list Question) : outcome (list node) :=
  let subsection := fst entry in
  let top := filter no_parent (snd entry) in
  if String.eqb subsection "No Subsection" then
    sequence
      (map (fun question =>
              r <- renderQuestion fuel (questions s) (answers s) question ;;
              Done (Element "div" [Key (NumberToString (id question))]
                      (some_nodes r)))
         top)
  else
    let key := (section ++ "-" ++ subsection)%string in
    body <- (if collapsed (ObjectPrototype s) (collapsedSections s) key
             then Done []
             else
               rs <- sequence
                       (map (renderQuestion fuel (questions s) (answers s))
                          top) ;;
               Done (flat_map some_nodes rs)) ;;
    Done [Element "fieldset" [Key subsection]
            (Element "legend" [] [toggleButton key subsection] :: body)].

(** One entry of [Object.entries(groupedQuestions)]. *)
Definition renderSection (fuel : nat) (s : State)
  (entry : string * obj (list Question)) : outcome node :=
  let section := fst entry in
  body <- (if collapsed (ObjectPrototype s) (collapsedSections s) section
           then Done []
           else
             parts <- sequence
                        (map (renderSubsection fuel s section)
                           (entries (snd entry))) ;;
             Done (List.concat parts)) ;;
  Done (Element "fieldset" [Key section]
          (Element "legend" [] [toggleButton section section] :: body)).

(** The button at the end of the form: its [onClick] is commented out. *)
Definition submitButton : node :=
  Element "button" [TypeAttr "button"] [Text "Submit"].

Definition banner : list node :=
  [Element "Image" [Static "alt" "logo"; Static "src" "/Fuze.png"] [];
   Element "div" []
     [Element "Image"
        [Static "src" "/Fuze img.jpeg";
         Static "alt" "Your dream job is just a click away!"] []];
   Element "div" []
     [Element "Image"
        [Static "src" "/Fuze img.jpeg";
         Static "alt" "Your dream job is just a click away!"] []]].

(** The markup [DynamicForm] returns, given the groups.  The form
    declares no [onSubmit]: it is commented out. *)
Definition markup (fuel : nat) (s : State) (sections : groups) : outcome node :=
  main <-
    (if submitted s then
       Done (Element "h1" [] [Text "Thank you for submitting!"])
     else
       content <-
         (if loading s then Done [Element "p" [] [Text "Loading..."]]
          else sequence (map (renderSection fuel s) (entries sections))) ;;
       Done (Element "form" [Static "encType" "multipart/form-data"]
               (content ++ [submitButton]))) ;;
  Done (Element "div" [] (banner ++ [main])).

(** One render of [DynamicForm]: the grouping runs first, whatever the
    flags, and the markup is built in the state it leaves. *)
Definition render (fuel : nat) (s : State) : outcome node :=
  sections <- snd (groupedQuestions (ObjectPrototype s) (questions s)) ;;
  markup fuel (grouped s) sections.

(** The elements of a tree, and the questions whose markup it holds. *)
Fixpoint elements (n : node) : list node :=
  match n with
  | Text _ => []
  | Element _ _ children => n :: flat_map elements children
  | Markup _ m => elements m
  end.

Fixpoint rendered (n : node) : list Question :=
  match n with
  | Text _ => []
  | Element _ _ children => flat_map rendered children
  | Markup q m => q :: rendered m
  end.

(* ================================================================== *)
(** * User interaction *)
(* ================================================================== *)

Fixpoint onClick (attrs : list attr) : option handler :=
  match attrs with
  | [] => None
  | OnClick h :: _ => Some h
  | _ :: rest => onClick rest
  end.

Fixpoint onChange (attrs : list attr) : option handler :=
  match attrs with
  | [] => None
  | OnChange h :: _ => Some h
  | _ :: rest => onChange rest
  end.

Fixpoint onSubmit (attrs : list attr) : option handler :=
  match attrs with
  | [] => None
  | OnSubmit h :: _ => Some h
  | _ :: rest => onSubmit rest
  end.

Fixpoint typeAttr (attrs : list attr) : option string :=
  match attrs with
  | [] => None
  | TypeAttr t :: _ => Some t
  | _ :: rest => typeAttr rest
  end.

Fixpoint nameAttr (attrs : list attr) : option string :=
  match attrs with
  | [] => None
  | Name n :: _ => Some n
  | _ :: rest => nameAttr rest
  end.

Fixpoint valueAttr (attrs : list attr) : option jsval :=
  match attrs with
  | [] => None
  | Value v :: _ => Some v
  | _ :: rest => valueAttr rest
  end.

(** The handlers bound anywhere on an element. *)
Definition bound (attrs : list attr) : list handler :=
  flat_map (fun a => match a with
                     | OnChange h | OnClick h | OnSubmit h => [h]
                     | _ => []
                     end) attrs.

Definition handlers (ui : node) : list handler :=
  flat_map (fun el => match el with
                      | Element _ attrs _ => bound attrs
                      | _ => []
                      end) (elements ui).

Fixpoint checkedAttr (attrs : list attr) : option bool :=
  match attrs with
  | [] => None
  | Checked b :: _ => Some b
  | _ :: rest => checkedAttr rest
  end.

(** [e.target] when the user changes an element: the name and type are the
    element's; the value is what the user typed or chose, except for a
    radio button or a checkbox, whose value is its [value] attribute.  A
    checkbox is controlled by its [checked] attribute, so the event carries
    the opposite of what is shown; choosing a radio button checks it. *)
Definition changeTarget (tag : string) (attrs : list attr)
  (typed : string) (files : list File) : Target :=
  let ty :=
    if String.eqb tag "select" then "select-one"
    else if String.eqb tag "textarea" then "textarea"
    else match typeAttr attrs with Some t => t | None => "text" end in
  let v :=
    if String.eqb ty "radio" || String.eqb ty "checkbox" then
      match valueAttr attrs with Some x => ToString x | None => "on" end
    else typed in
  let c :=
    if String.eqb ty "checkbox" then
      negb (match checkedAttr attrs with Some b => b | None => false end)
    else String.eqb ty "radio" in
  mkTarget (String.eqb tag "input")
    (match nameAttr attrs with Some n => n | None => "" end)
    v ty c files.

Definition noTarget : Target := mkTarget false "" "" "" false [].

Section Component.
(** The form identifier of the query string, and [Number(...)] on a
    property name. *)
Variable formId : Z.
Variable Number : string -> jsval.

(** Calling a handler; [None] when it throws outside any [try] (or, for
    [handleSearch], when the embedding does not follow it). *)
Definition call (h : handler) (t : Target) (w : World) (s : State)
  : option (State * list effect) :=
  match h with
  | HandleChange => Some (handleChange t s, [])
  | HandleCheckboxChange questionId =>
      match handleCheckboxChange t questionId s with
      | Some s' => Some (s', [])
      | None => None
      end
  | HandleFileChange questionId => Some (handleFileChange t questionId s, [])
  | HandleFilePhotoChange questionId =>
      Some (handleFilePhotoChange t questionId s, [])
  | ToggleCollapse key => Some (toggleCollapse key s, [])
  | HandleSubmit => Some (handleSubmit w s)
  | HandleSaveProgress => Some (handleSaveProgress formId Number w s)
  | HandleSearch => handleSearch w s
  end.

(** The [onSubmit] of the form of a tree, if the tree has a form. *)
Definition formOnSubmit (ui : node) : option (option handler) :=
  match filter (fun el => match el with
                          | Element tag _ _ => String.eqb tag "form"
                          | _ => false
                          end) (elements ui) with
  | Element _ attrs _ :: _ => Some (onSubmit attrs)
  | _ => None
  end.

(** A click on an element of the tree [ui].  Its [onClick] runs if it has
    one.  Otherwise only a submit button does anything (a button is one
    unless its type says [button] or [reset]): it submits its form,
    which runs the form's [onSubmit], or sends the form natively when
    there is none. *)
Definition click (ui el : node) (w : World) (s : State)
  : option (State * list effect) :=
  match el with
  | Element tag attrs _ =>
      match onClick attrs with
      | Some h => call h noTarget w s
      | None =>
          let submits :=
            String.eqb tag "button"
            && match typeAttr attrs with
               | Some t => negb (String.eqb t "button" || String.eqb t "reset")
               | None => true
               end in
          if submits then
            match formOnSubmit ui with
            | Some (Some h) => call h noTarget w s
            | Some None => Some (s, [NativeSubmit])
            | None => Some (s, [])
            end
          else Some (s, [])
      end
  | _ => Some (s, [])
  end.

(** The user changes an input, a select or a textarea of the tree. *)
Definition change (el : node) (typed : string) (files : list File)
  (w : World) (s : State) : option (State * list effect) :=
  match el with
  | Element tag attrs _ =>
      match onChange attrs with
      | Some h => call h (changeTarget tag attrs typed files) w s
      | None => Some (s, [])
      end
  | _ => Some (s, [])
  end.

(** One step of the component's life: the question query resolves, the
    component renders once more (a render whose grouping is followed), or
    the user acts on an element of what the component rendered last; the
    handler then runs in the state that render left. *)
Inductive step : State -> State -> Prop :=
| step_fetch r s :
    step s (fst (fetchQuestions r s))
| step_render s :
    snd (groupedQuestions (ObjectPrototype s) (questions s)) <> NotFollowed ->
    step s (grouped s)
| step_click fuel ui el w s s' effs :
    render fuel s = Done ui ->
    In el (elements ui) ->
    click ui el w (grouped s) = Some (s', effs) ->
    step s s'
| step_change fuel ui el typed files w s s' effs :
    render fuel s = Done ui ->
    In el (elements ui) ->
    change el typed files w (grouped s) = Some (s', effs) ->
    step s s'.

Inductive reachable : State -> Prop :=
| reachable_initial : reachable initialState
| reachable_step s s' : reachable s -> step s s' -> reachable s'.

End Component.

(* ================================================================== *)
(** * Properties *)
(* ================================================================== *)

Unset Implicit Arguments.

(** ** Objects *)

Section ObjFacts.
Context {A : Type}.
Implicit Types (o : obj A) (k : string) (v : A).

Lemma get_set_same o k v : get (set o k v) k = Some v.
Proof.
  induction o as [|[k' v'] o IH]; simpl.
  - now rewrite String.eqb_refl.
  - destruct (String.eqb k k') eqn:E; simpl; rewrite E; auto.
Qed.

Lemma get_set_other o k k' v : k' <> k -> get (set o k v) k' = get o k'.
Proof.
  intros Hne. induction o as [|[k0 v0] o IH]; simpl.
  - destruct (String.eqb k' k) eqn:E; auto.
    apply String.eqb_eq in E. contradiction.
  - destruct (String.eqb k k0) eqn:E; simpl.
    + apply String.eqb_eq in E. subst k0.
      apply String.eqb_neq in Hne. now rewrite Hne.
    + now rewrite IH.
Qed.

(** Writing back the value a property already has changes nothing. *)
Lemma set_get_id o k v : get o k = Some v -> set o k v = o.
Proof.
  induction o as [|[k' v'] o IH]; simpl; [discriminate|].
  destruct (String.eqb k k') eqn:E.
  - now intros [= ->].
  - intros H. now rewrite IH.
Qed.

Lemma get_In o k v : get o k = Some v -> In (k, v) o.
Proof.
  induction o as [|[k' v'] o IH]; simpl; [discriminate|].
  destruct (String.eqb k k') eqn:E.
  - apply String.eqb_eq in E. subst. intros [= ->]. now left.
  - auto.
Qed.

Lemma get_None_keys o k : ~ In k (keys o) -> get o k = None.
Proof.
  induction o as [|[k' v'] o IH]; simpl; auto.
  intros H. destruct (String.eqb k k') eqn:E.
  - apply String.eqb_eq in E. subst. tauto.
  - apply IH. tauto.
Qed.

Lemma In_set o k v kv : In kv (set o k v) -> In kv o \/ kv = (k, v).
Proof.
  induction o as [|[k' v'] o IH]; simpl.
  - intros [<-|[]]. now right.
  - destruct (String.eqb k k') eqn:E; simpl.
    + apply String.eqb_eq in E. subst k'. intros [<-|H]; auto.
    + intros [<-|H]; auto. destruct (IH H); auto.
Qed.

Lemma keys_set o k v k' : In k' (keys (set o k v)) -> In k' (keys o) \/ k' = k.
Proof.
  unfold keys. rewrite in_map_iff. intros [[k0 v0] [<- H]].
  apply In_set in H. destruct H as [H|[= -> ->]]; auto.
  left. apply in_map_iff. now exists (k0, v0).
Qed.

Lemma In_insert_index (e x : Z * (string * A)) l :
  In x (insert_index e l) -> x = e \/ In x l.
Proof.
  induction l as [|e' l IH]; simpl.
  - intros [<-|[]]. now left.
  - destruct (fst e <=? fst e'); simpl; intros [<-|H]; auto.
    destruct (IH H); auto.
Qed.

Lemma In_indexed o x : In x (indexed o) -> In (snd x) o.
Proof.
  induction o as [|kv o IH]; simpl; [tauto|].
  destruct (array_index (fst kv)).
  - intros H. apply In_insert_index in H. destruct H as [->|H]; auto.
  - auto.
Qed.

(** Enumerating an object yields properties of the object. *)
Lemma In_entries o kv : In kv (entries o) -> In kv o.
Proof.
  unfold entries, named. rewrite in_app_iff, in_map_iff, filter_In.
  intros [[x [<- H]]|[H _]]; auto. now apply In_indexed.
Qed.

(** A read finds the own property first, an inherited one otherwise. *)
Lemma get_inherit (added o : obj A) k :
  get (inherit added o) k =
  match get o k with Some v => Some v | None => get added k end.
Proof.
  unfold inherit. induction o as [|[k' v'] o IH]; simpl; [reflexivity|].
  destruct (String.eqb k k'); auto.
Qed.

Lemma inherit_nothing o : inherit [] o = o.
Proof. apply app_nil_r. Qed.

Lemma get_inherit_set_same (added o : obj A) k v :
  get (inherit added (set o k v)) k = Some v.
Proof. now rewrite get_inherit, get_set_same. Qed.

Lemma get_inherit_set_other (added o : obj A) k k' v :
  k' <> k -> get (inherit added (set o k v)) k' = get (inherit added o) k'.
Proof. intros H. now rewrite !get_inherit, get_set_other. Qed.
End ObjFacts.

(** ** The Answer State as it is read *)

Lemma get_answers (s : State) (k : string) :
  get (answers s) k =
  match get (formData s) k with
  | Some v => Some v
  | None => get (added (ObjectPrototype s)) k
  end.
Proof. apply get_inherit. Qed.

(** An own entry is what a read finds. *)
Lemma get_answers_own (s : State) (k : string) (v : jsval) :
  get (formData s) k = Some v -> get (answers s) k = Some v.
Proof. intros H. now rewrite get_answers, H. Qed.

(** While nothing has been added to [Object.prototype], reads find the
    own entries and nothing else. *)
Lemma answers_own (s : State) :
  ObjectPrototype s = [] -> answers s = formData s.
Proof. unfold answers. intros ->. apply inherit_nothing. Qed.

Lemma answerOf_answers_own (s : State) (i : Z) (v : jsval) :
  answerOf (formData s) i = Some v -> answerOf (answers s) i = Some v.
Proof. apply get_answers_own. Qed.

Lemma get_added (prototype : obj (list Question)) (k : string) :
  get (added prototype) k =
  option_map (fun rows => JArr (map rowOf rows)) (get prototype k).
Proof.
  induction prototype as [|[k' rows] prototype IH]; simpl; [reflexivity|].
  destruct (String.eqb k k'); auto.
Qed.

(** ** Visibility *)

Lemma strict_eq_string_true x c :
  strict_eq_string x c = true <->
  (x = None /\ c = Undefined) \/
  (x = Some JNull /\ c = Null) \/
  (exists v, x = Some (JStr v) /\ c = Has v).
Proof.
  unfold strict_eq_string. split.
  - destruct x as [[]|], c; try discriminate; auto.
    intros H. apply String.eqb_eq in H. subst. right. right. eauto.
  - intros [[-> ->]|[[-> ->]|[v [-> ->]]]]; auto. apply String.eqb_refl.
Qed.

Definition question5 : Question :=
  mkQuestion 5 1 "Details" None "text" "Which one?" None (Some 0) (Has "yes").

(** C2, the claim as stated fails: a question whose parent identifier is 0
    has a parent identifier, the Answer State holds nothing for it, and the
    evaluator still answers true. *)
Lemma shouldDisplay_parent_zero :
  parent_question_id question5 = Some 0 /\
  strict_eq_string (answerOf [] 0) (condition_value question5) = false /\
  shouldDisplay [] question5 = true.
Proof. repeat split. Qed.

(** C2 (amended): the evaluator answers true exactly when the question has
    no parent identifier, or its parent identifier is 0, or the Answer
    State entry of the parent is strictly equal to the condition value:
    the entry is a string and the condition value is that string, or the
    entry is absent and the question has no condition value field, or both
    are [null]. *)
Theorem shouldDisplay_spec (fd : object) (q : Question) :
  shouldDisplay fd q = true <->
  parent_question_id q = None \/
  parent_question_id q = Some 0 \/
  exists p, parent_question_id q = Some p /\ p <> 0 /\
    ((exists v, answerOf fd p = Some (JStr v) /\ condition_value q = Has v) \/
     (answerOf fd p = None /\ condition_value q = Undefined) \/
     (answerOf fd p = Some JNull /\ condition_value q = Null)).
Proof.
  unfold shouldDisplay, no_parent.
  destruct (parent_question_id q) as [p|]; simpl.
  - destruct (Z.eqb_spec p 0) as [->|Hp]; simpl.
    + split; auto.
    + rewrite strict_eq_string_true. split.
      * intros H. right. right. exists p. tauto.
      * intros [H|[[= H]|[p' [[= <-] [_ H]]]]];
          [discriminate|contradiction|tauto].
  - split; auto.
Qed.

(** With a parent identifier other than 0 and a condition value that is a
    string, or [null] as the store gives for a value not set, an absent
    parent answer hides the question. *)
Lemma shouldDisplay_absent_parent_answer fd q p :
  parent_question_id q = Some p -> p <> 0 ->
  condition_value q <> Undefined ->
  answerOf fd p = None ->
  shouldDisplay fd q = false.
Proof.
  intros Hp Hz Hc Ha. unfold shouldDisplay, no_parent.
  rewrite Hp, Ha. apply Z.eqb_neq in Hz. rewrite Hz. simpl.
  destruct (condition_value q); auto. contradiction.
Qed.

(** ** The submission pipeline *)

(** A collaborator with empty tables in which every call succeeds; an
    upload answers the path it was given. *)
Definition quietWorld : World :=
  mkWorld [] [] None None (fun _ p _ => ok (mkUpload p))
    (fun _ => None) (fun _ => None).

(** The form of the specification's scenario A: a parent question 10 and a
    sub-question 11 shown when the answer to 10 is [yes]. *)
Definition question10 : Question :=
  mkQuestion 10 1 "Profile" None "text" "Do you have one?" None None Null.
Definition question11 : Question :=
  mkQuestion 11 1 "Profile" None "radio" "Which one?"
    (Some [Choice.make "X" "x"; Choice.make "Y" "y"]) (Some 10) (Has "yes").

(** The answer to 10 was [yes], 11 was answered [x], then 10 became [no]. *)
Definition scenarioA : State :=
  mkState [question10; question11] [("10", JStr "no"); ("11", JStr "x")]
    false false [] [].

(** The question a record was prepared for. *)
Definition record_question_id (r : object) : option jsval := get r "question_id".

Lemma prepare_results w fd qs : forall n,
  Forall2 (fun q r =>
             match r with
             | inl e =>
                 exists f, fileToUpload fd q = Some f
             | inr rec =>
                 match fileToUpload fd q with
                 | Some _ => exists p, rec = responseRecord q (JStr p)
                 | None => rec = responseRecord q (rawAnswer fd q)
                 end
             end)
    qs (snd (prepare w fd n qs)).
Proof.
  induction qs as [|q qs IH]; intros n; simpl; [constructor|].
  destruct (fileToUpload fd q) as [f|] eqn:Hf.
  - specialize (IH (S n)). destruct (prepare w fd (S n) qs) as [effs rs].
    simpl in *. constructor; auto.
    destruct (error (upload_reply w n _ f)); [eauto|].
    rewrite Hf. eauto.
  - specialize (IH n). destruct (prepare w fd n qs) as [effs rs].
    simpl in *. constructor; auto. now rewrite Hf.
Qed.

Lemma promise_all_inr {E A} (l : list (E + A)) (r : list A) :
  promise_all l = inr r -> l = map inr r.
Proof.
  revert r. induction l as [|[e|a] l IH]; simpl; intros r.
  - now intros [= <-].
  - discriminate.
  - destruct (promise_all l) as [e|r']; [discriminate|].
    intros [= <-]. simpl. f_equal. now apply IH.
Qed.

Lemma promise_all_inl {E A} (l : list (E + A)) (e : E) :
  In (inl e) l -> exists e', promise_all l = inl e'.
Proof.
  induction l as [|[e0|a] l IH]; simpl; [tauto| |].
  - eauto.
  - intros [H|H]; [discriminate|].
    destruct (IH H) as [e' ->]. eauto.
Qed.

(** C1, the claim as stated fails: in scenario A question 11 is hidden,
    and the one upsert of the submission still carries a record for it,
    with the value it held before. *)
Lemma handleSubmit_submits_hidden_question :
  shouldDisplay (answers scenarioA) question11 = false /\
  snd (handleSubmit quietWorld scenarioA) =
    [Upsert "responses"
       [responseRecord question10 (JStr "no");
        responseRecord question11 (JStr "x")]
       "organization_id,question_id"].
Proof. split; reflexivity. Qed.

(** C1 (amended): when no upload fails, the pipeline prepares exactly one
    record per fetched question, in the order of the questions, whether
    the question is visible or not; the record of a question that uploads
    no file carries what the Answer State holds for it, or the empty
    string.  So a visible question contributes exactly one record, and so
    does a hidden one. *)
Theorem prepare_one_record_per_question (w : World) (s : State)
  (responsePayload : list object) :
  promise_all (snd (prepare w (answers s) 0 (questions s)))
    = inr responsePayload ->
  Forall2 (fun q r =>
             record_question_id r = Some (JNum (id q)) /\
             (fileToUpload (answers s) q = None ->
              r = responseRecord q (rawAnswer (answers s) q)))
    (questions s) responsePayload.
Proof.
  intros H. apply promise_all_inr in H.
  pose proof (prepare_results w (answers s) (questions s) 0) as HF.
  rewrite H in HF. clear H.
  remember (questions s) as qs eqn:E. clear E.
  revert qs HF. induction responsePayload as [|r rs IH]; intros qs HF;
    inversion HF; subst; constructor; auto.
  match goal with H : match fileToUpload _ _ with _ => _ end |- _ =>
    destruct (fileToUpload (answers s) x) eqn:Hf;
      [destruct H as [p ->]|subst r] end.
  - split; [reflexivity|discriminate].
  - split; reflexivity.
Qed.

Lemma prepare_one_record_per_question_witness :
  promise_all (snd (prepare quietWorld (answers scenarioA) 0
                      (questions scenarioA)))
    = inr [responseRecord question10 (JStr "no");
           responseRecord question11 (JStr "x")] /\
  Forall2 (fun q r =>
             record_question_id r = Some (JNum (id q)) /\
             (fileToUpload (answers scenarioA) q = None ->
              r = responseRecord q (rawAnswer (answers scenarioA) q)))
    (questions scenarioA)
    [responseRecord question10 (JStr "no");
     responseRecord question11 (JStr "x")].
Proof.
  split; [reflexivity|].
  apply (prepare_one_record_per_question quietWorld scenarioA). reflexivity.
Defined.

(** The uploads the mappers of the questions [qs] issue. *)
Definition uploadsOf (fd : object) (qs : list Question) : nat :=
  List.length (filter (fun q => match fileToUpload fd q with
                           | Some _ => true
                           | None => false
                           end) qs).

Definition is_upsert (e : effect) : bool :=
  match e with Upsert _ _ _ => true | _ => false end.

Lemma prepare_app w fd pre rest : forall n,
  snd (prepare w fd n (pre ++ rest)) =
  snd (prepare w fd n pre)
    ++ snd (prepare w fd (n + uploadsOf fd pre)%nat rest).
Proof.
  induction pre as [|q pre IH]; intros n; simpl.
  - unfold uploadsOf. simpl. now rewrite Nat.add_0_r.
  - unfold uploadsOf in *. simpl.
    destruct (fileToUpload fd q) as [f|] eqn:Hf; simpl.
    + specialize (IH (S n)).
      destruct (prepare w fd (S n) (pre ++ rest)) as [e1 r1].
      destruct (prepare w fd (S n) pre) as [e2 r2]. simpl in *.
      rewrite IH. now rewrite Nat.add_succ_r.
    + specialize (IH n).
      destruct (prepare w fd n (pre ++ rest)) as [e1 r1].
      destruct (prepare w fd n pre) as [e2 r2]. simpl in *.
      now rewrite IH.
Qed.

Lemma prepare_effects_uploads w fd qs : forall n,
  existsb is_upsert (fst (prepare w fd n qs)) = false.
Proof.
  induction qs as [|q qs IH]; intros n; simpl; auto.
  destruct (fileToUpload fd q).
  - specialize (IH (S n)). destruct (prepare w fd (S n) qs). simpl in *. auto.
  - specialize (IH n). destruct (prepare w fd n qs). simpl in *. auto.
Qed.

(** An upload that fails makes its mapper throw. *)
Lemma prepare_failed_upload w fd pre q post f e :
  fileToUpload fd q = Some f ->
  error (upload_reply w (uploadsOf fd pre) ("files/" ++ file_name f)%string f)
    = Some e ->
  In (inl e) (snd (prepare w fd 0 (pre ++ q :: post))).
Proof.
  intros Hf He. rewrite prepare_app. apply in_or_app. right.
  change (0 + uploadsOf fd pre)%nat with (uploadsOf fd pre).
  cbn [prepare]. rewrite Hf.
  destruct (prepare w fd (S (uploadsOf fd pre)) post) as [effs rs].
  cbn [snd]. left. now rewrite He.
Qed.

Definition submissionFailed : string :=
  "An error occurred while submitting the form. Please try again.".

(** C6: if the upload of any one file fails during a submission, the
    submission fails as a whole: no upsert is issued (no record is
    persisted), the user is alerted, the submitted flag keeps its value,
    the loading flag ends false (the form is editable again), and the
    questions, the Answer State and the collapse flags are what they
    were. *)
Theorem handleSubmit_upload_failure (w : World) (s : State)
  (pre post : list Question) (q : Question) (f : File) (e : Error) :
  questions s = pre ++ q :: post ->
  fileToUpload (answers s) q = Some f ->
  error (upload_reply w (uploadsOf (answers s) pre)
           ("files/" ++ file_name f)%string f) = Some e ->
  fst (handleSubmit w s) =
    mkState (questions s) (formData s) false (submitted s)
      (collapsedSections s) (ObjectPrototype s) /\
  existsb is_upsert (snd (handleSubmit w s)) = false /\
  In (Alert submissionFailed) (snd (handleSubmit w s)).
Proof.
  intros Hq Hf He.
  pose proof (prepare_failed_upload w (answers s) pre q post f e Hf He) as Hin.
  rewrite <- Hq in Hin. apply promise_all_inl in Hin. destruct Hin as [e' He'].
  pose proof (prepare_effects_uploads w (answers s) (questions s) 0) as Hup.
  unfold handleSubmit. change (answers (setLoading true s)) with (answers s).
  simpl.
  destruct (prepare w (answers s) 0 (questions s)) as [uploads results].
  simpl in *. rewrite He'. simpl. repeat split.
  - rewrite existsb_app, Hup. reflexivity.
  - apply in_or_app. right. simpl. auto.
Qed.

(** A submission of two files in which the second upload is refused. *)
Definition question20 : Question :=
  mkQuestion 20 1 "Documents" None "file" "Resume" None None Null.
Definition question21 : Question :=
  mkQuestion 21 1 "Documents" None "file" "Cover letter" None None Null.
Definition twoFiles : State :=
  mkState [question20; question21]
    [("20", JFile (mkFile "cv.pdf" "a")); ("21", JFile (mkFile "letter.pdf" "b"))]
    false false [] [].
Definition secondUploadRefused : World :=
  mkWorld [] [] None None
    (fun n p _ => match n with
                  | 1%nat => failed (mkError "409" "The resource already exists")
                  | _ => ok (mkUpload p)
                  end)
    (fun _ => None) (fun _ => None).

Lemma handleSubmit_upload_failure_witness :
  fst (handleSubmit secondUploadRefused twoFiles) =
    mkState (questions twoFiles) (formData twoFiles) false false [] [] /\
  existsb is_upsert (snd (handleSubmit secondUploadRefused twoFiles)) = false /\
  In (Alert submissionFailed) (snd (handleSubmit secondUploadRefused twoFiles)).
Proof.
  apply (handleSubmit_upload_failure secondUploadRefused twoFiles
           [question20] [] question21 (mkFile "letter.pdf" "b")
           (mkError "409" "The resource already exists"));
    reflexivity.
Defined.

(** C7, evaluated on the code: whatever the world and the state, the rows
    of the upsert [handleSubmit] issues hold a question identifier and an
    answer and nothing else; none carries the organization identifier that
    the conflict target names. *)
Theorem handleSubmit_rows_lack_organization (w : World) (s : State) :
  Forall (fun e =>
            match e with
            | Upsert table rows onConflict =>
                table = "responses" /\
                onConflict = "organization_id,question_id" /\
                Forall (fun r => keys r = ["question_id"; "answer"] /\
                                 get r "organization_id" = None) rows
            | _ => True
            end)
    (snd (handleSubmit w s)).
Proof.
  pose proof (prepare_effects_uploads w (answers s) (questions s) 0) as Hup.
  pose proof (prepare_results w (answers s) (questions s) 0) as HF.
  unfold handleSubmit. change (answers (setLoading true s)) with (answers s).
  simpl.
  destruct (prepare w (answers s) 0 (questions s)) as [uploads results].
  simpl in *.
  assert (Hu : Forall (fun e => match e with
                                | Upsert table rows onConflict =>
                                    table = "responses" /\
                                    onConflict = "organization_id,question_id" /\
                                    Forall (fun r =>
                                              keys r = ["question_id"; "answer"] /\
                                              get r "organization_id" = None)
                                      rows
                                | _ => True
                                end) uploads).
  { clear HF. induction uploads as [|u us IH]; [constructor|].
    simpl in Hup. apply orb_false_elim in Hup. destruct Hup as [Hu1 Hu2].
    constructor; auto. destruct u; auto. discriminate. }
  destruct (promise_all results) as [e|payload] eqn:Hp; simpl.
  - apply Forall_app. split; auto; repeat constructor.
  - assert (Hrows : Forall (fun r => keys r = ["question_id"; "answer"] /\
                                     get r "organization_id" = None) payload).
    { apply promise_all_inr in Hp. subst results. clear Hup Hu.
      remember (questions s) as qs eqn:E. clear E. revert qs HF.
      induction payload as [|r rs IH]; intros qs HF; constructor;
        inversion HF; subst; eauto.
      match goal with H : match fileToUpload _ _ with _ => _ end |- _ =>
        destruct (fileToUpload (answers s) x);
          [destruct H as [p ->]|subst r] end; split; reflexivity. }
    destruct (upsert_responses_failure w payload); simpl;
      apply Forall_app; split; auto; repeat constructor; auto.
Qed.

(** ** Multi-choice answers *)

Lemma filter_differs_absent value l :
  ~ In (JStr value) l -> filter (differs value) l = l.
Proof.
  induction l as [|x l IH]; simpl; auto.
  intros H. rewrite IH by tauto.
  assert (Hx : differs value x = true).
  { destruct x; simpl; auto. apply negb_true_iff, String.eqb_neq.
    intros ->. apply H. now left. }
  now rewrite Hx.
Qed.

Lemma NoDup_snoc {A} (l : list A) (x : A) :
  NoDup l -> ~ In x l -> NoDup (l ++ [x]).
Proof.
  induction l as [|y l IH]; simpl; intros Hn Hx.
  - constructor; [tauto|constructor].
  - inversion Hn; subst. constructor.
    + rewrite in_app_iff. simpl. intros [H|[H|[]]]; [tauto|].
      subst. tauto.
    + apply IH; tauto.
Qed.

Lemma setFormData_same s : setFormData (formData s) s = s.
Proof. now destruct s. Qed.

(** The change events of the checkbox of option [a] of question 1. *)
Definition checkA : Target := mkTarget true "1-a" "a" "checkbox" true [].
Definition uncheckA : Target := mkTarget true "1-a" "a" "checkbox" false [].

(** C4, the claim as stated fails: checking [a] twice from the empty
    Answer State stores [a] twice, and unchecking [a] when nothing is
    stored for the question creates an entry, the empty list. *)
Lemma handleCheckboxChange_not_set_like :
  match handleCheckboxChange checkA 1 initialState with
  | Some s1 => option_map formData (handleCheckboxChange checkA 1 s1)
  | None => None
  end = Some [("1", JArr [JStr "a"; JStr "a"])] /\
  formData initialState = [] /\
  option_map formData (handleCheckboxChange uncheckA 1 initialState)
    = Some [("1", JArr [])].
Proof. repeat split. Qed.

(** C4 (amended): the multi-choice update works on the stored list.
    Checking a value that is not in the list appends it once, so a list
    without duplicates stays without duplicates; unchecking a value that
    is not in the stored list leaves the whole state unchanged.  (Nothing
    is promised for a value checked while it is already stored.) *)
Theorem handleCheckboxChange_spec (s : State) (questionId : Z)
  (l : list jsval) (t : Target) :
  currentValues (answers s) questionId = JArr l ->
  ~ In (JStr (target_value t)) l ->
  (target_checked t = true ->
   exists s', handleCheckboxChange t questionId s = Some s' /\
     answerOf (formData s') questionId
       = Some (JArr (l ++ [JStr (target_value t)])) /\
     (NoDup l -> NoDup (l ++ [JStr (target_value t)]))) /\
  (target_checked t = false ->
   answerOf (formData s) questionId = Some (JArr l) ->
   handleCheckboxChange t questionId s = Some s).
Proof.
  intros Hcur Hnot. unfold handleCheckboxChange. rewrite Hcur. split.
  - intros ->. simpl. eexists. split; [reflexivity|]. split.
    + unfold answerOf. simpl. apply get_set_same.
    + intros Hn. now apply NoDup_snoc.
  - intros -> Hget. simpl. rewrite filter_differs_absent by assumption.
    unfold answerOf in Hget. rewrite (set_get_id _ _ _ Hget).
    now rewrite setFormData_same.
Qed.

Definition oneChecked : State :=
  mkState [] [("1", JArr [JStr "b"])] false false [] [].

Lemma handleCheckboxChange_spec_witness :
  (exists s', handleCheckboxChange checkA 1 oneChecked = Some s' /\
     answerOf (formData s') 1 = Some (JArr [JStr "b"; JStr "a"]) /\
     (NoDup [JStr "b"] -> NoDup [JStr "b"; JStr "a"])) /\
  handleCheckboxChange uncheckA 1 oneChecked = Some oneChecked.
Proof.
  assert (Hnot : ~ In (JStr "a") [JStr "b"]).
  { simpl. intros [H|[]]. discriminate. }
  destruct (handleCheckboxChange_spec oneChecked 1 [JStr "b"] checkA
              eq_refl Hnot) as [Hcheck _].
  destruct (handleCheckboxChange_spec oneChecked 1 [JStr "b"] uncheckA
              eq_refl Hnot) as [_ Huncheck].
  split.
  - exact (Hcheck eq_refl).
  - exact (Huncheck eq_refl eq_refl).
Defined.

(** ** Resuming *)

Definition searchFailed : list effect :=
  [ConsoleError "Error fetching progress:";
   Alert "Failed to retrieve saved progress."].

(** C8, evaluated on the code: with a non-empty email in the Answer State
    and no organization of that email in the store, [.single()] answers an
    error, which [handleSearch] throws before it looks at the data: the
    user gets the generic failure message, not the message for an unknown
    organization.  The responses are not fetched and the Answer State is
    unchanged. *)
Theorem handleSearch_no_organization (w : World) (s : State) (email : string) :
  get (formData s) "contactEmail" = Some (JStr email) ->
  email <> "" ->
  organizations_failure w = None ->
  (forall r, In r (organizations w) -> contactEmail r <> email) ->
  handleSearch w s =
    Some (mkState (questions s) (formData s) false (submitted s)
            (collapsedSections s) (ObjectPrototype s),
          Select "organizations" "id" "contactEmail" email true :: searchFailed).
Proof.
  intros Hget Hne Hfail Hnone. unfold handleSearch.
  rewrite (get_answers_own _ _ _ Hget). simpl.
  apply String.eqb_neq in Hne. rewrite Hne. simpl.
  unfold select_organizations. rewrite Hfail.
  assert (Hf : filter (fun r => String.eqb (contactEmail r) email)
                 (organizations w) = []).
  { induction (organizations w) as [|r rs IH]; simpl; auto.
    destruct (String.eqb (contactEmail r) email) eqn:E.
    - apply String.eqb_eq in E. exfalso. apply (Hnone r); simpl; auto.
    - apply IH. intros r' Hr'. apply Hnone. simpl. auto. }
  rewrite Hf. reflexivity.
Qed.

(** A store with one organization, and a state whose email is another. *)
Definition oneOrganization : World :=
  mkWorld [mkOrganization 7 "hr@example.org"] [] None None
    (fun _ p _ => ok (mkUpload p)) (fun _ => None) (fun _ => None).
Definition unknownEmail : State :=
  mkState [question10] [("contactEmail", JStr "nobody@example.org")]
    false false [] [].

Lemma handleSearch_no_organization_witness :
  handleSearch oneOrganization unknownEmail =
    Some (unknownEmail,
          [Select "organizations" "id" "contactEmail" "nobody@example.org" true;
           ConsoleError "Error fetching progress:";
           Alert "Failed to retrieve saved progress."]).
Proof.
  apply (handleSearch_no_organization oneOrganization unknownEmail
           "nobody@example.org").
  - reflexivity.
  - discriminate.
  - reflexivity.
  - simpl. intros r [<-|[]]. discriminate.
Defined.

(** The branch of [handleSearch] for an unknown organization is dead:
    [.single()] never answers without both a row and an error. *)
Lemma single_data_or_error {A} (r : Reply (list A)) :
  error (single r) = None -> data (single r) <> None.
Proof.
  unfold single. destruct (error r); simpl; [discriminate|].
  destruct (data r) as [[|x [|y l]]|]; simpl; discriminate.
Qed.

Lemma populate_logs rows : forall savedData,
  Forall (fun e => exists l, e = ConsoleLog l) (fst (populate rows savedData)).
Proof.
  induction rows as [|r rows IH]; intros savedData; simpl; [constructor|].
  destruct (response_answer r) as [answer|]; [|constructor].
  destruct (decode answer) as [v| |]; [|constructor|].
  - specialize (IH (set savedData (NumberToString (response_question_id r)) v)).
    destruct (populate rows _). simpl in *.
    repeat constructor; eauto.
  - specialize (IH savedData).
    destruct (populate rows _). simpl in *.
    repeat constructor; eauto.
Qed.

Lemma handleSearch_never_reports_unknown_organization (w : World) (s : State)
  (r : State * list effect) :
  handleSearch w s = Some r ->
  ~ In (Alert "No organization found for this email.") (snd r).
Proof.
  unfold handleSearch.
  destruct (get (answers s) "contactEmail") as [email|];
    [|intros [= <-]; simpl; intros [H|[]]; discriminate].
  destruct (truthy email);
    [|intros [= <-]; simpl; intros [H|[]]; discriminate].
  pose proof (@single_data_or_error _
                (select_organizations w (ToString email))) as Hs.
  destruct (error (single (select_organizations w (ToString email)))).
  - intros [= <-]. simpl. intros [H|[H|[H|[]]]]; discriminate.
  - destruct (data (single (select_organizations w (ToString email))))
      as [orgData|]; [|now destruct Hs].
    destruct (error (select_responses w (organization_id orgData))).
    + intros [= <-]. simpl. intros [H|[H|[H|[H|[]]]]]; discriminate.
    + destruct (data (select_responses w (organization_id orgData)))
        as [[|row rows]|].
      * intros [= <-]. simpl. intros [H|[H|[H|[]]]]; discriminate.
      * pose proof (populate_logs (row :: rows) []) as Hl.
        destruct (populate (row :: rows) []) as [logs [savedData| |]];
          [| |discriminate]; intros [= <-];
          simpl in *; intros [H|[H|H]]; try discriminate.
        -- rewrite Forall_forall in Hl. destruct (Hl _ H). discriminate.
        -- apply in_app_or in H. destruct H as [H|[H|[H|[]]]];
             try discriminate.
           rewrite Forall_forall in Hl. destruct (Hl _ H). discriminate.
      * intros [= <-]. simpl. intros [H|[H|[H|[H|[]]]]]; discriminate.
Qed.

(** ** The save-time encoding and the resume-time decoding *)

Module JSONFacts.
Import JSON.

Lemma append_assoc (a b c : string) : ((a ++ b) ++ c = a ++ (b ++ c))%string.
Proof. induction a; simpl; congruence. Qed.

Lemma length_append (a b : string) :
  String.length (a ++ b) = (String.length a + String.length b)%nat.
Proof. induction a; simpl; congruence. Qed.

(** Reading back one escaped code unit. *)
Lemma parse_chars_escape_char (c : ascii) (tail : string) :
  parse_chars (escape_char c ++ tail) = cons_char c (parse_chars tail).
Proof.
  destruct c as [[] [] [] [] [] [] [] []]; reflexivity.
Qed.

(** Reading back the body of a quoted string. *)
Lemma parse_chars_escape (s rest : string) :
  parse_chars (escape s ++ String dquote rest) = Reads (s, rest).
Proof.
  induction s as [|c s IH]; simpl.
  - reflexivity.
  - rewrite append_assoc, parse_chars_escape_char, IH. reflexivity.
Qed.

Lemma quote_cons (s rest : string) :
  (quote s ++ rest)%string = String dquote (escape s ++ String dquote rest).
Proof. unfold quote. simpl. now rewrite append_assoc. Qed.

Lemma parse_value_quote (fuel : nat) (s rest : string) :
  parse_value (S fuel) (quote s ++ rest) = Reads (JStr s, rest).
Proof.
  rewrite quote_cons.
  change (parse_value (S fuel) (String dquote (escape s ++ String dquote rest)))
    with (andThen (parse_chars (escape s ++ String dquote rest))
            (fun xr => Reads (JStr (fst xr), snd xr))).
  now rewrite parse_chars_escape.
Qed.

Lemma skip_ws_comma r : skip_ws (String "," r) = String "," r.
Proof. reflexivity. Qed.
Lemma skip_ws_bracket r : skip_ws (String "]" r) = String "]" r.
Proof. reflexivity. Qed.

(** Reading back the elements of an array of strings. *)
Lemma parse_elements_strings (fuel : nat) (l : list string) :
  forall (x : string) (n : nat) (rest : string),
  (List.length l < n)%nat ->
  parse_elements (parse_value (S fuel)) n
    (String.concat "," (map quote (x :: l)) ++ String "]" rest)
  = Reads (map JStr (x :: l), rest).
Proof.
  induction l as [|y l IH]; intros x n rest Hn.
  - destruct n as [|n]; [inversion Hn|].
    cbn [map String.concat parse_elements].
    rewrite parse_value_quote. cbn [andThen fst snd].
    rewrite skip_ws_bracket. reflexivity.
  - destruct n as [|n]; [inversion Hn|].
    change (String.concat "," (map quote (x :: y :: l)))
      with (quote x ++ String "," (String.concat "," (map quote (y :: l))))%string.
    rewrite append_assoc.
    cbn [parse_elements].
    rewrite parse_value_quote. cbn [andThen fst snd].
    change (String "," (String.concat "," (map quote (y :: l))) ++ String "]" rest)%string
      with (String "," (String.concat "," (map quote (y :: l)) ++ String "]" rest)).
    rewrite skip_ws_comma, IH by (simpl in Hn; lia).
    reflexivity.
Qed.

Lemma length_quote (s : string) : (2 <= String.length (quote s))%nat.
Proof. unfold quote. simpl. rewrite length_append. simpl. lia. Qed.

Lemma length_concat_quote (l : list string) :
  (List.length l <= String.length (String.concat "," (map quote l)))%nat.
Proof.
  induction l as [|x l IH]; [simpl; lia|].
  pose proof (length_quote x) as Hx.
  destruct l as [|y l].
  - simpl in *. lia.
  - change (String.concat "," (map quote (x :: y :: l)))
      with (quote x ++ String "," (String.concat "," (map quote (y :: l))))%string.
    rewrite length_append.
    change (String.length (String "," (String.concat "," (map quote (y :: l)))))
      with (S (String.length (String.concat "," (map quote (y :: l))))).
    change (List.length (x :: y :: l)) with (S (List.length (y :: l))).
    lia.
Qed.

(** An array whose first element is a string literal. *)
Lemma parse_value_bracket (fuel : nat) (tail : string) :
  parse_value (S (S fuel)) (String "[" (String dquote tail)) =
  andThen
    (parse_elements (parse_value (S fuel))
       (S (String.length (String dquote tail))) (String dquote tail))
    (fun lr => Reads (JArr (fst lr), snd lr)).
Proof. reflexivity. Qed.

(** [JSON.parse] inverts [JSON.stringify] on arrays of strings. *)
Lemma parse_stringify_strings (l : list string) :
  parse (stringify (JArr (map JStr l))) = Reads (JArr (map JStr l)).
Proof.
  assert (Hs : stringify (JArr (map JStr l))
               = String "[" (String.concat "," (map quote l) ++ "]")).
  { simpl. rewrite map_map. reflexivity. }
  rewrite Hs. unfold parse.
  destruct l as [|x l].
  - reflexivity.
  - set (body := (String.concat "," (map quote (x :: l)) ++ "]")%string).
    assert (Hlen : (List.length l < String.length body)%nat).
    { subst body. pose proof (length_concat_quote (x :: l)) as Hc.
      rewrite length_append.
      change (List.length (x :: l)) with (S (List.length l)) in Hc.
      change (String.length "]") with 1%nat. lia. }
    assert (Hq : exists tail, body = String dquote tail).
    { subst body. destruct l as [|y l].
      - change (String.concat "," (map quote [x])) with (quote x).
        rewrite quote_cons. eauto.
      - change (String.concat "," (map quote (x :: y :: l)))
          with (quote x ++ String "," (String.concat "," (map quote (y :: l))))%string.
        rewrite append_assoc, quote_cons. eauto. }
    destruct Hq as [tail Htail].
    change (String.length (String "[" body)) with (S (String.length body)).
    rewrite Htail, parse_value_bracket, <- Htail.
    unfold body at 3.
    rewrite parse_elements_strings by (apply Nat.lt_lt_succ_r; exact Hlen).
    reflexivity.
Qed.

(** The text [JSON.stringify] gives for an array opens with a bracket. *)
Lemma stringify_array_bracket (l : list jsval) :
  startsWith (stringify (JArr l)) "[" = true.
Proof.
  change (stringify (JArr l))
    with (String "[" (String.concat "," (map stringify l) ++ "]")).
  unfold startsWith.
  destruct (String.concat "," (map stringify l) ++ "]")%string; reflexivity.
Qed.

End JSONFacts.

(** The answers the round trip is stated for: a string that does not open
    with a brace or a bracket, and a list of strings. *)
Definition is_string (v : jsval) : bool :=
  match v with JStr _ => true | _ => false end.

Definition plainOrStringSet (answer : jsval) : bool :=
  match answer with
  | JStr s => negb (startsWith s "{" || startsWith s "[")
  | JArr l => forallb is_string l
  | _ => false
  end.

Lemma strings_of_list (l : list jsval) :
  forallb is_string l = true -> exists ss, l = map JStr ss.
Proof.
  induction l as [|x l IH]; simpl.
  - now exists [].
  - intros H. apply andb_true_iff in H. destruct H as [Hx Hl].
    destruct (IH Hl) as [ss ->]. destruct x; try discriminate.
    now exists (s :: ss).
Qed.

(** The encoding followed by the decoding gives the answer back, for a
    string that does not open with a brace or a bracket and for a list of
    strings. *)
Lemma encode_decode (answer : jsval) :
  plainOrStringSet answer = true ->
  exists text, encode answer = JStr text /\ decode text = Reads answer.
Proof.
  intros H. destruct answer as [| | |s|l| |]; simpl in H; try discriminate.
  - exists s. split; [reflexivity|].
    unfold decode. apply negb_true_iff in H. now rewrite H.
  - destruct (strings_of_list l H) as [ss ->].
    exists (JSON.stringify (JArr (map JStr ss))). split; [reflexivity|].
    unfold decode.
    rewrite (JSONFacts.stringify_array_bracket (map JStr ss)).
    rewrite orb_true_r. apply JSONFacts.parse_stringify_strings.
Qed.

Definition quoted : string :=
  String "s" (String "a" (String "y" (String " " (String JSON.dquote
    (String "h" (String "i" (String JSON.dquote (String "\" "n")))))))).

(** [Number(name)] on the names met in the examples: the number an array
    index denotes, [null] (where JavaScript has NaN) otherwise. *)
Definition numberOfName (name : string) : jsval :=
  match array_index name with Some z => JNum z | None => JNull end.

Definition skills : jsval := JArr [JStr "remote"; JStr quoted; JStr "[on site]"].

(** ** Saving, then resuming *)

(** The table an effect writes, and the table it reads. *)
Definition written (e : effect) : option string :=
  match e with Upsert table _ _ => Some table | _ => None end.
Definition queried (e : effect) : option string :=
  match e with Select table _ _ _ _ => Some table | _ => None end.

Definition savedSuccessfully : string := "Progress saved successfully!".
Definition saveFailed : string := "Failed to save progress. Please try again.".

Ltac each_effect :=
  repeat first [apply Forall_nil | apply Forall_cons]; simpl; auto.

Lemma handleSaveProgress_writes (formId : Z) (Number : string -> jsval)
  (w : World) (s : State) :
  Forall (fun e => queried e = None /\
                   (written e = None \/ written e = Some "progress"))
    (snd (handleSaveProgress formId Number w s)).
Proof.
  unfold handleSaveProgress.
  destruct (get (answers s) "contactEmail") as [email|]; [|each_effect].
  destruct (truthy email); [|each_effect].
  destruct (upsert_progress_failure w _); each_effect.
Qed.


(** ** What rendering binds *)

(** [post P m]: if the computation [m] returns, its result satisfies [P]. *)
Definition post {A} (P : A -> Prop) (m : outcome A) : Prop :=
  match m with
  | Done a => P a
  | _ => True
  end.

Lemma post_bind {A B} (Q : A -> Prop) (P : B -> Prop)
  (m : outcome A) (f : A -> outcome B) :
  post Q m -> (forall a, Q a -> post P (f a)) -> post P (bind m f).
Proof. destruct m; simpl; auto. Qed.

Lemma post_sequence {A} (Q : A -> Prop) (l : list (outcome A)) :
  Forall (post Q) l -> post (Forall Q) (sequence l).
Proof.
  induction 1 as [|m l Hm Hl IH]; simpl; [constructor|].
  destruct m as [a| | |]; simpl; auto.
  destruct (sequence l); simpl in *; auto.
Qed.

Lemma post_sequence_map {A B} (Q : B -> Prop) (f : A -> outcome B)
  (l : list A) :
  (forall x, In x l -> post Q (f x)) -> post (Forall Q) (sequence (map f l)).
Proof.
  intros H. apply post_sequence. apply Forall_forall.
  intros m Hm. apply in_map_iff in Hm. destruct Hm as [x [<- Hx]]. auto.
Qed.

Lemma post_weaken {A} (P Q : A -> Prop) (m : outcome A) :
  (forall a, P a -> Q a) -> post P m -> post Q m.
Proof. destruct m; simpl; auto. Qed.

Lemma post_Done {A} (P : A -> Prop) (m : outcome A) (a : A) :
  post P m -> m = Done a -> P a.
Proof. intros H ->. exact H. Qed.

(** The handlers the rendered form may bind, and where: no element has an
    [onSubmit]; an [onClick] only toggles a group; an [onChange] is
    [handleChange] on an element named by a question identifier, or one of
    the handlers that are given the question identifier. *)
Definition fromRender (h : handler) : Prop :=
  match h with
  | HandleSubmit | HandleSaveProgress | HandleSearch => False
  | _ => True
  end.

Definition wellBound (attrs : list attr) : Prop :=
  onSubmit attrs = None /\
  match onClick attrs with
  | None | Some (ToggleCollapse _) => True
  | Some _ => False
  end /\
  match onChange attrs with
  | None => True
  | Some HandleChange => exists z, nameAttr attrs = Some (NumberToString z)
  | Some (HandleCheckboxChange _) | Some (HandleFileChange _)
  | Some (HandleFilePhotoChange _) => True
  | Some _ => False
  end /\
  Forall fromRender (bound attrs).

Definition wellBoundElement (n : node) : Prop :=
  match n with
  | Element _ attrs _ => wellBound attrs
  | _ => True
  end.

Definition wellBoundTree (n : node) : Prop :=
  Forall wellBoundElement (elements n).

Lemma wellBoundTree_Element tag attrs children :
  wellBound attrs -> Forall wellBoundTree children ->
  wellBoundTree (Element tag attrs children).
Proof.
  intros Ha Hc. unfold wellBoundTree. simpl. constructor; [exact Ha|].
  apply Forall_flat_map. exact Hc.
Qed.

Lemma wellBoundTree_Text s : wellBoundTree (Text s).
Proof. constructor. Qed.

Lemma wellBoundTree_Markup q n : wellBoundTree n -> wellBoundTree (Markup q n).
Proof. auto. Qed.

Lemma wellBound_plain attrs :
  onSubmit attrs = None -> onClick attrs = None -> onChange attrs = None ->
  bound attrs = [] -> wellBound attrs.
Proof.
  intros H1 H2 H3 H4. unfold wellBound. rewrite H1, H2, H3, H4.
  repeat split. constructor.
Qed.

Lemma Forall_map_intro {A B} (P : B -> Prop) (f : A -> B) (l : list A) :
  (forall x, P (f x)) -> Forall P (map f l).
Proof. intros H. induction l; simpl; constructor; auto. Qed.

Ltac well_bound :=
  repeat first
    [ apply wellBoundTree_Text
    | apply wellBoundTree_Markup
    | apply wellBoundTree_Element
    | apply Forall_nil
    | apply Forall_cons
    | apply Forall_app; split
    | apply Forall_map_intro; intros
    | assumption
    | solve [unfold wellBound; simpl; repeat split; eauto; repeat constructor] ].

Lemma child_of_wellBound (v : jsval) :
  post (Forall wellBoundTree) (child_of v).
Proof.
  revert v. fix IH 1. intros [| | | |l| |]; simpl; well_bound.
  induction l as [|x l IHl]; simpl; [constructor|].
  apply (post_bind (Forall wellBoundTree)); [apply IH|].
  intros a Ha.
  apply (post_bind (Forall wellBoundTree)); [exact IHl|].
  intros b Hb. simpl. apply Forall_app. auto.
Qed.

Lemma some_nodes_wellBound (r : option node) :
  match r with Some n => wellBoundTree n | None => True end ->
  Forall wellBoundTree (some_nodes r).
Proof. destruct r; simpl; auto. Qed.

Definition wellBoundOption (r : option node) : Prop :=
  match r with Some n => wellBoundTree n | None => True end.

Lemma renderQuestion_wellBound (qs : list Question) (fd : object) :
  forall (fuel : nat) (question : Question),
  post wellBoundOption (renderQuestion fuel qs fd question).
Proof.
  induction fuel as [|fuel IH]; intros question; [exact I|].
  cbn [renderQuestion].
  repeat match goal with
         | |- post _ (if ?b then _ else _) => destruct b
         end;
    try exact I; try (simpl; well_bound; fail).
  - (* radio *)
    apply (post_bind (Forall wellBoundTree)).
    + apply post_sequence_map. intros sub _.
      apply (post_bind wellBoundOption); [apply IH|].
      intros r Hr. simpl. well_bound. now apply some_nodes_wellBound.
    + intros subs Hsubs. simpl. well_bound.
  - (* checkbox *)
    apply (post_bind (Forall wellBoundTree)).
    + apply post_sequence_map. intros o _.
      apply (post_bind (fun _ => True)).
      * destruct (includes _ _); simpl; auto.
      * intros c _. simpl. well_bound.
    + intros boxes Hboxes. simpl. well_bound.
  - (* file *)
    apply (post_bind (Forall wellBoundTree)).
    + destruct (answerOf fd (id question)) as [v|]; [|simpl; constructor].
      destruct (truthy v); [|apply child_of_wellBound].
      apply (post_bind (Forall wellBoundTree)); [apply child_of_wellBound|].
      intros c Hc. simpl. well_bound.
    + intros uploaded Hu. simpl. well_bound.
  - (* file-photo *)
    simpl. well_bound.
    destruct (answerOf fd (id question)) as [v|]; [|well_bound].
    destruct (truthy v); [|well_bound].
    destruct v; well_bound.
Qed.

Lemma toggleButton_wellBound key text : wellBoundTree (toggleButton key text).
Proof. unfold toggleButton. well_bound. Qed.

Lemma flat_map_some_nodes_wellBound (rs : list (option node)) :
  Forall wellBoundOption rs -> Forall wellBoundTree (flat_map some_nodes rs).
Proof.
  intros H. apply Forall_flat_map.
  eapply Forall_impl; [|exact H]. intros r. apply some_nodes_wellBound.
Qed.

Lemma renderSubsection_wellBound fuel s section entry :
  post (Forall wellBoundTree) (renderSubsection fuel s section entry).
Proof.
  unfold renderSubsection.
  destruct (String.eqb (fst entry) "No Subsection").
  - apply post_sequence_map. intros q _.
    apply (post_bind wellBoundOption); [apply renderQuestion_wellBound|].
    intros r Hr. simpl. well_bound. now apply some_nodes_wellBound.
  - apply (post_bind (Forall wellBoundTree)).
    + destruct (collapsed _ _); [simpl; constructor|].
      apply (post_bind (Forall wellBoundOption)).
      * apply post_sequence_map. intros q _. apply renderQuestion_wellBound.
      * intros rs Hrs. simpl. now apply flat_map_some_nodes_wellBound.
    + intros body Hbody. simpl. well_bound.
Qed.

Lemma Forall_concat {A} (P : A -> Prop) (ls : list (list A)) :
  Forall (Forall P) ls -> Forall P (List.concat ls).
Proof.
  induction 1; simpl; [constructor|]. apply Forall_app. auto.
Qed.

Lemma renderSection_wellBound fuel s entry :
  post wellBoundTree (renderSection fuel s entry).
Proof.
  unfold renderSection.
  apply (post_bind (Forall wellBoundTree)).
  - destruct (collapsed _ _); [simpl; constructor|].
    apply (post_bind (Forall (Forall wellBoundTree))).
    + apply post_sequence_map. intros e _. apply renderSubsection_wellBound.
    + intros parts Hparts. simpl. now apply Forall_concat.
  - intros body Hbody. simpl. well_bound.
Qed.

Lemma submitButton_wellBound : wellBoundTree submitButton.
Proof. unfold submitButton. well_bound. Qed.

Lemma banner_wellBound : Forall wellBoundTree banner.
Proof. unfold banner. well_bound. Qed.

(** Every element of the rendered form is bound as [wellBound] says. *)
Lemma markup_wellBound fuel s sections :
  post wellBoundTree (markup fuel s sections).
Proof.
  unfold markup.
  apply (post_bind wellBoundTree).
  - destruct (submitted s); [simpl; well_bound|].
    apply (post_bind (Forall wellBoundTree)).
    + destruct (loading s); [simpl; well_bound|].
      apply post_sequence_map. intros e _. apply renderSection_wellBound.
    + intros content Hc. simpl. well_bound.
  - intros main Hm. simpl. well_bound.
Qed.

(** What holds of the markup for every outcome of the grouping holds of
    the render. *)
Lemma post_render (P : node -> Prop) fuel s :
  (forall sections,
     snd (groupedQuestions (ObjectPrototype s) (questions s)) = Done sections ->
     post P (markup fuel (grouped s) sections)) ->
  post P (render fuel s).
Proof.
  intros H. unfold render.
  destruct (snd (groupedQuestions (ObjectPrototype s) (questions s)))
    as [sections| | |] eqn:E; simpl; [|exact I|exact I|exact I].
  apply H. reflexivity.
Qed.

Lemma render_Done fuel s ui :
  render fuel s = Done ui ->
  exists sections,
    snd (groupedQuestions (ObjectPrototype s) (questions s)) = Done sections /\
    markup fuel (grouped s) sections = Done ui.
Proof.
  unfold render.
  destruct (snd (groupedQuestions (ObjectPrototype s) (questions s)))
    as [sections| | |]; simpl; try discriminate.
  eauto.
Qed.

Lemma render_wellBound fuel s : post wellBoundTree (render fuel s).
Proof. apply post_render. intros sections _. apply markup_wellBound. Qed.

(** ** The Submit control *)

Lemma In_bound_handlers ui tag attrs children h :
  In (Element tag attrs children) (elements ui) -> In h (bound attrs) ->
  In h (handlers ui).
Proof.
  intros Hel Hh. unfold handlers. apply in_flat_map.
  exists (Element tag attrs children). auto.
Qed.

Lemma handlers_fromRender ui :
  wellBoundTree ui -> Forall fromRender (handlers ui).
Proof.
  intros Hwb. unfold handlers. apply Forall_flat_map.
  eapply Forall_impl; [|exact Hwb].
  intros [s|tag attrs children|q n]; simpl; try constructor.
  intros H. apply H.
Qed.

Lemma formOnSubmit_wellBound (ui : node) :
  wellBoundTree ui -> formOnSubmit ui = None \/ formOnSubmit ui = Some None.
Proof.
  intros Hwb. unfold formOnSubmit.
  destruct (filter _ (elements ui)) as [|el rest] eqn:E; auto.
  assert (Hin : In el (elements ui)).
  { eapply proj1. apply filter_In. rewrite E. now left. }
  destruct el as [s|tag attrs children|q n]; auto.
  right. unfold wellBoundTree in Hwb. rewrite Forall_forall in Hwb.
  apply Hwb in Hin. destruct Hin as [H _]. simpl. now rewrite H.
Qed.

Lemma In_elements_app_r a b el :
  In el (elements b) ->
  forall tag attrs, In el (elements (Element tag attrs (a ++ [b]))).
Proof.
  intros H tag attrs. simpl. right. apply in_flat_map. exists b. split; auto.
  apply in_or_app. right. now left.
Qed.

Lemma render_has_submitButton fuel s ui :
  render fuel s = Done ui -> submitted s = false ->
  In submitButton (elements ui).
Proof.
  intros H Hs. apply render_Done in H. destruct H as [sections [_ H]].
  unfold markup in H. change (submitted (grouped s)) with (submitted s) in H.
  rewrite Hs in H.
  destruct (if loading (grouped s) then _ else _) as [content| | |]; simpl in H;
    try discriminate.
  injection H as <-.
  apply (In_elements_app_r banner
           (Element "form" [Static "encType" "multipart/form-data"]
              (content ++ [submitButton]))).
  apply In_elements_app_r. simpl. now left.
Qed.

(** C9: activating the rendered Submit control does nothing.  Whenever the
    component renders, the form has no submit handler, no element of the
    tree is bound to [handleSubmit], and a click on the Submit button
    (which is in the tree whenever the form is, that is, while the form
    is not submitted) returns the state as it was (questions, Answer
    State, collapse flags, loading and submitted flags) with no effect at
    all, so no remote call. *)
Theorem click_submit_does_nothing (formId : Z) (Number : string -> jsval)
  (fuel : nat) (s : State) (ui : node) (w : World) :
  render fuel s = Done ui ->
  (submitted s = false -> In submitButton (elements ui)) /\
  click formId Number ui submitButton w s = Some (s, []) /\
  click formId Number ui submitButton w (grouped s) = Some (grouped s, []) /\
  (formOnSubmit ui = None \/ formOnSubmit ui = Some None) /\
  ~ In HandleSubmit (handlers ui).
Proof.
  intros Hr.
  pose proof (post_Done _ _ _ (render_wellBound fuel s) Hr) as Hwb.
  split; [|split; [|split; [|split]]].
  - intros Hs. eapply render_has_submitButton; eauto.
  - reflexivity.
  - reflexivity.
  - now apply formOnSubmit_wellBound.
  - intros Hin. pose proof (handlers_fromRender ui Hwb) as Hall.
    rewrite Forall_forall in Hall. exact (Hall _ Hin).
Qed.

Definition scenarioA_ui : node :=
  Eval vm_compute in
    match render 2 scenarioA with Done ui => ui | _ => Text "" end.

Lemma click_submit_does_nothing_witness :
  render 2 scenarioA = Done scenarioA_ui /\
  (submitted scenarioA = false -> In submitButton (elements scenarioA_ui)) /\
  click 1 numberOfName scenarioA_ui submitButton quietWorld scenarioA
    = Some (scenarioA, []) /\
  click 1 numberOfName scenarioA_ui submitButton quietWorld (grouped scenarioA)
    = Some (grouped scenarioA, []) /\
  (formOnSubmit scenarioA_ui = None \/ formOnSubmit scenarioA_ui = Some None) /\
  ~ In HandleSubmit (handlers scenarioA_ui).
Proof.
  split; [vm_compute; reflexivity|].
  apply (click_submit_does_nothing 1 numberOfName 2 scenarioA scenarioA_ui
           quietWorld).
  vm_compute. reflexivity.
Defined.

(** ** The keys of the Answer State *)

(** Every property name of the Answer State is a stringified integer. *)
Definition keysNumeric (fd : object) : Prop :=
  Forall (fun k => exists z, k = NumberToString z) (keys fd).

Lemma keysNumeric_set fd z v :
  keysNumeric fd -> keysNumeric (set fd (NumberToString z) v).
Proof.
  unfold keysNumeric. rewrite !Forall_forall. intros H k Hk.
  apply keys_set in Hk. destruct Hk as [Hk| ->]; eauto.
Qed.

Lemma NumberToString_not_contactEmail z : NumberToString z <> "contactEmail".
Proof.
  unfold NumberToString.
  destruct (Z.to_int z) as [d|d]; simpl; [|discriminate].
  destruct d; simpl; discriminate.
Qed.

Lemma keysNumeric_no_contactEmail fd :
  keysNumeric fd -> get fd "contactEmail" = None.
Proof.
  intros H. apply get_None_keys. intros Hin.
  unfold keysNumeric in H. rewrite Forall_forall in H.
  destruct (H _ Hin) as [z Hz]. symmetry in Hz.
  exact (NumberToString_not_contactEmail z Hz).
Qed.

Section Reachable.
Variable formId : Z.
Variable Number : string -> jsval.

Lemma call_keysNumeric h t w s s' effs :
  match h with
  | HandleChange => exists z, target_name t = NumberToString z
  | HandleSubmit | HandleSaveProgress | HandleSearch => False
  | _ => True
  end ->
  call formId Number h t w s = Some (s', effs) ->
  keysNumeric (formData s) -> keysNumeric (formData s').
Proof.
  intros Hh Hcall Hk. destruct h; simpl in Hcall; try contradiction.
  - destruct Hh as [z Hz]. injection Hcall as <- _.
    unfold handleChange. rewrite Hz.
    destruct (_ && _); simpl; now apply keysNumeric_set.
  - unfold handleCheckboxChange in Hcall.
    destruct (if target_checked t then _ else _); [|discriminate].
    injection Hcall as <- _. simpl. now apply keysNumeric_set.
  - injection Hcall as <- _. unfold handleFileChange.
    destruct (target_files t); simpl; auto. now apply keysNumeric_set.
  - injection Hcall as <- _. unfold handleFilePhotoChange.
    destruct (target_files t); simpl; auto. now apply keysNumeric_set.
  - injection Hcall as <- _. exact Hk.
Qed.

Lemma click_keysNumeric ui el w s s' effs :
  wellBoundTree ui -> In el (elements ui) ->
  click formId Number ui el w s = Some (s', effs) ->
  keysNumeric (formData s) -> keysNumeric (formData s').
Proof.
  intros Hwb Hin Hclick Hk.
  pose proof (formOnSubmit_wellBound ui Hwb) as Hform.
  unfold wellBoundTree in Hwb. rewrite Forall_forall in Hwb.
  specialize (Hwb _ Hin).
  destruct el as [x|tag attrs children|q n]; unfold click in Hclick;
    try (injection Hclick as <- _; exact Hk).
  destruct Hwb as [_ [Hc _]].
  destruct (onClick attrs) as [h|].
  - destruct h; try contradiction.
    eapply call_keysNumeric; eauto. exact I.
  - destruct (_ && _).
    + destruct Hform as [Hf | Hf]; rewrite Hf in Hclick;
        injection Hclick as <- _; exact Hk.
    + injection Hclick as <- _; exact Hk.
Qed.

Lemma change_keysNumeric ui el typed files w s s' effs :
  wellBoundTree ui -> In el (elements ui) ->
  change formId Number el typed files w s = Some (s', effs) ->
  keysNumeric (formData s) -> keysNumeric (formData s').
Proof.
  intros Hwb Hin Hchange Hk.
  unfold wellBoundTree in Hwb. rewrite Forall_forall in Hwb.
  specialize (Hwb _ Hin).
  destruct el as [x|tag attrs children|q n]; unfold change in Hchange;
    try (injection Hchange as <- _; exact Hk).
  destruct Hwb as [_ [_ [Hc _]]].
  destruct (onChange attrs) as [h|];
    [|injection Hchange as <- _; exact Hk].
  eapply call_keysNumeric; [|exact Hchange|exact Hk].
  destruct h; try contradiction; try exact I.
  destruct Hc as [z Hz]. exists z. unfold changeTarget. simpl. now rewrite Hz.
Qed.

Lemma step_keysNumeric s s' :
  step formId Number s s' ->
  keysNumeric (formData s) -> keysNumeric (formData s').
Proof.
  intros Hstep Hk. destruct Hstep as [r s|s Hg|fuel ui el w s s' effs Hr Hin Hc
                                     |fuel ui el typed files w s s' effs Hr Hin Hc].
  - exact Hk.
  - exact Hk.
  - eapply click_keysNumeric; eauto.
    exact (post_Done _ _ _ (render_wellBound fuel s) Hr).
  - eapply change_keysNumeric; eauto.
    exact (post_Done _ _ _ (render_wellBound fuel s) Hr).
Qed.

Lemma reachable_keysNumeric s :
  reachable formId Number s -> keysNumeric (formData s).
Proof.
  induction 1 as [|s s' Hs IH Hstep].
  - constructor.
  - eapply step_keysNumeric; eauto.
Qed.
End Reachable.

Definition emailBeforeSaving : string :=
  "Please enter your email before saving progress.".
Definition emailBeforeSearch : string := "Please enter an email to search.".

(** A form whose one question has the section [__proto__] and the
    subsection [contactEmail]: once it is fetched and the component has
    rendered, [Object.prototype] holds an array under [contactEmail]. *)
Definition question60 : Question :=
  mkQuestion 60 1 "__proto__" (Some "contactEmail") "text" "Your email" None
    None Null.
Definition fetched60 : State :=
  fst (fetchQuestions (ok [question60]) initialState).
Definition rendered60 : State := grouped fetched60.

(** C10, the claim as stated fails: in a state reached by the question
    query resolving and the component rendering, with no key
    [contactEmail] in the Answer State (it is empty), the email guards of
    saving and of resuming both pass: [formData.contactEmail] reads the
    array that the grouping of the fetched question has put on
    [Object.prototype].  Saving issues its upsert and resuming queries
    the organizations. *)
Lemma inherited_email_passes_the_guards :
  reachable 1 numberOfName rendered60 /\
  formData rendered60 = [] /\
  ObjectPrototype rendered60 = [("contactEmail", [question60])] /\
  handleSaveProgress 1 numberOfName quietWorld rendered60 =
    (rendered60,
     [Upsert "progress" [] progressConflict; Alert savedSuccessfully]) /\
  handleSearch quietWorld rendered60 =
    Some (rendered60,
          [Select "organizations" "id" "contactEmail" "[object Object]" true;
           ConsoleError "Error fetching progress:";
           Alert "Failed to retrieve saved progress."]).
Proof.
  split; [|repeat split].
  apply (@reachable_step 1 numberOfName fetched60 rendered60).
  - apply (@reachable_step 1 numberOfName initialState fetched60).
    + apply reachable_initial.
    + apply step_fetch.
  - apply step_render. discriminate.
Qed.

(** C10 (amended): in every state reached from the initial one by the
    question query resolving, the component rendering (with a grouping
    that is followed) and the user acting on rendered elements, each key
    of the Answer State is a stringified integer (the inputs are named by
    question identifier), so the Answer State has no key [contactEmail];
    therefore, as long as
    [Object.prototype] has no property [contactEmail] either, saving
    progress and resuming both stop at their email guard: they alert the
    email prompt, leave the state as it is and issue no remote call. *)
Theorem reachable_never_has_email (formId : Z) (Number : string -> jsval)
  (s : State) (w : World) :
  reachable formId Number s ->
  keysNumeric (formData s) /\
  get (formData s) "contactEmail" = None /\
  (get (ObjectPrototype s) "contactEmail" = None ->
   handleSaveProgress formId Number w s = (s, [Alert emailBeforeSaving]) /\
   handleSearch w s = Some (s, [Alert emailBeforeSearch])).
Proof.
  intros Hr. pose proof (reachable_keysNumeric formId Number s Hr) as Hk.
  pose proof (keysNumeric_no_contactEmail _ Hk) as Hget.
  repeat split; auto.
  - unfold handleSaveProgress. now rewrite get_answers, Hget, get_added, H.
  - unfold handleSearch. now rewrite get_answers, Hget, get_added, H.
Qed.

(** The state reached when the two questions of scenario A have been
    fetched and the user has typed [yes] into the input of question 10. *)
Definition fetchedA : State :=
  fst (fetchQuestions (ok [question10; question11]) initialState).
Definition answeredA : State :=
  mkState [question10; question11] [("10", JStr "yes")] false false
    [("Profile", false)] [].
Definition input10 : node :=
  Element "input"
    [TypeAttr "text"; Name "10"; Value (JStr ""); OnChange HandleChange] [].

Lemma answeredA_reachable : reachable 1 numberOfName answeredA.
Proof.
  apply (@reachable_step 1 numberOfName fetchedA answeredA).
  - apply (@reachable_step 1 numberOfName initialState fetchedA).
    + apply reachable_initial.
    + apply step_fetch.
  - apply (@step_change 1 numberOfName 2
             (match render 2 fetchedA with Done ui => ui | _ => Text "" end)
             input10 "yes" [] quietWorld fetchedA answeredA []).
    + vm_compute. reflexivity.
    + vm_compute. repeat (first [left; reflexivity | right]).
    + vm_compute. reflexivity.
Defined.

Lemma reachable_never_has_email_witness :
  keysNumeric (formData answeredA) /\
  get (formData answeredA) "contactEmail" = None /\
  handleSaveProgress 1 numberOfName quietWorld answeredA
    = (answeredA, [Alert emailBeforeSaving]) /\
  handleSearch quietWorld answeredA = Some (answeredA, [Alert emailBeforeSearch]).
Proof.
  destruct (reachable_never_has_email 1 numberOfName answeredA quietWorld
              answeredA_reachable) as [Hkeys [Hnone Hguards]].
  split; [exact Hkeys|]. split; [exact Hnone|]. apply Hguards. reflexivity.
Defined.

(** ** Which questions are rendered *)

(** Every question of the groups satisfies [R], with the names of its
    group. *)
Definition groupsAll (R : string -> string -> Question -> Prop) (acc : groups)
  : Prop :=
  forall sec subs, In (sec, subs) acc ->
  forall sub l, In (sub, l) subs ->
  forall q, In q l -> R sec sub q.

Lemma groupsAll_set R acc sec subs :
  groupsAll R acc ->
  (forall sub l, In (sub, l) subs -> forall q, In q l -> R sec sub q) ->
  groupsAll R (set acc sec subs).
Proof.
  intros Hacc Hsubs sec' subs' Hin. apply In_set in Hin.
  destruct Hin as [Hin|[= -> ->]]; [exact (Hacc sec' subs' Hin)|exact Hsubs].
Qed.

Lemma groupStep_all R prototype acc question prototype' acc' :
  groupsAll R acc ->
  R (sectionOf question) (subsectionOf question) question ->
  groupStep prototype acc question = (prototype', Done acc') ->
  groupsAll R acc'.
Proof.
  intros Hacc Hq. unfold groupStep.
  remember (sectionOf question) as sec0 eqn:Hsec0.
  remember (subsectionOf question) as sub0 eqn:Hsub0.
  assert (Hone : forall sub l, In (sub, l) [(sub0, [question])] ->
                 forall q, In q l -> R sec0 sub q).
  { intros sub l [[= <- <-]|[]] q [<-|[]]. exact Hq. }
  destruct (get acc sec0) as [subs|] eqn:Hsubs.
  - apply get_In in Hsubs. pose proof (Hacc _ _ Hsubs) as Hin.
    destruct (get subs sub0) as [l|] eqn:Hl.
    + apply get_In in Hl. intros [= _ <-]. apply groupsAll_set; [exact Hacc|].
      intros sub l' Hin'. apply In_set in Hin'.
      destruct Hin' as [Hin'|[= -> ->]]; [exact (Hin sub l' Hin')|].
      intros q Hql. apply in_app_or in Hql.
      destruct Hql as [Hql|[<-|[]]]; [exact (Hin _ _ Hl q Hql)|exact Hq].
    + destruct (onPrototype prototype sub0 question);
        intros [= _ <-]; [exact Hacc|].
      apply groupsAll_set; [exact Hacc|].
      intros sub l' Hin'. apply In_set in Hin'.
      destruct Hin' as [Hin'|[= -> ->]]; [exact (Hin sub l' Hin')|].
      intros q [<-|[]]. exact Hq.
  - destruct (String.eqb sec0 "__proto__").
    { destruct (onPrototype prototype sub0 question);
        [| |destruct (isRead sub0)]; intros [= _ <-]; exact Hacc. }
    destruct (get prototype sec0) as [rows|].
    { destruct (arrayHas (List.length rows) sub0); [discriminate|].
      destruct (String.eqb sub0 "__proto__"); [discriminate|].
      destruct (onPrototype prototype sub0 question);
        intros [= _ <-]; exact Hacc. }
    destruct (is_inherited sec0).
    { destruct (functionHas sec0 sub0); [discriminate|].
      destruct (onPrototype prototype sub0 question);
        intros [= _ <-]; exact Hacc. }
    destruct (onPrototype prototype sub0 question); intros [= _ <-].
    + apply groupsAll_set; [exact Hacc|]. intros sub l [].
    + apply groupsAll_set; [exact Hacc|exact Hone].
Qed.

Lemma reduce_all R qs : forall prototype acc prototype' acc',
  groupsAll R acc ->
  (forall q, In q qs -> R (sectionOf q) (subsectionOf q) q) ->
  reduce qs prototype acc = (prototype', Done acc') ->
  groupsAll R acc'.
Proof.
  induction qs as [|question qs IH]; intros prototype acc prototype' acc'
    Hacc Hqs; simpl.
  - now intros [= _ <-].
  - destruct (groupStep prototype acc question) as [p1 [acc1| | |]] eqn:Hstep;
      try discriminate.
    apply IH; [|intros q Hq; apply Hqs; now right].
    eapply groupStep_all; [exact Hacc| |exact Hstep].
    apply Hqs. now left.
Qed.

(** The groups hold fetched questions only, each under its own names. *)
Definition groupsWithin (qs : list Question) (acc : groups) : Prop :=
  groupsAll (fun sec sub q =>
               In q qs /\ sectionOf q = sec /\ subsectionOf q = sub) acc.

Lemma groupedQuestions_within prototype (qs : list Question) sections :
  snd (groupedQuestions prototype qs) = Done sections ->
  groupsWithin qs sections.
Proof.
  unfold groupedQuestions. intros H.
  destruct (noReadNameAdded prototype); [|discriminate].
  destruct (reduce qs prototype []) as [p1 r] eqn:E. simpl in H. subst r.
  eapply reduce_all; [|intros q Hq|exact E].
  - intros sec subs [].
  - auto.
Qed.

(** A question whose parent identifier is the identifier of a fetched
    question. *)
Definition linked (qs : list Question) (q : Question) : Prop :=
  exists p, In p qs /\ parent_question_id q = Some (id p).

Definition renderedAll (R : Question -> Prop) (n : node) : Prop :=
  Forall R (rendered n).

Lemma renderedAll_Element R tag attrs children :
  Forall (renderedAll R) children -> renderedAll R (Element tag attrs children).
Proof. intros H. unfold renderedAll. simpl. now apply Forall_flat_map. Qed.

Lemma renderedAll_Text R s : renderedAll R (Text s).
Proof. constructor. Qed.

Lemma renderedAll_Markup (R : Question -> Prop) q n :
  R q -> renderedAll R n -> renderedAll R (Markup q n).
Proof. intros Hq Hn. unfold renderedAll. simpl. now constructor. Qed.

Lemma renderedAll_weaken (R R' : Question -> Prop) n :
  (forall q, R q -> R' q) -> renderedAll R n -> renderedAll R' n.
Proof. intros H. apply Forall_impl. exact H. Qed.

Definition renderedOption (R : Question -> Prop) (r : option node) : Prop :=
  match r with Some n => renderedAll R n | None => True end.

Lemma some_nodes_rendered R (r : option node) :
  renderedOption R r -> Forall (renderedAll R) (some_nodes r).
Proof. destruct r; simpl; auto. Qed.

Ltac rendered_all :=
  repeat first
    [ apply renderedAll_Text
    | apply renderedAll_Markup
    | apply renderedAll_Element
    | apply Forall_nil
    | apply Forall_cons
    | apply Forall_app; split
    | apply Forall_map_intro; intros
    | assumption
    | solve [auto] ].

Lemma child_of_rendered R (v : jsval) :
  post (Forall (renderedAll R)) (child_of v).
Proof.
  revert v. fix IH 1. intros [| | | |l| |]; simpl; rendered_all.
  induction l as [|x l IHl]; simpl; [constructor|].
  apply (post_bind (Forall (renderedAll R))); [apply IH|].
  intros a Ha.
  apply (post_bind (Forall (renderedAll R))); [exact IHl|].
  intros b Hb. simpl. apply Forall_app. auto.
Qed.

(** What [renderQuestion] renders for a fetched question is that question
    and, below it, questions linked to a fetched parent. *)
Lemma renderQuestion_rendered (qs : list Question) (fd : object) :
  forall (fuel : nat) (question : Question),
  In question qs ->
  post (renderedOption (fun q => q = question \/ linked qs q))
    (renderQuestion fuel qs fd question).
Proof.
  induction fuel as [|fuel IH]; intros question Hin; [exact I|].
  cbn [renderQuestion].
  repeat match goal with
         | |- post _ (if ?b then _ else _) => destruct b
         end;
    try exact I; try (simpl; rendered_all; fail).
  - (* radio *)
    apply (post_bind
             (Forall (renderedAll (fun q => q = question \/ linked qs q)))).
    + apply post_sequence_map. intros sub Hsub.
      apply filter_In in Hsub. destruct Hsub as [Hsubin Hcond].
      apply andb_true_iff in Hcond. destruct Hcond as [Hparent _].
      assert (Hlinked : linked qs sub).
      { exists question. split; [exact Hin|].
        destruct (parent_question_id sub) as [p|]; [|discriminate].
        apply Z.eqb_eq in Hparent. now subst p. }
      apply (post_bind (renderedOption (fun q => q = sub \/ linked qs q)));
        [now apply IH|].
      intros r Hr. simpl. rendered_all. apply some_nodes_rendered.
      destruct r as [n|]; simpl in *; auto.
      eapply renderedAll_weaken; [|exact Hr].
      intros q [->|Hq]; auto.
    + intros subs Hsubs. simpl. rendered_all.
  - (* checkbox *)
    apply (post_bind
             (Forall (renderedAll (fun q => q = question \/ linked qs q)))).
    + apply post_sequence_map. intros o _.
      apply (post_bind (fun _ => True)).
      * destruct (includes _ _); simpl; auto.
      * intros c _. simpl. rendered_all.
    + intros boxes Hboxes. simpl. rendered_all.
  - (* file *)
    apply (post_bind
             (Forall (renderedAll (fun q => q = question \/ linked qs q)))).
    + destruct (answerOf fd (id question)) as [v|]; [|simpl; constructor].
      destruct (truthy v); [|apply child_of_rendered].
      eapply post_bind; [apply (child_of_rendered
                                  (fun q => q = question \/ linked qs q))|].
      intros c Hc. simpl. rendered_all.
    + intros uploaded Hu. simpl. rendered_all.
  - (* file-photo *)
    simpl. rendered_all.
    destruct (answerOf fd (id question)) as [v|]; [|rendered_all].
    destruct (truthy v); [|rendered_all].
    destruct v; rendered_all.
Qed.

(** A rendered question is a top-level one (no parent identifier, or 0) or
    is linked to a fetched parent. *)
Definition placed (qs : list Question) (q : Question) : Prop :=
  no_parent q = true \/ linked qs q.

Lemma renderQuestion_placed (qs : list Question) (fd : object) fuel question :
  In question qs -> no_parent question = true ->
  post (renderedOption (placed qs)) (renderQuestion fuel qs fd question).
Proof.
  intros Hin Htop.
  eapply post_weaken; [|apply renderQuestion_rendered; exact Hin].
  intros [n|]; simpl; auto. apply renderedAll_weaken.
  intros q [->|Hq]; [now left|now right].
Qed.

Lemma flat_map_some_nodes_rendered R (rs : list (option node)) :
  Forall (renderedOption R) rs -> Forall (renderedAll R) (flat_map some_nodes rs).
Proof.
  intros H. apply Forall_flat_map.
  eapply Forall_impl; [|exact H]. intros r. apply some_nodes_rendered.
Qed.

Lemma renderSubsection_rendered fuel s section entry :
  (forall q, In q (snd entry) -> In q (questions s)) ->
  post (Forall (renderedAll (placed (questions s))))
    (renderSubsection fuel s section entry).
Proof.
  intros Hentry. unfold renderSubsection.
  destruct (String.eqb (fst entry) "No Subsection").
  - apply post_sequence_map. intros q Hq. apply filter_In in Hq.
    destruct Hq as [Hq Htop].
    apply (post_bind (renderedOption (placed (questions s))));
      [apply renderQuestion_placed; auto|].
    intros r Hr. simpl. rendered_all. now apply some_nodes_rendered.
  - apply (post_bind (Forall (renderedAll (placed (questions s))))).
    + destruct (collapsed _ _); [simpl; constructor|].
      apply (post_bind (Forall (renderedOption (placed (questions s))))).
      * apply post_sequence_map. intros q Hq. apply filter_In in Hq.
        destruct Hq as [Hq Htop]. apply renderQuestion_placed; auto.
      * intros rs Hrs. simpl. now apply flat_map_some_nodes_rendered.
    + intros body Hbody. simpl. unfold toggleButton. rendered_all.
Qed.

Lemma renderSection_rendered fuel s entry :
  (forall sub l, In (sub, l) (snd entry) ->
   forall q, In q l -> In q (questions s)) ->
  post (renderedAll (placed (questions s))) (renderSection fuel s entry).
Proof.
  intros Hentry. unfold renderSection.
  apply (post_bind (Forall (renderedAll (placed (questions s))))).
  - destruct (collapsed _ _); [simpl; constructor|].
    apply (post_bind (Forall (Forall (renderedAll (placed (questions s)))))).
    + apply post_sequence_map. intros [sub l] He.
      apply renderSubsection_rendered. apply In_entries in He.
      exact (Hentry sub l He).
    + intros parts Hparts. simpl. now apply Forall_concat.
  - intros body Hbody. simpl. unfold toggleButton. rendered_all.
Qed.

Lemma markup_rendered fuel s sections :
  groupsWithin (questions s) sections ->
  post (renderedAll (placed (questions s))) (markup fuel s sections).
Proof.
  intros Hg. unfold markup.
  apply (post_bind (renderedAll (placed (questions s)))).
  - destruct (submitted s); [simpl; rendered_all|].
    apply (post_bind (Forall (renderedAll (placed (questions s))))).
    + destruct (loading s); [simpl; rendered_all|].
      apply post_sequence_map. intros [sec subs] He.
      apply renderSection_rendered. apply In_entries in He.
      intros sub l Hl q Hq. exact (proj1 (Hg sec subs He sub l Hl q Hq)).
    + intros content Hc. simpl. unfold submitButton. rendered_all.
  - intros main Hm. simpl. unfold banner. rendered_all.
Qed.

Lemma render_rendered fuel s :
  post (renderedAll (placed (questions s))) (render fuel s).
Proof.
  apply post_render. intros sections Hs.
  apply (markup_rendered fuel (grouped s) sections).
  exact (groupedQuestions_within _ _ _ Hs).
Qed.

(** A form whose only question names the parent 0, which no fetched
    question has as its identifier. *)
Definition orphanOfZero : State :=
  mkState [question5] [] false false [] [].

(** C3, the claim as stated fails: the parent identifier 0 of question 5
    refers to no fetched question, and question 5 is rendered (as a
    top-level question), with an empty Answer State. *)
Lemma orphan_of_zero_rendered :
  parent_question_id question5 = Some 0 /\
  existsb (fun r => id r =? 0) (questions orphanOfZero) = false /\
  exists ui, render 1 orphanOfZero = Done ui /\ In question5 (rendered ui).
Proof.
  split; [reflexivity|]. split; [reflexivity|].
  eexists. split; [vm_compute; reflexivity|]. simpl. now left.
Qed.

(** C3 (amended): a question whose parent identifier is not 0 and is the
    identifier of no fetched question is never rendered, whatever the
    Answer State holds (be it from user input or from a resume), the
    collapse flags and the depth rendering is given. *)
Theorem orphan_never_rendered (fuel : nat) (s : State) (ui : node)
  (q : Question) (p : Z) :
  parent_question_id q = Some p ->
  p <> 0 ->
  (forall r, In r (questions s) -> id r <> p) ->
  render fuel s = Done ui ->
  ~ In q (rendered ui).
Proof.
  intros Hp Hz Horphan Hr Hin.
  pose proof (post_Done _ _ _ (render_rendered fuel s) Hr) as Hall.
  unfold renderedAll in Hall. rewrite Forall_forall in Hall.
  destruct (Hall q Hin) as [Htop|[r [Hrin Hlink]]].
  - unfold no_parent in Htop. rewrite Hp in Htop.
    apply Z.eqb_eq in Htop. contradiction.
  - rewrite Hp in Hlink. injection Hlink as ->.
    exact (Horphan r Hrin eq_refl).
Qed.

(** Question 31 names the parent 30, which is not fetched; the Answer
    State holds, as after a resume, the value 30 would need. *)
Definition question31 : Question :=
  mkQuestion 31 1 "Profile" None "text" "Since when?" None (Some 30) (Has "yes").
Definition orphanResumed : State :=
  mkState [question10; question31] [("10", JStr "no"); ("30", JStr "yes")]
    false false [] [].
Definition orphanResumed_ui : node :=
  Eval vm_compute in
    match render 3 orphanResumed with Done ui => ui | _ => Text "" end.

Lemma orphan_never_rendered_witness :
  shouldDisplay (answers orphanResumed) question31 = true /\
  render 3 orphanResumed = Done orphanResumed_ui /\
  rendered orphanResumed_ui = [question10] /\
  ~ In question31 (rendered orphanResumed_ui).
Proof.
  split; [reflexivity|]. split; [vm_compute; reflexivity|].
  split; [reflexivity|].
  apply (orphan_never_rendered 3 orphanResumed orphanResumed_ui question31 30).
  - reflexivity.
  - discriminate.
  - simpl. intros r [<-|[<-|[]]]; discriminate.
  - vm_compute. reflexivity.
Defined.

(** ** Further properties of the handlers *)

(** X1: toggling a group flips the flag of that key, leaves the flag of
    every other key as it was, and touches nothing else of the state. *)
Theorem toggleCollapse_isolated (key : string) (s : State) :
  collapsed (ObjectPrototype s) (collapsedSections (toggleCollapse key s)) key
    = negb (collapsed (ObjectPrototype s) (collapsedSections s) key) /\
  (forall other, other <> key ->
     get (collapsedSections (toggleCollapse key s)) other
       = get (collapsedSections s) other) /\
  questions (toggleCollapse key s) = questions s /\
  formData (toggleCollapse key s) = formData s /\
  loading (toggleCollapse key s) = loading s /\
  submitted (toggleCollapse key s) = submitted s /\
  ObjectPrototype (toggleCollapse key s) = ObjectPrototype s.
Proof.
  unfold toggleCollapse. simpl. repeat split.
  - unfold collapsed at 1. now rewrite get_set_same.
  - intros other Hne. now apply get_set_other.
Qed.

(** X2: a question of type file for which the Answer State holds no file
    uploads nothing and throws nothing: its record carries what the
    Answer State holds for it when that is truthy (the path a resume has
    put there, say), and the empty string when nothing is held or what
    is held is falsy. *)
Theorem prepare_file_not_selected (w : World) (fd : object) (n : nat)
  (q : Question) :
  type q = "file" ->
  instanceof_File (answerOf fd (id q)) = None ->
  prepare w fd n [q] = ([], [inr (responseRecord q (rawAnswer fd q))]) /\
  (truthy_opt (answerOf fd (id q)) = false -> rawAnswer fd q = JStr "") /\
  (forall v, answerOf fd (id q) = Some v -> truthy v = true ->
   rawAnswer fd q = v).
Proof.
  intros Ht Ha. split; [|split].
  - simpl. unfold fileToUpload. rewrite Ht, Ha. reflexivity.
  - unfold rawAnswer, truthy_opt.
    destruct (answerOf fd (id q)) as [v|]; [|reflexivity]. now intros ->.
  - intros v Hv Hv'. unfold rawAnswer. now rewrite Hv, Hv'.
Qed.

(** The question of type file 20, when nothing was selected, and when a
    resume has put a path there. *)
Lemma prepare_file_not_selected_witness :
  prepare quietWorld [] 0 [question20]
    = ([], [inr (responseRecord question20 (JStr ""))]) /\
  prepare quietWorld [("20", JStr "files/cv.pdf")] 0 [question20]
    = ([], [inr (responseRecord question20 (JStr "files/cv.pdf"))]).
Proof.
  destruct (prepare_file_not_selected quietWorld [] 0 question20
              eq_refl eq_refl) as [H1 [H2 _]].
  destruct (prepare_file_not_selected quietWorld [("20", JStr "files/cv.pdf")]
              0 question20 eq_refl eq_refl) as [H3 [_ H4]].
  split.
  - rewrite H1. now rewrite (H2 eq_refl).
  - rewrite H3. now rewrite (H4 (JStr "files/cv.pdf") eq_refl eq_refl).
Defined.

(** X3: unless [formData.contactEmail] is truthy, be it an entry of the
    Answer State or, when there is none, a property inherited from
    [Object.prototype], saving progress alerts the email prompt and
    stops: the state is unchanged and no write is issued. *)
Theorem handleSaveProgress_without_email (formId : Z)
  (Number : string -> jsval) (w : World) (s : State) :
  truthy_opt (get (answers s) "contactEmail") = false ->
  handleSaveProgress formId Number w s = (s, [Alert emailBeforeSaving]).
Proof.
  unfold handleSaveProgress, truthy_opt.
  destruct (get (answers s) "contactEmail") as [email|]; auto.
  now intros ->.
Qed.

Definition emptyEmail : State :=
  mkState [question10] [("contactEmail", JStr ""); ("10", JStr "yes")]
    false false [] [].

Lemma handleSaveProgress_without_email_witness :
  handleSaveProgress 1 numberOfName quietWorld emptyEmail
    = (emptyEmail, [Alert emailBeforeSaving]).
Proof.
  apply (handleSaveProgress_without_email 1 numberOfName quietWorld emptyEmail).
  reflexivity.
Defined.

(** The type tags [renderQuestion] has a case for. *)
Definition knownTypes : list string :=
  ["text"; "radio"; "select"; "checkbox"; "file"; "textarea"; "file-photo"].

(** X4: a question with an unknown type tag renders nothing, and
    rendering it does not throw. *)
Theorem renderQuestion_unknown_type (fuel : nat) (qs : list Question)
  (fd : object) (q : Question) :
  existsb (String.eqb (type q)) knownTypes = false ->
  renderQuestion (S fuel) qs fd q = Done None.
Proof.
  intros H. simpl in H.
  repeat (apply orb_false_elim in H; destruct H as [?H H]).
  cbn [renderQuestion].
  destruct (negb (shouldDisplay fd q)); [reflexivity|].
  repeat match goal with
         | E : String.eqb (type q) _ = false |- _ => rewrite E; clear E
         end.
  reflexivity.
Qed.

Definition question40 : Question :=
  mkQuestion 40 1 "Profile" None "date" "When?" None None Null.

Lemma renderQuestion_unknown_type_witness :
  renderQuestion 1 [question40] [] question40 = Done None.
Proof.
  apply (renderQuestion_unknown_type 0 [question40] [] question40).
  reflexivity.
Defined.

(** ** Rendering returns *)

(** The computation returns or throws: the depth it was given suffices,
    and it is followed to its end. *)
Definition settles {A} (m : outcome A) : Prop :=
  match m with Done _ | Throw _ => True | _ => False end.

Lemma settles_bind {A B} (m : outcome A) (f : A -> outcome B) :
  settles m -> (forall a, settles (f a)) -> settles (bind m f).
Proof. destruct m; simpl; auto. Qed.

Lemma settles_sequence {A} (l : list (outcome A)) :
  Forall settles l -> settles (sequence l).
Proof.
  induction 1 as [|m l Hm Hl IH]; simpl; auto.
  destruct m; simpl in *; auto. destruct (sequence l); simpl in *; auto.
Qed.

Lemma settles_sequence_map {A B} (f : A -> outcome B) (l : list A) :
  (forall x, In x l -> settles (f x)) -> settles (sequence (map f l)).
Proof.
  intros H. apply settles_sequence. apply Forall_forall.
  intros m Hm. apply in_map_iff in Hm. destruct Hm as [x [<- Hx]]. auto.
Qed.

Lemma child_of_settles (v : jsval) : settles (child_of v).
Proof.
  revert v. fix IH 1. intros [| | | |l| |]; simpl; auto.
  induction l as [|x l IHl]; simpl; auto.
  apply settles_bind; [apply IH|]. intros a.
  apply settles_bind; [exact IHl|]. intros b. exact I.
Qed.

(** Every question is fetched with an identifier above its parent's. *)
Definition parentsFirst (qs : list Question) : Prop :=
  forall q, In q qs -> forall p, parent_question_id q = Some p -> p < id q.

(** The fetched questions whose identifier is above [i]. *)
Definition above (qs : list Question) (i : Z) : nat :=
  List.length (filter (fun r => i <? id r) qs).

Lemma above_cons (r : Question) (qs : list Question) (i : Z) :
  above (r :: qs) i = ((if (i <? id r)%Z then 1 else 0) + above qs i)%nat.
Proof. unfold above. simpl. now destruct (i <? id r). Qed.

Lemma above_monotone (qs : list Question) (i j : Z) :
  i <= j -> (above qs j <= above qs i)%nat.
Proof.
  intros Hij. induction qs as [|r qs IH]; [auto|].
  rewrite !above_cons.
  destruct (Z.ltb_spec j (id r)); destruct (Z.ltb_spec i (id r)); lia.
Qed.

Lemma above_decreases (qs : list Question) (i : Z) (sub : Question) :
  In sub qs -> i < id sub -> (above qs (id sub) < above qs i)%nat.
Proof.
  intros Hin Hlt. induction qs as [|r qs IH]; [contradiction|].
  rewrite !above_cons. destruct Hin as [->|Hin].
  - rewrite Z.ltb_irrefl. apply Z.ltb_lt in Hlt. rewrite Hlt.
    pose proof (above_monotone qs i (id sub)). lia.
  - specialize (IH Hin).
    destruct (Z.ltb_spec (id sub) (id r)); destruct (Z.ltb_spec i (id r)); lia.
Qed.

Lemma renderQuestion_settles (qs : list Question) (fd : object) :
  parentsFirst qs ->
  forall (fuel : nat) (question : Question),
  (above qs (id question) < fuel)%nat ->
  settles (renderQuestion fuel qs fd question).
Proof.
  intros Hpf. induction fuel as [|fuel IH]; intros question Hfuel;
    [inversion Hfuel|].
  cbn [renderQuestion].
  repeat match goal with
         | |- settles (if ?b then _ else _) => destruct b
         end;
    try exact I.
  - (* radio *)
    apply settles_bind; [|intros; exact I].
    apply settles_sequence_map. intros sub Hsub.
    apply filter_In in Hsub. destruct Hsub as [Hin Hcond].
    apply andb_true_iff in Hcond. destruct Hcond as [Hparent _].
    destruct (parent_question_id sub) as [p|] eqn:Hp; [|discriminate].
    apply Z.eqb_eq in Hparent. subst p.
    pose proof (Hpf sub Hin _ Hp) as Hlt.
    pose proof (above_decreases qs (id question) sub Hin Hlt) as Hdec.
    apply settles_bind; [apply IH; lia|]. intros r. exact I.
  - (* checkbox *)
    apply settles_bind; [|intros; exact I].
    apply settles_sequence_map. intros o _.
    apply settles_bind; [|intros; exact I].
    destruct (answerOf fd (id question)) as [[]|]; exact I.
  - (* file *)
    apply settles_bind; [|intros; exact I].
    destruct (answerOf fd (id question)) as [v|]; [|exact I].
    destruct (truthy v); [|apply child_of_settles].
    apply settles_bind; [apply child_of_settles|]. intros c. exact I.
Qed.

Lemma above_le_length qs i : (above qs i <= List.length qs)%nat.
Proof. unfold above. apply filter_length_le. Qed.

(** The grouping has no depth to exhaust. *)
Definition inDepth {A} (m : outcome A) : Prop :=
  match m with OutOfFuel => False | _ => True end.

Lemma groupStep_inDepth prototype acc question :
  inDepth (snd (groupStep prototype acc question)).
Proof.
  unfold groupStep.
  repeat match goal with
         | |- context [match ?x with _ => _ end] => destruct x
         end; exact I.
Qed.

Lemma reduce_inDepth qs : forall prototype acc,
  inDepth (snd (reduce qs prototype acc)).
Proof.
  induction qs as [|question qs IH]; intros prototype acc; simpl; [exact I|].
  pose proof (groupStep_inDepth prototype acc question) as H.
  destruct (groupStep prototype acc question) as [p1 [acc1| | |]]; simpl in *;
    auto.
Qed.

Lemma groupedQuestions_inDepth prototype qs :
  inDepth (snd (groupedQuestions prototype qs)).
Proof.
  unfold groupedQuestions.
  destruct (noReadNameAdded prototype); [apply reduce_inDepth|exact I].
Qed.

(** X5: when every question carries an identifier above its parent's,
    rendering with a depth above the number of questions returns or
    throws, wherever the grouping is followed; it does not run out of
    depth. *)
Theorem render_settles (s : State) :
  parentsFirst (questions s) ->
  snd (groupedQuestions (ObjectPrototype s) (questions s)) <> NotFollowed ->
  settles (render (S (List.length (questions s))) s).
Proof.
  intros Hpf Hfollowed.
  assert (Hq : forall q,
             settles (renderQuestion (S (List.length (questions s)))
                        (questions s) (answers (grouped s)) q)).
  { intros q. apply renderQuestion_settles; auto.
    pose proof (above_le_length (questions s) (id q)). lia. }
  unfold render.
  pose proof (groupedQuestions_inDepth (ObjectPrototype s) (questions s)) as Hd.
  destruct (snd (groupedQuestions (ObjectPrototype s) (questions s)))
    as [sections| | |]; simpl; [|exact I|exact Hd|congruence].
  unfold markup.
  apply settles_bind; [|intros; exact I].
  destruct (submitted (grouped s)); [exact I|].
  apply settles_bind; [|intros; exact I].
  destruct (loading (grouped s)); [exact I|].
  apply settles_sequence_map. intros e _. unfold renderSection.
  apply settles_bind; [|intros; exact I].
  destruct (collapsed _ _ _); [exact I|].
  apply settles_bind; [|intros; exact I].
  apply settles_sequence_map. intros e' _. unfold renderSubsection.
  destruct (String.eqb (fst e') "No Subsection").
  - apply settles_sequence_map. intros q _.
    apply settles_bind; [apply Hq|]. intros; exact I.
  - apply settles_bind; [|intros; exact I].
    destruct (collapsed _ _ _); [exact I|].
    apply settles_bind; [|intros; exact I].
    apply settles_sequence_map. intros q _. apply Hq.
Qed.

Lemma render_settles_witness : settles (render 3 scenarioA).
Proof.
  apply (render_settles scenarioA).
  - intros q [<-|[<-|[]]] p Hp; simpl in Hp; [discriminate|].
    injection Hp as <-. reflexivity.
  - discriminate.
Defined.

(** ** Resuming merges *)

Lemma get_spread_other {A} (a b : obj A) (k : string) :
  ~ In k (keys b) -> get (spread a b) k = get a k.
Proof.
  intros Hk. unfold spread.
  assert (H : forall (l acc : obj A),
             (forall kv, In kv l -> fst kv <> k) ->
             get (fold_left (fun acc kv => set acc (fst kv) (snd kv)) l acc) k
             = get acc k).
  { induction l as [|kv l IH]; intros acc Hl; simpl; auto.
    rewrite IH by (intros kv' Hkv'; apply Hl; now right).
    apply get_set_other. intros ->. apply (Hl kv); [now left|reflexivity]. }
  apply H. intros kv Hkv Heq. apply In_entries in Hkv.
  apply Hk. unfold keys. apply in_map_iff. exists kv. auto.
Qed.

(** What a resume comes to when the organization is found and its stored
    answers decode. *)
Lemma handleSearch_success (w : World) (s : State) (email : string)
  (org : OrganizationRow) (row : ResponseRow) (rows : list ResponseRow)
  (savedData : object) (logs : list effect) :
  get (formData s) "contactEmail" = Some (JStr email) ->
  email <> "" ->
  data (select_organizations w email) = Some [org] ->
  error (select_organizations w email) = None ->
  data (select_responses w (organization_id org)) = Some (row :: rows) ->
  error (select_responses w (organization_id org)) = None ->
  populate (row :: rows) [] = (logs, Reads savedData) ->
  handleSearch w s =
    Some (mkState (questions s) (spread (formData s) savedData) false
            (submitted s) (collapsedSections s) (ObjectPrototype s),
          Select "organizations" "id" "contactEmail" email true
          :: Select "responses" "question_id, answer" "organization_id"
               (NumberToString (organization_id org)) false
          :: logs).
Proof.
  intros Hget Hne Hod Hoe Hrd Hre Hpop.
  unfold handleSearch. rewrite (get_answers_own _ _ _ Hget). simpl truthy.
  apply String.eqb_neq in Hne. rewrite Hne. simpl negb. cbv iota.
  simpl ToString. unfold single. rewrite Hoe, Hod. simpl error. simpl data.
  cbv iota. rewrite Hre, Hrd. cbv iota.
  simpl formData. rewrite Hpop. reflexivity.
Qed.

(** X6: when the organization is found and its stored answers decode,
    resuming sets the Answer State to the current one overlaid with the
    decoded answers: an entry whose key is not among the decoded ones
    keeps its value, and the other fields of the state end as they were,
    with the loading flag false. *)
Theorem handleSearch_merges (w : World) (s : State) (email : string)
  (org : OrganizationRow) (row : ResponseRow) (rows : list ResponseRow)
  (savedData : object) (logs : list effect) :
  get (formData s) "contactEmail" = Some (JStr email) ->
  email <> "" ->
  data (select_organizations w email) = Some [org] ->
  error (select_organizations w email) = None ->
  data (select_responses w (organization_id org)) = Some (row :: rows) ->
  error (select_responses w (organization_id org)) = None ->
  populate (row :: rows) [] = (logs, Reads savedData) ->
  option_map fst (handleSearch w s) =
    Some (mkState (questions s) (spread (formData s) savedData) false
            (submitted s) (collapsedSections s) (ObjectPrototype s)) /\
  forall k, ~ In k (keys savedData) ->
    get (spread (formData s) savedData) k = get (formData s) k.
Proof.
  intros Hget Hne Hod Hoe Hrd Hre Hpop. split.
  - now rewrite (handleSearch_success w s email org row rows savedData logs
                   Hget Hne Hod Hoe Hrd Hre Hpop).
  - intros k Hk. now apply get_spread_other.
Qed.

(** A store holding one organization and two of its answers. *)
Definition storedAnswers : World :=
  mkWorld [mkOrganization 7 "hr@example.org"]
    [mkResponse (Some 7) 11 (Some "x");
     mkResponse (Some 7) 12 (Some (JSON.stringify (JArr [JStr "a"; JStr "b"])))]
    None None (fun _ p _ => ok (mkUpload p)) (fun _ => None) (fun _ => None).
Definition knownEmail : State :=
  mkState [question10; question11]
    [("contactEmail", JStr "hr@example.org"); ("10", JStr "yes");
     ("11", JStr "y")]
    false false [] [].

Lemma handleSearch_merges_witness :
  option_map fst (handleSearch storedAnswers knownEmail) =
    Some (mkState [question10; question11]
            [("contactEmail", JStr "hr@example.org"); ("10", JStr "yes");
             ("11", JStr "x"); ("12", JArr [JStr "a"; JStr "b"])]
            false false [] []) /\
  forall k, ~ In k ["11"; "12"] ->
    get [("contactEmail", JStr "hr@example.org"); ("10", JStr "yes");
         ("11", JStr "x"); ("12", JArr [JStr "a"; JStr "b"])] k
    = get (formData knownEmail) k.
Proof.
  apply (handleSearch_merges storedAnswers knownEmail "hr@example.org"
           (mkOrganization 7 "hr@example.org")
           (mkResponse (Some 7) 11 (Some "x"))
           [mkResponse (Some 7) 12
              (Some (JSON.stringify (JArr [JStr "a"; JStr "b"])))]
           [("11", JStr "x"); ("12", JArr [JStr "a"; JStr "b"])]
           [ConsoleLog "Raw responses from Supabase:";
            ConsoleLog "Saved Data before setting formData:";
            ConsoleLog "Raw responses from Supabase:";
            ConsoleLog "Saved Data before setting formData:"]);
    try reflexivity.
  discriminate.
Defined.

(* ================================================================== *)
(** * More of the component *)
(* ================================================================== *)

(** ** Keys of the Answer State *)

Lemma to_int_proper (z : Z) :
  Z.to_int z <> Decimal.Pos Decimal.Nil /\ Z.to_int z <> Decimal.Neg Decimal.Nil.
Proof.
  destruct z as [|p|p]; simpl; split; try discriminate;
    intros [= H]; exact (Unsigned.to_uint_nonnil p H).
Qed.

(** Two identifiers have the same decimal form only if they are equal, so
    two questions never share a key of the Answer State. *)
Lemma NumberToString_inj (a b : Z) :
  NumberToString a = NumberToString b -> a = b.
Proof.
  unfold NumberToString. intros H.
  destruct (to_int_proper a) as [Ha1 Ha2].
  destruct (to_int_proper b) as [Hb1 Hb2].
  pose proof (NilZero.isi (Z.to_int a) Ha1 Ha2) as Ia.
  pose proof (NilZero.isi (Z.to_int b) Hb1 Hb2) as Ib.
  rewrite H in Ia. rewrite Ia in Ib. injection Ib as Hab.
  rewrite <- (DecimalZ.of_to a), <- (DecimalZ.of_to b). now rewrite Hab.
Qed.

Lemma answerOf_set_same fd i v : answerOf (set fd (NumberToString i) v) i = Some v.
Proof. unfold answerOf. apply get_set_same. Qed.

Lemma answerOf_set_other fd i j v :
  j <> i -> answerOf (set fd (NumberToString i) v) j = answerOf fd j.
Proof.
  intros Hne. unfold answerOf. apply get_set_other.
  intros H. apply Hne. now apply NumberToString_inj.
Qed.

(** The change event of an input, a select or a textarea that is not a
    checkbox, named by the question [i]. *)
Definition typedInto (i : Z) (ty value : string) (isInput : bool) : Target :=
  mkTarget isInput (NumberToString i) value ty false [].

(** X7: typing or choosing a value in the control of question [i] stores
    that string as the answer of [i], whatever was there, and leaves the
    answer of every other question, the questions, the flags and the
    collapse state as they were. *)
Theorem handleChange_binds (s : State) (i : Z) (ty value : string)
  (isInput : bool) :
  ty <> "checkbox" ->
  answerOf (formData (handleChange (typedInto i ty value isInput) s)) i
    = Some (JStr value) /\
  (forall j, j <> i ->
     answerOf (formData (handleChange (typedInto i ty value isInput) s)) j
     = answerOf (formData s) j) /\
  setFormData (formData s) (handleChange (typedInto i ty value isInput) s) = s.
Proof.
  intros Hty. unfold handleChange, typedInto. simpl.
  apply String.eqb_neq in Hty. rewrite Hty, andb_false_r. simpl.
  repeat split.
  - apply answerOf_set_same.
  - intros j Hj. now apply answerOf_set_other.
  - now destruct s.
Qed.

Lemma handleChange_binds_witness :
  answerOf (formData (handleChange (typedInto 10 "text" "yes" true) scenarioA)) 10
    = Some (JStr "yes") /\
  (forall j, j <> 10 ->
     answerOf (formData (handleChange (typedInto 10 "text" "yes" true) scenarioA)) j
     = answerOf (formData scenarioA) j) /\
  setFormData (formData scenarioA)
    (handleChange (typedInto 10 "text" "yes" true) scenarioA) = scenarioA.
Proof.
  apply (handleChange_binds scenarioA 10 "text" "yes" true). discriminate.
Defined.

(** ** File selection *)



(** ** Multi-choice answers, continued *)

Definition boxChanged (value : string) (checked : bool) : Target :=
  mkTarget true "" value "checkbox" checked [].

(** The stored values a checkbox change cannot work on. *)
Definition notAList (v : jsval) : bool :=
  match v with
  | JFile _ | JObj _ => true
  | JBool b => b
  | JNum z => negb (z =? 0)
  | _ => false
  end.

(** X9: when the Answer State reads for the question a file handle, an
    object, [true] or a number other than 0, a checkbox change throws,
    checked or not; when it holds a string that is not empty, unchecking
    throws and checking replaces the string by the list of its characters
    followed by the value. *)
Theorem handleCheckboxChange_on_other_values (s : State) (questionId : Z)
  (v : jsval) (value : string) (checked : bool) :
  answerOf (answers s) questionId = Some v ->
  (notAList v = true ->
   handleCheckboxChange (boxChanged value checked) questionId s = None) /\
  (forall text, v = JStr text -> text <> "" ->
   handleCheckboxChange (boxChanged value false) questionId s = None /\
   option_map (fun s' => answerOf (formData s') questionId)
     (handleCheckboxChange (boxChanged value true) questionId s)
   = Some (Some (JArr (chars text ++ [JStr value])))).
Proof.
  intros Hv. unfold handleCheckboxChange, currentValues. rewrite Hv. split.
  - intros Hn. destruct v as [| b |z| | | |]; simpl in Hn; try discriminate;
      simpl; try rewrite Hn; destruct checked; reflexivity.
  - intros text -> Hne. apply String.eqb_neq in Hne. simpl. rewrite Hne.
    simpl. split; [reflexivity|]. now rewrite answerOf_set_same.
Qed.

Definition fileStored : State :=
  mkState [] [("12", JFile (mkFile "cv.pdf" "a"))] false false [] [].

Lemma handleCheckboxChange_on_other_values_witness :
  (notAList (JFile (mkFile "cv.pdf" "a")) = true ->
   handleCheckboxChange (boxChanged "a" true) 12 fileStored = None) /\
  (forall text, JFile (mkFile "cv.pdf" "a") = JStr text -> text <> "" ->
   handleCheckboxChange (boxChanged "a" false) 12 fileStored = None /\
   option_map (fun s' => answerOf (formData s') 12)
     (handleCheckboxChange (boxChanged "a" true) 12 fileStored)
   = Some (Some (JArr (chars text ++ [JStr "a"])))).
Proof.
  apply (handleCheckboxChange_on_other_values fileStored 12
           (JFile (mkFile "cv.pdf" "a")) "a" true).
  reflexivity.
Defined.

Lemma filter_differs_snoc value l :
  filter (differs value) (l ++ [JStr value]) = filter (differs value) l.
Proof.
  rewrite filter_app. simpl. rewrite String.eqb_refl. simpl.
  apply app_nil_r.
Qed.

Lemma filter_differs_not_In value l : ~ In (JStr value) (filter (differs value) l).
Proof.
  intros H. apply filter_In in H. destruct H as [_ H]. simpl in H.
  now rewrite String.eqb_refl in H.
Qed.

(** X10: on a stored list, checking a value and then unchecking it gives
    the list without that value: the original list when the value was not
    in it.  Unchecking removes every occurrence, so after it the value is
    not in the list, and the other elements keep their order. *)
Theorem check_then_uncheck (s : State) (questionId : Z) (l : list jsval)
  (value : string) :
  answerOf (formData s) questionId = Some (JArr l) ->
  exists s1 s2,
    handleCheckboxChange (boxChanged value true) questionId s = Some s1 /\
    handleCheckboxChange (boxChanged value false) questionId s1 = Some s2 /\
    answerOf (formData s2) questionId = Some (JArr (filter (differs value) l)) /\
    ~ In (JStr value) (filter (differs value) l) /\
    (~ In (JStr value) l -> formData s2 = formData s).
Proof.
  intros Hl. unfold handleCheckboxChange at 1. unfold currentValues.
  rewrite (answerOf_answers_own _ _ _ Hl). simpl.
  eexists. eexists. split; [reflexivity|].
  unfold handleCheckboxChange, currentValues.
  rewrite (answerOf_answers_own _ questionId (JArr (l ++ [JStr value])))
    by (simpl; apply answerOf_set_same).
  simpl. split; [reflexivity|].
  rewrite filter_differs_snoc. split; [apply answerOf_set_same|].
  split; [apply filter_differs_not_In|].
  intros Hnot. rewrite filter_differs_absent by assumption.
  unfold answerOf in Hl.
  assert (Hs : forall (o : object) k v1 v2, set (set o k v1) k v2 = set o k v2).
  { induction o as [|[k' v'] o IH]; intros k v1 v2; simpl.
    - now rewrite String.eqb_refl.
    - destruct (String.eqb k k') eqn:E; simpl; rewrite E; [reflexivity|].
      now rewrite IH. }
  rewrite Hs. now apply set_get_id.
Qed.

Lemma check_then_uncheck_witness :
  exists s1 s2,
    handleCheckboxChange (boxChanged "a" true) 1 oneChecked = Some s1 /\
    handleCheckboxChange (boxChanged "a" false) 1 s1 = Some s2 /\
    answerOf (formData s2) 1 = Some (JArr (filter (differs "a") [JStr "b"])) /\
    ~ In (JStr "a") (filter (differs "a") [JStr "b"]) /\
    (~ In (JStr "a") [JStr "b"] -> formData s2 = formData oneChecked).
Proof.
  apply (check_then_uncheck oneChecked 1 [JStr "b"] "a"). reflexivity.
Defined.

(** ** The submission pipeline, continued *)

(** The files a submission uploads, in the order of the questions. *)
Definition filesOf (fd : object) (qs : list Question) : list File :=
  flat_map (fun q => match fileToUpload fd q with
                     | Some f => [f]
                     | None => []
                     end) qs.

Definition uploadOf (f : File) : effect :=
  StorageUpload "profile_photo" ("files/" ++ file_name f)%string f.

Lemma prepare_uploads w fd qs : forall n,
  fst (prepare w fd n qs) = map uploadOf (filesOf fd qs).
Proof.
  induction qs as [|q qs IH]; intros n; simpl; [reflexivity|].
  unfold filesOf in *. simpl.
  destruct (fileToUpload fd q) as [f|].
  - specialize (IH (S n)). destruct (prepare w fd (S n) qs). simpl in *.
    now rewrite IH.
  - specialize (IH n). destruct (prepare w fd n qs). simpl in *. exact IH.
Qed.

Lemma prepare_length w fd qs : forall n,
  List.length (snd (prepare w fd n qs)) = List.length qs.
Proof.
  intros n. pose proof (prepare_results w fd qs n) as H.
  symmetry. eapply Forall2_length. exact H.
Qed.

(** X11: every file held by a question of type file is uploaded, in the
    order of the questions, to the bucket [profile_photo] under
    [files/] followed by its name, whatever the store answers: a refused
    upload does not keep the later ones from being issued, and the effects
    of a submission begin with all of them. *)
Theorem handleSubmit_issues_every_upload (w : World) (s : State) :
  exists rest,
    snd (handleSubmit w s)
      = map uploadOf (filesOf (answers s) (questions s)) ++ rest /\
    existsb (fun e => match e with StorageUpload _ _ _ => true | _ => false end)
      rest = false.
Proof.
  unfold handleSubmit. change (answers (setLoading true s)) with (answers s).
  simpl.
  pose proof (prepare_uploads w (answers s) (questions s) 0) as Hu.
  destruct (prepare w (answers s) 0 (questions s)) as [uploads results].
  simpl in Hu. subst uploads.
  destruct (promise_all results) as [e|payload].
  - eexists. split; reflexivity.
  - destruct (upsert_responses_failure w payload); eexists; split; reflexivity.
Qed.

(** X12: when no upload fails, a submission issues, after the uploads, one
    upsert of as many rows as there are questions.  If the store accepts
    it the component ends submitted and not loading; if the store refuses
    it the failure is logged and alerted, and the submitted flag keeps its
    value.  Either way the questions, the Answer State and the collapse
    flags are unchanged. *)
Theorem handleSubmit_outcome (w : World) (s : State)
  (responsePayload : list object) :
  promise_all (snd (prepare w (answers s) 0 (questions s)))
    = inr responsePayload ->
  List.length responsePayload = List.length (questions s) /\
  handleSubmit w s =
    match upsert_responses_failure w responsePayload with
    | None =>
        (mkState (questions s) (formData s) false true (collapsedSections s) (ObjectPrototype s),
         map uploadOf (filesOf (answers s) (questions s))
           ++ [Upsert "responses" responsePayload responsesConflict])
    | Some _ =>
        (mkState (questions s) (formData s) false (submitted s)
           (collapsedSections s) (ObjectPrototype s),
         map uploadOf (filesOf (answers s) (questions s))
           ++ [Upsert "responses" responsePayload responsesConflict;
               ConsoleError "Submission error:"; Alert submissionFailed])
    end.
Proof.
  intros Hp. split.
  - pose proof (prepare_length w (answers s) (questions s) 0) as Hl.
    apply promise_all_inr in Hp. rewrite Hp, length_map in Hl. exact Hl.
  - unfold handleSubmit. change (answers (setLoading true s)) with (answers s).
    simpl.
    pose proof (prepare_uploads w (answers s) (questions s) 0) as Hu.
    destruct (prepare w (answers s) 0 (questions s)) as [uploads results].
    simpl in *. subst uploads. rewrite Hp.
    destruct (upsert_responses_failure w responsePayload); reflexivity.
Qed.

(** A store that refuses every upsert of responses. *)
Definition responsesRefused : World :=
  mkWorld [] [] None None (fun _ p _ => ok (mkUpload p))
    (fun _ => Some (mkError "23502" "null value in column organization_id"))
    (fun _ => None).

Lemma handleSubmit_outcome_witness :
  List.length [responseRecord question20 (JStr "files/cv.pdf");
               responseRecord question21 (JStr "files/letter.pdf")]
    = List.length (questions twoFiles) /\
  handleSubmit responsesRefused twoFiles =
    (mkState (questions twoFiles) (formData twoFiles) false false [] [],
     [uploadOf (mkFile "cv.pdf" "a"); uploadOf (mkFile "letter.pdf" "b");
      Upsert "responses"
        [responseRecord question20 (JStr "files/cv.pdf");
         responseRecord question21 (JStr "files/letter.pdf")]
        responsesConflict;
      ConsoleError "Submission error:"; Alert submissionFailed]).
Proof.
  apply (handleSubmit_outcome responsesRefused twoFiles
           [responseRecord question20 (JStr "files/cv.pdf");
            responseRecord question21 (JStr "files/letter.pdf")]).
  reflexivity.
Defined.

(** X13: what a held file becomes in its record.  For a question of type
    file the upload is issued and the answer is the path the store
    returns, the empty string when the reply carries neither data nor
    error, and the mapper throws the error when there is one.  For a
    question of any other type (an image question too) nothing is uploaded
    and the raw handle itself is the answer. *)
Theorem prepare_held_file (w : World) (fd : object) (n : nat) (q : Question)
  (f : File) :
  answerOf fd (id q) = Some (JFile f) ->
  prepare w fd n [q] =
    if String.eqb (type q) "file" then
      ([uploadOf f],
       [match error (upload_reply w n ("files/" ++ file_name f)%string f) with
        | Some fileError => inl fileError
        | None =>
            inr (responseRecord q
                   (JStr match data (upload_reply w n
                                       ("files/" ++ file_name f)%string f) with
                         | Some d => path d
                         | None => ""
                         end))
        end])
    else ([], [inr (responseRecord q (JFile f))]).
Proof.
  intros Ha. simpl. unfold fileToUpload, rawAnswer. rewrite Ha.
  destruct (String.eqb (type q) "file"); reflexivity.
Qed.

Definition question22 : Question :=
  mkQuestion 22 1 "Documents" None "file-photo" "Photo" None None Null.

Lemma prepare_held_file_witness :
  prepare quietWorld [("22", JFile (mkFile "me.png" "c"))] 0 [question22]
    = ([], [inr (responseRecord question22 (JFile (mkFile "me.png" "c")))]).
Proof.
  apply (prepare_held_file quietWorld [("22", JFile (mkFile "me.png" "c"))] 0
           question22 (mkFile "me.png" "c")).
  reflexivity.
Defined.

(** ** Names that read as undefined *)

(** A name that reads [undefined] on an object that has no such property
    of its own: it is none of the names [Object.prototype] comes with,
    and nothing has been added to [Object.prototype] under it. *)
Definition plainName (prototype : obj (list Question)) (k : string) : bool :=
  negb (is_inherited k)
  && match get prototype k with Some _ => false | None => true end.

Definition plainNames (prototype : obj (list Question)) (qs : list Question)
  : Prop :=
  forall q, In q qs ->
    plainName prototype (sectionOf q) = true /\
    plainName prototype (subsectionOf q) = true.

Lemma plainName_spec prototype k :
  plainName prototype k = true ->
  is_inherited k = false /\ get prototype k = None /\
  String.eqb k "__proto__" = false.
Proof.
  unfold plainName. intros H. apply andb_true_iff in H. destruct H as [H1 H2].
  apply negb_true_iff in H1. split; [exact H1|]. split.
  - destruct (get prototype k); [discriminate|reflexivity].
  - unfold is_inherited, inheritedNames in H1. cbn [existsb] in H1.
    repeat (apply orb_false_elim in H1; destruct H1 as [? H1]).
    assumption.
Qed.

(** ** Fetching the questions *)

(** One turn of the [forEach] of [fetchQuestions]. *)
Definition flagStep (acc : obj bool) (q : Question) : obj bool :=
  let acc1 :=
    if negb (String.eqb (section q) "") then assign acc (section q) false
    else acc in
  match subsection q with
  | Some sub =>
      if negb (String.eqb sub "")
      then assign acc1 (section q ++ "-" ++ sub)%string false
      else acc1
  | None => acc1
  end.

Lemma initialCollapsedState_fold rows :
  initialCollapsedState rows = fold_left flagStep rows [].
Proof. reflexivity. Qed.

Definition allFalse (acc : obj bool) : Prop :=
  forall k b, get acc k = Some b -> b = false.

Lemma assign_allFalse acc k : allFalse acc -> allFalse (assign acc k false).
Proof.
  intros Hacc k' b. unfold assign.
  destruct (String.eqb k "__proto__"); [apply Hacc|].
  destruct (String.eqb_spec k' k) as [->|Hne].
  - rewrite get_set_same. now intros [= <-].
  - rewrite get_set_other by assumption. apply Hacc.
Qed.

Lemma flagStep_allFalse acc q : allFalse acc -> allFalse (flagStep acc q).
Proof.
  intros Hacc. unfold flagStep.
  assert (H1 : allFalse (if negb (String.eqb (section q) "")
                         then assign acc (section q) false else acc)).
  { destruct (negb _); [now apply assign_allFalse|exact Hacc]. }
  destruct (subsection q) as [sub|]; [|exact H1].
  destruct (negb (String.eqb sub "")); [now apply assign_allFalse|exact H1].
Qed.

Lemma assign_keeps (acc : obj bool) k k' :
  get acc k' = Some false -> get (assign acc k false) k' = Some false.
Proof.
  intros H. unfold assign. destruct (String.eqb k "__proto__"); [exact H|].
  destruct (String.eqb_spec k' k) as [->|Hne].
  - apply get_set_same.
  - now rewrite get_set_other.
Qed.

Lemma flagStep_keeps acc q k :
  get acc k = Some false -> get (flagStep acc q) k = Some false.
Proof.
  intros H. unfold flagStep.
  assert (H1 : get (if negb (String.eqb (section q) "")
                    then assign acc (section q) false else acc) k
               = Some false).
  { destruct (negb _); [now apply assign_keeps|exact H]. }
  destruct (subsection q) as [sub|]; [|exact H1].
  destruct (negb (String.eqb sub "")); [now apply assign_keeps|exact H1].
Qed.

Lemma flagStep_section acc q :
  section q <> "" -> section q <> "__proto__" ->
  get (flagStep acc q) (section q) = Some false.
Proof.
  intros Hne Hproto. unfold flagStep.
  apply String.eqb_neq in Hne. rewrite Hne. cbn [negb].
  assert (H1 : get (assign acc (section q) false) (section q) = Some false).
  { unfold assign. apply String.eqb_neq in Hproto. rewrite Hproto.
    apply get_set_same. }
  destruct (subsection q) as [sub|]; [|exact H1].
  destruct (negb (String.eqb sub "")); [now apply assign_keeps|exact H1].
Qed.

Lemma fold_flagStep_allFalse rows : forall acc,
  allFalse acc -> allFalse (fold_left flagStep rows acc).
Proof.
  induction rows as [|q rows IH]; intros acc Hacc; simpl; [exact Hacc|].
  apply IH. now apply flagStep_allFalse.
Qed.

Lemma fold_flagStep_keeps rows k : forall acc,
  get acc k = Some false -> get (fold_left flagStep rows acc) k = Some false.
Proof.
  induction rows as [|q rows IH]; intros acc Hacc; simpl; [exact Hacc|].
  apply IH. now apply flagStep_keeps.
Qed.

Lemma fold_flagStep_section rows q : forall acc,
  In q rows -> section q <> "" -> section q <> "__proto__" ->
  get (fold_left flagStep rows acc) (section q) = Some false.
Proof.
  induction rows as [|r rows IH]; intros acc Hin Hne Hproto; [contradiction|].
  simpl. destruct Hin as [->|Hin].
  - apply fold_flagStep_keeps. now apply flagStep_section.
  - now apply IH.
Qed.

(** The key of a subsection holds a dash: it is not [__proto__]. *)
Lemma dash_not_proto (a b : string) : (a ++ "-" ++ b)%string <> "__proto__".
Proof.
  intros H.
  do 9 (destruct a as [|? a]; simpl in H; [discriminate|injection H as _ H]).
  destruct a; discriminate.
Qed.

Lemma flagStep_subsection acc q sub :
  subsection q = Some sub -> sub <> "" ->
  get (flagStep acc q) (section q ++ "-" ++ sub)%string = Some false.
Proof.
  intros Hsub Hne. unfold flagStep. rewrite Hsub.
  apply String.eqb_neq in Hne. rewrite Hne. cbn [negb].
  unfold assign at 1.
  pose proof (dash_not_proto (section q) sub) as Hd.
  apply String.eqb_neq in Hd. rewrite Hd. apply get_set_same.
Qed.

Lemma fold_flagStep_subsection rows q sub : forall acc,
  In q rows -> subsection q = Some sub -> sub <> "" ->
  get (fold_left flagStep rows acc) (section q ++ "-" ++ sub)%string
    = Some false.
Proof.
  induction rows as [|r rows IH]; intros acc Hin Hsub Hne; [contradiction|].
  simpl. destruct Hin as [->|Hin].
  - apply fold_flagStep_keeps. now apply flagStep_subsection.
  - now apply IH.
Qed.

(** X14: when the question query resolves, the questions are the rows it
    returned (none when it failed, and then the error is logged), loading
    ends, the collapse flags are replaced by flags that are all false,
    whatever was collapsed before, with one for the section of every row
    that has one (but for [__proto__], a name that takes no flag) and one
    for its subsection when it has one; so these groups read as expanded,
    and so does every key that reads [undefined] on a new object.  The
    Answer State, the submitted flag and [Object.prototype] are
    untouched. *)
Theorem fetchQuestions_resets (r : Reply (list Question)) (s : State) :
  questions (fst (fetchQuestions r s))
    = match data r with Some rows => rows | None => [] end /\
  loading (fst (fetchQuestions r s)) = false /\
  (forall key b,
     get (collapsedSections (fst (fetchQuestions r s))) key = Some b ->
     b = false) /\
  (forall q, In q (questions (fst (fetchQuestions r s))) ->
     section q <> "" -> section q <> "__proto__" ->
     collapsed (ObjectPrototype s)
       (collapsedSections (fst (fetchQuestions r s))) (section q) = false) /\
  (forall q sub, In q (questions (fst (fetchQuestions r s))) ->
     subsection q = Some sub -> sub <> "" ->
     collapsed (ObjectPrototype s)
       (collapsedSections (fst (fetchQuestions r s)))
       (section q ++ "-" ++ sub)%string = false) /\
  (forall key, plainName (ObjectPrototype s) key = true ->
     collapsed (ObjectPrototype s)
       (collapsedSections (fst (fetchQuestions r s))) key = false) /\
  formData (fst (fetchQuestions r s)) = formData s /\
  submitted (fst (fetchQuestions r s)) = submitted s /\
  ObjectPrototype (fst (fetchQuestions r s)) = ObjectPrototype s /\
  snd (fetchQuestions r s)
    = match error r with
      | Some _ => [ConsoleError "Error fetching questions:"]
      | None => []
      end.
Proof.
  assert (Hall : allFalse (initialCollapsedState
                             match data r with Some l => l | None => [] end)).
  { rewrite initialCollapsedState_fold. apply fold_flagStep_allFalse.
    intros k b. discriminate. }
  unfold fetchQuestions. simpl. repeat split.
  - exact Hall.
  - intros q Hin Hne Hproto. unfold collapsed.
    rewrite initialCollapsedState_fold.
    now rewrite (fold_flagStep_section _ q [] Hin Hne Hproto).
  - intros q sub Hin Hsub Hne. unfold collapsed.
    rewrite initialCollapsedState_fold.
    pose proof (fold_flagStep_subsection _ q sub [] Hin Hsub Hne) as E.
    simpl in E. now rewrite E.
  - intros key Hplain. destruct (plainName_spec _ _ Hplain) as [H1 [H2 _]].
    unfold collapsed. rewrite H2, H1.
    destruct (get (initialCollapsedState _) key) as [b|] eqn:E;
      [exact (Hall key b E)|reflexivity].
Qed.

(** ** Grouping *)

(** [groups[sec][sub]], empty when there is no such group. *)
Definition groupOf (sections : groups) (sec sub : string) : list Question :=
  match get sections sec with
  | Some subs => match get subs sub with Some l => l | None => [] end
  | None => []
  end.

Definition inGroup (sec sub : string) (q : Question) : bool :=
  String.eqb (sectionOf q) sec && String.eqb (subsectionOf q) sub.

Lemma groupStep_groupOf prototype acc q :
  plainName prototype (sectionOf q) = true ->
  plainName prototype (subsectionOf q) = true ->
  exists acc',
    groupStep prototype acc q = (prototype, Done acc') /\
    forall sec sub,
      groupOf acc' sec sub
      = groupOf acc sec sub ++ (if inGroup sec sub q then [q] else []).
Proof.
  intros Hsec Hsub.
  destruct (plainName_spec _ _ Hsec) as [Hs1 [Hs2 Hs3]].
  destruct (plainName_spec _ _ Hsub) as [Hb1 [Hb2 _]].
  unfold groupStep, onPrototype, inGroup. rewrite Hb2, Hb1, Hs3, Hs2, Hs1.
  remember (sectionOf q) as sec0 eqn:Hsec0.
  remember (subsectionOf q) as sub0 eqn:Hsub0.
  clear Hsec Hsub Hs1 Hs2 Hs3 Hb1 Hb2 Hsec0 Hsub0.
  destruct (get acc sec0) as [subs|] eqn:Ho.
  - destruct (get subs sub0) as [l|] eqn:Hl; eexists; (split; [reflexivity|]);
      intros sec sub; unfold groupOf;
      destruct (String.eqb_spec sec0 sec) as [<-|Hne1]; simpl.
    + rewrite get_set_same, Ho.
      destruct (String.eqb_spec sub0 sub) as [<-|Hne2]; simpl.
      * now rewrite get_set_same, Hl.
      * rewrite get_set_other by congruence. now rewrite app_nil_r.
    + rewrite get_set_other by congruence. now rewrite app_nil_r.
    + rewrite get_set_same, Ho.
      destruct (String.eqb_spec sub0 sub) as [<-|Hne2]; simpl.
      * now rewrite get_set_same, Hl.
      * rewrite get_set_other by congruence. now rewrite app_nil_r.
    + rewrite get_set_other by congruence. now rewrite app_nil_r.
  - eexists. split; [reflexivity|]. intros sec sub. unfold groupOf.
    destruct (String.eqb_spec sec0 sec) as [<-|Hne1]; simpl.
    + rewrite get_set_same, Ho. simpl.
      destruct (String.eqb_spec sub0 sub) as [<-|Hne2]; simpl.
      * now rewrite String.eqb_refl.
      * assert (E : String.eqb sub sub0 = false)
          by (apply String.eqb_neq; congruence).
        now rewrite E.
    + rewrite get_set_other by congruence. now rewrite app_nil_r.
Qed.

Lemma reduce_groupOf prototype qs : forall acc,
  plainNames prototype qs ->
  exists acc',
    reduce qs prototype acc = (prototype, Done acc') /\
    forall sec sub,
      groupOf acc' sec sub = groupOf acc sec sub ++ filter (inGroup sec sub) qs.
Proof.
  induction qs as [|q qs IH]; intros acc Hplain; simpl.
  - exists acc. split; [reflexivity|]. intros sec sub. now rewrite app_nil_r.
  - destruct (Hplain q (or_introl eq_refl)) as [Hsec Hsub].
    destruct (groupStep_groupOf prototype acc q Hsec Hsub) as [acc1 [E1 H1]].
    rewrite E1.
    destruct (IH acc1 (fun r Hr => Hplain r (or_intror Hr))) as [acc2 [E2 H2]].
    exists acc2. split; [exact E2|]. intros sec sub.
    rewrite H2, H1, <- app_assoc.
    destruct (inGroup sec sub q); reflexivity.
Qed.

(** X15: when no section and no subsection (nor their defaults, [General]
    and [No Subsection]) is a name an object inherits, and
    [Object.prototype] holds no name of [namesRead], grouping returns,
    leaves [Object.prototype] as it was, and puts every question in the
    group of its section and subsection and nowhere else, in fetch order:
    the list of a group is the list of the fetched questions filtered by
    membership in that group. *)
Theorem groupedQuestions_groups (prototype : obj (list Question))
  (qs : list Question) :
  noReadNameAdded prototype = true ->
  plainNames prototype qs ->
  exists sections,
    groupedQuestions prototype qs = (prototype, Done sections) /\
    forall sec sub, groupOf sections sec sub = filter (inGroup sec sub) qs.
Proof.
  intros Hfields Hplain. unfold groupedQuestions. rewrite Hfields.
  destruct (reduce_groupOf prototype qs [] Hplain) as [sections [E H]].
  exists sections. split; [exact E|]. intros sec sub. now rewrite H.
Qed.

Lemma groupedQuestions_groups_witness :
  exists sections,
    groupedQuestions [] [question10; question11; question20]
      = ([], Done sections) /\
    forall sec sub,
      groupOf sections sec sub
      = filter (inGroup sec sub) [question10; question11; question20].
Proof.
  apply (groupedQuestions_groups [] [question10; question11; question20]).
  - reflexivity.
  - intros q [<-|[<-|[<-|[]]]]; split; reflexivity.
Defined.

(** ** Choosing a radio option *)

(** X16: choosing the option [value] of a radio question [p] (whose
    identifier is not 0) makes visible exactly those of its sub-questions
    whose condition value is [value], and leaves the visibility of the
    questions that have another parent as it was. *)
Theorem choosing_reveals (s : State) (p : Z) (value : string)
  (q : Question) (parent : Z) :
  p <> 0 ->
  parent_question_id q = Some parent ->
  (parent = p ->
   (shouldDisplay (answers (handleChange (typedInto p "radio" value true) s)) q
      = true <-> condition_value q = Has value)) /\
  (parent <> p ->
   shouldDisplay (answers (handleChange (typedInto p "radio" value true) s)) q
   = shouldDisplay (answers s) q).
Proof.
  intros Hp Hq. unfold handleChange, typedInto. simpl.
  unfold shouldDisplay, no_parent, answerOf, answers. simpl. rewrite Hq. split.
  - intros ->. apply Z.eqb_neq in Hp. rewrite Hp. simpl.
    rewrite get_inherit_set_same. unfold strict_eq_string.
    destruct (condition_value q) as [| |c]; split; try discriminate.
    + intros H. apply String.eqb_eq in H. now subst.
    + intros [= ->]. apply String.eqb_refl.
  - intros Hne. rewrite get_inherit_set_other; [reflexivity|].
    intros H. apply Hne. now apply NumberToString_inj.
Qed.

Lemma choosing_reveals_witness :
  (10 = 10 ->
   (shouldDisplay
      (answers (handleChange (typedInto 10 "radio" "yes" true) scenarioA))
      question11 = true <-> condition_value question11 = Has "yes")) /\
  (10 <> 10 ->
   shouldDisplay
     (answers (handleChange (typedInto 10 "radio" "yes" true) scenarioA))
     question11
   = shouldDisplay (answers scenarioA) question11).
Proof.
  apply (choosing_reveals scenarioA 10 "yes" question11 10).
  - discriminate.
  - reflexivity.
Defined.

(** ** Enumerating an object *)

Section EntriesFacts.
Context {A : Type}.

Lemma insert_index_In (e : Z * (string * A)) l x :
  x = e \/ In x l -> In x (insert_index e l).
Proof.
  induction l as [|e' l IH]; simpl.
  - intros [->|[]]. now left.
  - destruct (fst e <=? fst e'); simpl; intros [->|[->|H]]; auto.
Qed.

Lemma insert_index_length (e : Z * (string * A)) l :
  List.length (insert_index e l) = S (List.length l).
Proof.
  induction l as [|e' l IH]; simpl; auto.
  destruct (fst e <=? fst e'); simpl; auto.
Qed.

(** Every property is enumerated. *)
Lemma entries_In (o : obj A) kv : In kv o -> In kv (entries o).
Proof.
  intros H. unfold entries, named. apply in_or_app.
  destruct (array_index (fst kv)) as [z|] eqn:E.
  - left. apply in_map_iff. exists (z, kv). split; [reflexivity|].
    induction o as [|kv' o IH]; [contradiction|]. simpl.
    destruct H as [->|H].
    + rewrite E. apply insert_index_In. now left.
    + destruct (array_index (fst kv')); auto.
      apply insert_index_In. right. auto.
  - right. apply filter_In. split; [exact H|]. now rewrite E.
Qed.

Lemma entries_length (o : obj A) : List.length (entries o) = List.length o.
Proof.
  unfold entries, named. rewrite length_app, length_map.
  induction o as [|kv o IH]; simpl; auto.
  destruct (array_index (fst kv)); simpl.
  - rewrite insert_index_length. simpl. now rewrite IH.
  - rewrite <- IH. lia.
Qed.
End EntriesFacts.

(** ** Saving progress, continued *)

(** X17: saving progress never changes the state.  With a truthy email it
    issues one upsert into [progress] of one row per entry of the Answer
    State, the email entry itself among them (its question identifier is
    [Number("contactEmail")]), and then alerts success, or logs and alerts
    failure when the store refuses. *)
Theorem handleSaveProgress_payload (formId : Z) (Number : string -> jsval)
  (w : World) (s : State) (email : jsval) :
  get (formData s) "contactEmail" = Some email ->
  truthy email = true ->
  exists rows outcome,
    handleSaveProgress formId Number w s
      = (s, Upsert "progress" rows progressConflict :: outcome) /\
    rows = map (progressRecord formId Number email) (entries (formData s)) /\
    List.length rows = List.length (formData s) /\
    In [("form_id", JNum formId); ("contactEmail", email);
        ("question_id", Number "contactEmail"); ("answer", encode email)] rows /\
    outcome = match upsert_progress_failure w rows with
              | Some _ => [ConsoleError "Error saving progress:"; Alert saveFailed]
              | None => [Alert savedSuccessfully]
              end.
Proof.
  intros Hget Ht. unfold handleSaveProgress.
  rewrite (get_answers_own _ _ _ Hget), Ht.
  exists (map (progressRecord formId Number email) (entries (formData s))).
  eexists. split; [|split; [reflexivity|split; [|split; [|reflexivity]]]].
  - destruct (upsert_progress_failure w _); reflexivity.
  - now rewrite length_map, entries_length.
  - apply in_map_iff. exists ("contactEmail", email). split; [reflexivity|].
    apply entries_In. now apply get_In.
Qed.

Definition emailGiven : State :=
  mkState [question10] [("10", JStr "yes"); ("contactEmail", JStr "hr@example.org")]
    false false [] [].

Lemma handleSaveProgress_payload_witness :
  exists rows outcome,
    handleSaveProgress 1 numberOfName quietWorld emailGiven
      = (emailGiven, Upsert "progress" rows progressConflict :: outcome) /\
    rows = map (progressRecord 1 numberOfName (JStr "hr@example.org"))
             (entries (formData emailGiven)) /\
    List.length rows = List.length (formData emailGiven) /\
    In [("form_id", JNum 1); ("contactEmail", JStr "hr@example.org");
        ("question_id", numberOfName "contactEmail");
        ("answer", encode (JStr "hr@example.org"))] rows /\
    outcome = match upsert_progress_failure quietWorld rows with
              | Some _ => [ConsoleError "Error saving progress:"; Alert saveFailed]
              | None => [Alert savedSuccessfully]
              end.
Proof.
  apply (handleSaveProgress_payload 1 numberOfName quietWorld emailGiven
           (JStr "hr@example.org")); reflexivity.
Defined.

Lemma handleSaveProgress_state (formId : Z) (Number : string -> jsval)
  (w : World) (s : State) :
  fst (handleSaveProgress formId Number w s) = s.
Proof.
  unfold handleSaveProgress.
  destruct (get (answers s) "contactEmail") as [email|]; [|reflexivity].
  destruct (truthy email); [|reflexivity].
  destruct (upsert_progress_failure w _); reflexivity.
Qed.

(** X18: a file handle does not survive saving and resuming.  The progress
    row of an entry that holds a file carries the text of an empty
    object, whatever the file, and a stored row with that text resumes
    as an empty object. *)
Theorem save_drops_file (formId : Z) (Number : string -> jsval)
  (email : jsval) (name : string) (f : File)
  (organization : option Z) (questionId : Z) (savedData : object) :
  get (progressRecord formId Number email (name, JFile f)) "answer"
    = Some (JStr "{}") /\
  snd (populate [mkResponse organization questionId (Some "{}")] savedData)
    = Reads (set savedData (NumberToString questionId) (JObj [])).
Proof. split; reflexivity. Qed.

(** ** Resuming, continued *)

(** A stored answer the loop of [handleSearch] throws on: [null], on which
    [startsWith] is not defined, or a text opening with a brace or a
    bracket that is not JSON.  And a stored answer it decodes. *)
Definition unreadable (row : ResponseRow) : bool :=
  match response_answer row with
  | None => true
  | Some answer => match decode answer with Throws => true | _ => false end
  end.


Lemma populate_unreadable rows : forall savedData,
  existsb unreadable rows = true ->
  snd (populate rows savedData) = Throws.
Proof.
  induction rows as [|row rows IH]; intros savedData H; simpl in *;
    [discriminate|].
  unfold unreadable in H at 1.
  destruct (response_answer row) as [answer|]; [|reflexivity].
  destruct (decode answer) as [v| |]; [|reflexivity|]; simpl in H.
  - specialize (IH (set savedData
                      (NumberToString (response_question_id row)) v) H).
    destruct (populate rows _). simpl in *. exact IH.
  - specialize (IH savedData H).
    destruct (populate rows _). simpl in *. now rewrite IH.
Qed.

(** X19: resuming is all or nothing.  When the organization is found and
    one of its stored answers is [null] or is a text opening with a brace
    or a bracket that is not JSON, the failure is alerted and the Answer
    State is left as it was: the answers decoded before the bad one are
    not merged. *)
Theorem handleSearch_unreadable_answer (w : World) (s : State) (email : string)
  (org : OrganizationRow) (rows : list ResponseRow) :
  get (formData s) "contactEmail" = Some (JStr email) ->
  email <> "" ->
  data (select_organizations w email) = Some [org] ->
  error (select_organizations w email) = None ->
  data (select_responses w (organization_id org)) = Some rows ->
  error (select_responses w (organization_id org)) = None ->
  existsb unreadable rows = true ->
  exists effs,
    handleSearch w s =
      Some (mkState (questions s) (formData s) false (submitted s)
              (collapsedSections s) (ObjectPrototype s), effs) /\
    In (Alert "Failed to retrieve saved progress.") effs.
Proof.
  intros Hget Hne Hod Hoe Hrd Hre Hbad.
  pose proof (populate_unreadable rows [] Hbad) as Hpop.
  unfold handleSearch. rewrite (get_answers_own _ _ _ Hget). simpl truthy.
  apply String.eqb_neq in Hne. rewrite Hne. simpl negb. cbv iota.
  simpl ToString. unfold single. rewrite Hoe, Hod. simpl error. simpl data.
  cbv iota. rewrite Hre, Hrd. cbv iota.
  destruct rows as [|row rows]; [discriminate|].
  destruct (populate (row :: rows) []) as [logs r]. simpl in Hpop. subst r.
  eexists. split; [reflexivity|]. simpl. right. right. apply in_or_app. right.
  simpl. auto.
Qed.

Definition brokenAnswer : World :=
  mkWorld [mkOrganization 7 "hr@example.org"]
    [mkResponse (Some 7) 11 (Some "x"); mkResponse (Some 7) 12 (Some "{oops")]
    None None (fun _ p _ => ok (mkUpload p)) (fun _ => None) (fun _ => None).

Lemma handleSearch_unreadable_answer_witness :
  exists effs,
    handleSearch brokenAnswer knownEmail = Some (knownEmail, effs) /\
    In (Alert "Failed to retrieve saved progress.") effs.
Proof.
  apply (handleSearch_unreadable_answer brokenAnswer knownEmail "hr@example.org"
           (mkOrganization 7 "hr@example.org")
           [mkResponse (Some 7) 11 (Some "x");
            mkResponse (Some 7) 12 (Some "{oops")]);
    try reflexivity.
  discriminate.
Defined.

(** X20: when the email matches exactly one organization that has no
    stored answer, resuming alerts that no saved progress was found; when
    it matches two organizations or more, [.single()] answers an error and
    resuming alerts the generic failure without fetching any answer.  In
    both cases the Answer State is unchanged. *)
Theorem handleSearch_nothing_to_merge (w : World) (s : State) (email : string)
  (matching : list OrganizationRow) :
  get (formData s) "contactEmail" = Some (JStr email) ->
  email <> "" ->
  data (select_organizations w email) = Some matching ->
  error (select_organizations w email) = None ->
  (forall org, matching = [org] ->
   data (select_responses w (organization_id org)) = Some [] ->
   error (select_responses w (organization_id org)) = None ->
   handleSearch w s =
     Some (mkState (questions s) (formData s) false (submitted s)
             (collapsedSections s) (ObjectPrototype s),
           [Select "organizations" "id" "contactEmail" email true;
            Select "responses" "question_id, answer" "organization_id"
              (NumberToString (organization_id org)) false;
            Alert "No saved progress found for this email."])) /\
  ((2 <= List.length matching)%nat ->
   handleSearch w s =
     Some (mkState (questions s) (formData s) false (submitted s)
             (collapsedSections s) (ObjectPrototype s),
           Select "organizations" "id" "contactEmail" email true
           :: searchFailed)).
Proof.
  intros Hget Hne Hod Hoe. apply String.eqb_neq in Hne. split.
  - intros org -> Hrd Hre. unfold handleSearch.
    rewrite (get_answers_own _ _ _ Hget). simpl truthy.
    rewrite Hne. simpl negb. cbv iota. simpl ToString. unfold single.
    rewrite Hoe, Hod. simpl error. simpl data. cbv iota.
    rewrite Hre, Hrd. reflexivity.
  - intros Hlen. unfold handleSearch.
    rewrite (get_answers_own _ _ _ Hget). simpl truthy.
    rewrite Hne. simpl negb. cbv iota. simpl ToString. unfold single.
    rewrite Hoe, Hod.
    destruct matching as [|a [|b rest]]; simpl in Hlen; try lia.
    reflexivity.
Qed.

Definition twoOrganizations : World :=
  mkWorld [mkOrganization 7 "hr@example.org"; mkOrganization 8 "hr@example.org"]
    [] None None (fun _ p _ => ok (mkUpload p)) (fun _ => None) (fun _ => None).

Lemma handleSearch_nothing_to_merge_witness :
  (forall org,
   [mkOrganization 7 "hr@example.org"; mkOrganization 8 "hr@example.org"] = [org] ->
   data (select_responses twoOrganizations (organization_id org)) = Some [] ->
   error (select_responses twoOrganizations (organization_id org)) = None ->
   handleSearch twoOrganizations knownEmail =
     Some (knownEmail,
           [Select "organizations" "id" "contactEmail" "hr@example.org" true;
            Select "responses" "question_id, answer" "organization_id"
              (NumberToString (organization_id org)) false;
            Alert "No saved progress found for this email."])) /\
  ((2 <= 2)%nat ->
   handleSearch twoOrganizations knownEmail =
     Some (knownEmail,
           Select "organizations" "id" "contactEmail" "hr@example.org" true
           :: searchFailed)).
Proof.
  apply (handleSearch_nothing_to_merge twoOrganizations knownEmail
           "hr@example.org"
           [mkOrganization 7 "hr@example.org"; mkOrganization 8 "hr@example.org"]);
    try reflexivity.
  discriminate.
Defined.

(** ** What is rendered, continued *)

Definition knownType (q : Question) : bool :=
  existsb (String.eqb (type q)) knownTypes.

(** A sub-question of a fetched radio question whose current answer is
    strictly equal to the condition value of the sub-question. *)
Definition underRadio (qs : list Question) (fd : object) (q : Question) : Prop :=
  exists p, In p qs /\ type p = "radio" /\
            parent_question_id q = Some (id p) /\
            strict_eq_string (answerOf fd (id p)) (condition_value q) = true.

(** What holds of a question whose markup is in the tree. *)
Definition shown (qs : list Question) (fd : object) (q : Question) : Prop :=
  In q qs /\ shouldDisplay fd q = true /\ knownType q = true.

Lemma renderQuestion_shown (qs : list Question) (fd : object) :
  forall (fuel : nat) (question : Question),
  In question qs ->
  post (renderedOption
          (fun q => shown qs fd q /\ (q = question \/ underRadio qs fd q)))
    (renderQuestion fuel qs fd question).
Proof.
  induction fuel as [|fuel IH]; intros question Hin; [exact I|].
  cbn [renderQuestion].
  destruct (negb (shouldDisplay fd question)) eqn:Hd; [exact I|].
  apply negb_false_iff in Hd.
  assert (Hq : knownType question = true ->
               shown qs fd question /\
               (question = question \/ underRadio qs fd question)).
  { intros Hk. repeat split; auto. }
  unfold knownType, knownTypes in Hq. cbn [existsb] in Hq.
  destruct (String.eqb (type question) "text") eqn:E1;
    [specialize (Hq eq_refl); simpl; rendered_all|].
  destruct (String.eqb (type question) "radio") eqn:E2.
  { specialize (Hq eq_refl). apply String.eqb_eq in E2.
    apply (post_bind
             (Forall (renderedAll
                        (fun q => shown qs fd q /\
                                  (q = question \/ underRadio qs fd q))))).
    - apply post_sequence_map. intros sub Hsub.
      apply filter_In in Hsub. destruct Hsub as [Hsubin Hcond].
      apply andb_true_iff in Hcond. destruct Hcond as [Hparent Hmatch].
      assert (Hunder : underRadio qs fd sub).
      { exists question. repeat split; auto.
        destruct (parent_question_id sub) as [p|]; [|discriminate].
        apply Z.eqb_eq in Hparent. now subst p. }
      apply (post_bind
               (renderedOption
                  (fun q => shown qs fd q /\ (q = sub \/ underRadio qs fd q))));
        [now apply IH|].
      intros r Hr. simpl. rendered_all. apply some_nodes_rendered.
      destruct r as [n|]; simpl in *; auto.
      eapply renderedAll_weaken; [|exact Hr].
      intros q [Hs [->|Hu]]; auto.
    - intros subs Hsubs. simpl. rendered_all. }
  destruct (String.eqb (type question) "select") eqn:E3;
    [specialize (Hq eq_refl); simpl; rendered_all|].
  destruct (String.eqb (type question) "checkbox") eqn:E4.
  { specialize (Hq eq_refl).
    apply (post_bind
             (Forall (renderedAll
                        (fun q => shown qs fd q /\
                                  (q = question \/ underRadio qs fd q))))).
    - apply post_sequence_map. intros o _.
      apply (post_bind (fun _ => True)).
      + destruct (includes _ _); simpl; auto.
      + intros c _. simpl. rendered_all.
    - intros boxes Hboxes. simpl. rendered_all. }
  destruct (String.eqb (type question) "file") eqn:E5.
  { specialize (Hq eq_refl).
    apply (post_bind
             (Forall (renderedAll
                        (fun q => shown qs fd q /\
                                  (q = question \/ underRadio qs fd q))))).
    - destruct (answerOf fd (id question)) as [v|]; [|simpl; constructor].
      destruct (truthy v); [|apply child_of_rendered].
      eapply post_bind; [apply (child_of_rendered
                                  (fun q => shown qs fd q /\
                                            (q = question \/ underRadio qs fd q)))|].
      intros c Hc. simpl. rendered_all.
    - intros uploaded Hu. simpl. rendered_all. }
  destruct (String.eqb (type question) "textarea") eqn:E6;
    [specialize (Hq eq_refl); simpl; rendered_all|].
  destruct (String.eqb (type question) "file-photo") eqn:E7; [|exact I].
  specialize (Hq eq_refl). simpl. rendered_all.
  destruct (answerOf fd (id question)) as [v|]; [|rendered_all].
  destruct (truthy v); [|rendered_all].
  destruct v; rendered_all.
Qed.

Definition wellPlaced (qs : list Question) (fd : object) (q : Question) : Prop :=
  shown qs fd q /\ (no_parent q = true \/ underRadio qs fd q).

Lemma renderQuestion_wellPlaced qs fd fuel question :
  In question qs -> no_parent question = true ->
  post (renderedOption (wellPlaced qs fd)) (renderQuestion fuel qs fd question).
Proof.
  intros Hin Htop.
  eapply post_weaken; [|apply renderQuestion_shown; exact Hin].
  intros [n|]; simpl; auto. apply renderedAll_weaken.
  intros q [Hs [->|Hu]]; split; auto.
Qed.

Lemma markup_wellPlaced fuel s sections :
  groupsWithin (questions s) sections ->
  post (renderedAll (wellPlaced (questions s) (answers s)))
    (markup fuel s sections).
Proof.
  intros Hg.
  set (R := wellPlaced (questions s) (answers s)).
  assert (Hq : forall q, In q (questions s) -> no_parent q = true ->
               post (renderedOption R)
                 (renderQuestion fuel (questions s) (answers s) q)).
  { intros q Hin Htop. now apply renderQuestion_wellPlaced. }
  assert (Hsub : forall sec entry,
             (forall q, In q (snd entry) -> In q (questions s)) ->
             post (Forall (renderedAll R)) (renderSubsection fuel s sec entry)).
  { intros sec entry Hentry. unfold renderSubsection.
    destruct (String.eqb (fst entry) "No Subsection").
    - apply post_sequence_map. intros q Hin. apply filter_In in Hin.
      destruct Hin as [Hin Htop].
      apply (post_bind (renderedOption R)); [apply Hq; auto|].
      intros r Hr. simpl. rendered_all. now apply some_nodes_rendered.
    - apply (post_bind (Forall (renderedAll R))).
      + destruct (collapsed _ _ _); [simpl; constructor|].
        apply (post_bind (Forall (renderedOption R))).
        * apply post_sequence_map. intros q Hin. apply filter_In in Hin.
          destruct Hin as [Hin Htop]. apply Hq; auto.
        * intros rs Hrs. simpl. now apply flat_map_some_nodes_rendered.
      + intros body Hbody. simpl. unfold toggleButton. rendered_all. }
  unfold markup.
  apply (post_bind (renderedAll R)).
  - destruct (submitted s); [simpl; rendered_all|].
    apply (post_bind (Forall (renderedAll R))).
    + destruct (loading s); [simpl; rendered_all|].
      apply post_sequence_map. intros [sec subs] He.
      apply In_entries in He. unfold renderSection.
      apply (post_bind (Forall (renderedAll R))).
      * destruct (collapsed _ _ _); [simpl; constructor|].
        apply (post_bind (Forall (Forall (renderedAll R)))).
        -- apply post_sequence_map. intros [sub l] He'.
           apply Hsub. apply In_entries in He'.
           intros q Hq'. exact (proj1 (Hg sec subs He sub l He' q Hq')).
        -- intros parts Hparts. simpl. now apply Forall_concat.
      * intros body Hbody. simpl. unfold toggleButton. rendered_all.
    + intros content Hc. simpl. unfold submitButton. rendered_all.
  - intros main Hm. simpl. unfold banner. rendered_all.
Qed.

Lemma render_wellPlaced fuel s :
  post (renderedAll (wellPlaced (questions s) (answers (grouped s))))
    (render fuel s).
Proof.
  apply post_render. intros sections Hs.
  apply (markup_wellPlaced fuel (grouped s) sections).
  exact (groupedQuestions_within _ _ _ Hs).
Qed.

(** X21: whatever is rendered is meant to be.  A question whose markup is
    in the rendered tree is a fetched question of a known type that the
    visibility evaluator shows (on the Answer State as this render reads
    it, after its grouping), and it is either a top-level question or a
    sub-question of a fetched question of type radio whose current answer
    is strictly equal to its condition value.  So a sub-question of a
    parent of any other type (text, select, ...) is never rendered. *)
Theorem rendered_is_well_placed (fuel : nat) (s : State) (ui : node)
  (q : Question) :
  render fuel s = Done ui ->
  In q (rendered ui) ->
  In q (questions s) /\
  shouldDisplay (answers (grouped s)) q = true /\
  knownType q = true /\
  (no_parent q = true \/ underRadio (questions s) (answers (grouped s)) q).
Proof.
  intros Hr Hin.
  pose proof (post_Done _ _ _ (render_wellPlaced fuel s) Hr) as Hall.
  unfold renderedAll in Hall. rewrite Forall_forall in Hall.
  destruct (Hall q Hin) as [[H1 [H2 H3]] H4]. auto.
Qed.

(** The form of scenario A with a radio parent, answered [yes]. *)
Definition question50 : Question :=
  mkQuestion 50 1 "Profile" None "radio" "Do you have one?"
    (Some [Choice.make "Yes" "yes"; Choice.make "No" "no"]) None Null.
Definition question51 : Question :=
  mkQuestion 51 1 "Profile" None "text" "Which one?" None (Some 50) (Has "yes").
Definition radioYes : State :=
  mkState [question50; question51] [("50", JStr "yes")] false false [] [].
Definition radioYes_ui : node :=
  Eval vm_compute in
    match render 3 radioYes with Done ui => ui | _ => Text "" end.

Lemma rendered_is_well_placed_witness :
  In question51 (questions radioYes) /\
  shouldDisplay (answers (grouped radioYes)) question51 = true /\
  knownType question51 = true /\
  (no_parent question51 = true \/
   underRadio (questions radioYes) (answers (grouped radioYes)) question51).
Proof.
  apply (rendered_is_well_placed 3 radioYes radioYes_ui question51).
  - vm_compute. reflexivity.
  - vm_compute. right. left. reflexivity.
Defined.

(** ** What must be rendered *)

Lemma bind_Done {A B} (m : outcome A) (f : A -> outcome B) (b : B) :
  bind m f = Done b -> exists a, m = Done a /\ f a = Done b.
Proof. destruct m; simpl; try discriminate. eauto. Qed.

Lemma sequence_map_Done {A B} (f : A -> outcome B) (l : list A) :
  forall rs, sequence (map f l) = Done rs ->
  forall x, In x l -> exists r, In r rs /\ f x = Done r.
Proof.
  induction l as [|a l IH]; intros rs Hs x Hx; [contradiction|].
  simpl in Hs. apply bind_Done in Hs. destruct Hs as [r [Hr Hs]].
  apply bind_Done in Hs. destruct Hs as [rs' [Hrs' Hs]].
  injection Hs as <-. destruct Hx as [->|Hx].
  - exists r. split; [now left|exact Hr].
  - destruct (IH rs' Hrs' x Hx) as [r' [Hin Hf]]. exists r'. split; auto.
    now right.
Qed.

(** A visible question of a known type has markup whenever rendering it
    returns. *)
Lemma renderQuestion_markup qs fd fuel q r :
  renderQuestion fuel qs fd q = Done r ->
  shouldDisplay fd q = true -> knownType q = true ->
  exists m, r = Some (Markup q m).
Proof.
  destruct fuel as [|fuel]; [discriminate|].
  intros Hr Hd Hk. cbn [renderQuestion] in Hr. rewrite Hd in Hr.
  cbn [negb] in Hr. cbv iota in Hr.
  unfold knownType, knownTypes in Hk. cbn [existsb] in Hk.
  destruct (String.eqb (type q) "text");
    [injection Hr as <-; eauto|].
  destruct (String.eqb (type q) "radio").
  { apply bind_Done in Hr. destruct Hr as [subs [_ Hr]].
    injection Hr as <-. eauto. }
  destruct (String.eqb (type q) "select");
    [injection Hr as <-; eauto|].
  destruct (String.eqb (type q) "checkbox").
  { apply bind_Done in Hr. destruct Hr as [boxes [_ Hr]].
    injection Hr as <-. eauto. }
  destruct (String.eqb (type q) "file").
  { apply bind_Done in Hr. destruct Hr as [uploaded [_ Hr]].
    injection Hr as <-. eauto. }
  destruct (String.eqb (type q) "textarea");
    [injection Hr as <-; eauto|].
  destruct (String.eqb (type q) "file-photo");
    [injection Hr as <-; eauto|].
  discriminate.
Qed.

Lemma In_flat_map_rendered (l : list node) child q :
  In child l -> In q (rendered child) -> In q (flat_map rendered l).
Proof. intros Hc Hq. apply in_flat_map. eauto. Qed.

Lemma rendered_div key (r : option node) q m :
  r = Some (Markup q m) -> In q (rendered (Element "div" key (some_nodes r))).
Proof. intros ->. simpl. now left. Qed.

(** X22: when rendering a radio question returns its markup, every fetched
    sub-question of a known type whose parent identifier is the radio
    question's and whose condition value is strictly equal to the current
    answer of the radio question is rendered inside that markup. *)
Theorem radio_child_rendered (qs : list Question) (fd : object) (fuel : nat)
  (p sub : Question) (n : node) :
  renderQuestion fuel qs fd p = Done (Some n) ->
  type p = "radio" ->
  In sub qs ->
  parent_question_id sub = Some (id p) ->
  strict_eq_string (answerOf fd (id p)) (condition_value sub) = true ->
  knownType sub = true ->
  In sub (rendered n).
Proof.
  intros Hr Hty Hin Hparent Hmatch Hk.
  destruct fuel as [|fuel]; [discriminate|].
  cbn [renderQuestion] in Hr.
  destruct (negb (shouldDisplay fd p)); [discriminate|].
  rewrite Hty in Hr. cbn [String.eqb Ascii.eqb Bool.eqb] in Hr. cbv iota in Hr.
  apply bind_Done in Hr. destruct Hr as [subs [Hsubs Hr]].
  injection Hr as <-.
  assert (Hf : In sub
                 (filter
                    (fun subQuestion =>
                       match parent_question_id subQuestion with
                       | Some p0 => p0 =? id p
                       | None => false
                       end
                       && strict_eq_string (answerOf fd (id p))
                            (condition_value subQuestion)) qs)).
  { apply filter_In. split; [exact Hin|]. rewrite Hparent, Z.eqb_refl.
    exact Hmatch. }
  destruct (sequence_map_Done _ _ subs Hsubs sub Hf) as [node [Hnode Hg]].
  apply bind_Done in Hg. destruct Hg as [r [Hrq Hg]]. injection Hg as <-.
  assert (Hd : shouldDisplay fd sub = true).
  { unfold shouldDisplay, no_parent. rewrite Hparent, Hmatch.
    destruct (id p =? 0); reflexivity. }
  destruct (renderQuestion_markup qs fd fuel sub r Hrq Hd Hk) as [m Hm].
  cbn [rendered]. right.
  apply (In_flat_map_rendered _
           (Element "div" [Key (NumberToString (id sub))] (some_nodes r)));
    [|now apply (rendered_div _ r sub m)].
  right. apply in_or_app. right. exact Hnode.
Qed.

Definition radioYes_markup : node :=
  Eval vm_compute in
    match renderQuestion 2 (questions radioYes) (answers radioYes) question50
    with Done (Some n) => n | _ => Text "" end.

Lemma radio_child_rendered_witness : In question51 (rendered radioYes_markup).
Proof.
  apply (radio_child_rendered (questions radioYes) (answers radioYes) 2
           question50 question51 radioYes_markup).
  - vm_compute. reflexivity.
  - reflexivity.
  - simpl. auto.
  - reflexivity.
  - reflexivity.
  - reflexivity.
Defined.

Lemma In_rendered_children tag attrs children child q :
  In child children -> In q (rendered child) ->
  In q (rendered (Element tag attrs children)).
Proof. intros Hc Hq. simpl. apply in_flat_map. eauto. Qed.

(** With plain names the grouping leaves the state as it is. *)
Lemma grouped_plain (s : State) :
  plainNames (ObjectPrototype s) (questions s) -> grouped s = s.
Proof.
  intros Hplain. unfold grouped, groupedQuestions.
  destruct (reduce_groupOf _ _ [] Hplain) as [sections [E _]].
  rewrite E. destruct (noReadNameAdded (ObjectPrototype s)); now destruct s.
Qed.

(** X23: once the questions are loaded and the form is not submitted, and
    when no section and no subsection is a name an object inherits,
    whenever the component renders, every fetched top-level question (no
    parent identifier, or 0) of a known type whose section is expanded,
    and whose subsection, when it has one, is expanded too, is
    rendered. *)
Theorem top_level_rendered (fuel : nat) (s : State) (ui : node) (q : Question) :
  render fuel s = Done ui ->
  submitted s = false ->
  loading s = false ->
  plainNames (ObjectPrototype s) (questions s) ->
  In q (questions s) ->
  no_parent q = true ->
  knownType q = true ->
  collapsed (ObjectPrototype s) (collapsedSections s) (sectionOf q) = false ->
  (subsectionOf q = "No Subsection" \/
   collapsed (ObjectPrototype s) (collapsedSections s)
     (sectionOf q ++ "-" ++ subsectionOf q)%string = false) ->
  In q (rendered ui).
Proof.
  intros Hr Hsub Hload Hplain Hin Htop Hk Hsec Hsubsec.
  assert (Hd : shouldDisplay (answers s) q = true).
  { unfold shouldDisplay. now rewrite Htop. }
  apply render_Done in Hr. destruct Hr as [sections [Hgr Hr]].
  rewrite (grouped_plain s Hplain) in Hr.
  (* the group of the question *)
  destruct (reduce_groupOf _ _ [] Hplain) as [sections' [E Hgroup]].
  unfold groupedQuestions in Hgr.
  destruct (noReadNameAdded (ObjectPrototype s)); [|discriminate].
  rewrite E in Hgr. injection Hgr as ->.
  unfold markup in Hr. rewrite Hsub, Hload in Hr.
  apply bind_Done in Hr. destruct Hr as [main [Hmain Hr]]. injection Hr as <-.
  apply bind_Done in Hmain. destruct Hmain as [content [Hcontent Hmain]].
  injection Hmain as <-.
  assert (Hq : In q (groupOf sections (sectionOf q) (subsectionOf q))).
  { rewrite Hgroup. apply filter_In. split; [exact Hin|].
    unfold inGroup. now rewrite !String.eqb_refl. }
  unfold groupOf in Hq.
  destruct (get sections (sectionOf q)) as [subs|] eqn:Hg; [|contradiction].
  destruct (get subs (subsectionOf q)) as [l|] eqn:Hl; [|contradiction].
  apply get_In, entries_In in Hg. apply get_In, entries_In in Hl.
  destruct (sequence_map_Done _ _ content Hcontent _ Hg) as [secNode [HsecIn HsecR]].
  unfold renderSection in HsecR. cbn [fst snd] in HsecR. rewrite Hsec in HsecR.
  apply bind_Done in HsecR. destruct HsecR as [body [Hbody HsecR]].
  injection HsecR as <-.
  apply bind_Done in Hbody. destruct Hbody as [parts [Hparts Hbody]].
  injection Hbody as <-.
  destruct (sequence_map_Done _ _ parts Hparts _ Hl) as [part [HpartIn HpartR]].
  assert (Hpart : In q (flat_map rendered part)).
  { unfold renderSubsection in HpartR. cbn [fst snd] in HpartR.
    assert (Hqtop : In q (filter no_parent l))
      by (apply filter_In; split; assumption).
    destruct (String.eqb (subsectionOf q) "No Subsection") eqn:Ens.
    - destruct (sequence_map_Done _ _ part HpartR q Hqtop) as [nd [HndIn Hnd]].
      apply bind_Done in Hnd. destruct Hnd as [r [Hrq Hnd]]. injection Hnd as <-.
      destruct (renderQuestion_markup _ _ _ _ _ Hrq Hd Hk) as [m Hm].
      eapply In_flat_map_rendered; [exact HndIn|].
      now apply (rendered_div _ r q m).
    - destruct Hsubsec as [Hns|Hexp];
        [rewrite Hns in Ens; discriminate|].
      rewrite Hexp in HpartR.
      apply bind_Done in HpartR. destruct HpartR as [body [Hbody HpartR]].
      injection HpartR as <-.
      apply bind_Done in Hbody. destruct Hbody as [rs [Hrs Hbody]].
      injection Hbody as <-.
      destruct (sequence_map_Done _ _ rs Hrs q Hqtop) as [r [HrIn Hrq]].
      destruct (renderQuestion_markup _ _ _ _ _ Hrq Hd Hk) as [m Hm].
      eapply In_flat_map_rendered; [left; reflexivity|].
      apply (In_rendered_children _ _ _ (Markup q m)); [|simpl; now left].
      right. apply in_flat_map. exists r. split; [exact HrIn|].
      subst r. simpl. now left. }
  (* up the tree *)
  apply in_flat_map in Hpart. destruct Hpart as [child [Hchild Hqchild]].
  eapply In_rendered_children.
  - simpl. do 3 right. left. reflexivity.
  - eapply In_rendered_children.
    + apply in_or_app. left. exact HsecIn.
    + apply (In_rendered_children _ _ _ child); [|exact Hqchild].
      right. apply in_concat. exists part. split; assumption.
Qed.

Lemma top_level_rendered_witness : In question50 (rendered radioYes_ui).
Proof.
  apply (top_level_rendered 3 radioYes radioYes_ui question50).
  - vm_compute. reflexivity.
  - reflexivity.
  - reflexivity.
  - intros q [<-|[<-|[]]]; split; reflexivity.
  - simpl. auto.
  - reflexivity.
  - reflexivity.
  - reflexivity.
  - left. reflexivity.
Defined.

(** ** The rendered form and the store *)

(** Every button of the tree says it is a plain button. *)
Definition plainButton (n : node) : Prop :=
  match n with
  | Element tag attrs _ =>
      String.eqb tag "button" = true -> typeAttr attrs = Some "button"
  | _ => True
  end.

Definition plainButtons (n : node) : Prop := Forall plainButton (elements n).

Lemma plainButtons_Element tag attrs children :
  plainButton (Element tag attrs children) -> Forall plainButtons children ->
  plainButtons (Element tag attrs children).
Proof.
  intros Ha Hc. unfold plainButtons. simpl. constructor; [exact Ha|].
  apply Forall_flat_map. exact Hc.
Qed.

Lemma plainButtons_Text s : plainButtons (Text s).
Proof. constructor. Qed.

Lemma plainButtons_Markup q n : plainButtons n -> plainButtons (Markup q n).
Proof. auto. Qed.

Ltac plain_buttons :=
  repeat first
    [ apply plainButtons_Text
    | apply plainButtons_Markup
    | apply plainButtons_Element
    | apply Forall_nil
    | apply Forall_cons
    | apply Forall_app; split
    | apply Forall_map_intro; intros
    | assumption
    | solve [simpl; intros; try discriminate; reflexivity] ].

Definition plainOption (r : option node) : Prop :=
  match r with Some n => plainButtons n | None => True end.

Lemma some_nodes_plain (r : option node) :
  plainOption r -> Forall plainButtons (some_nodes r).
Proof. destruct r; simpl; auto. Qed.

Lemma child_of_plain (v : jsval) : post (Forall plainButtons) (child_of v).
Proof.
  revert v. fix IH 1. intros [| | | |l| |]; simpl; plain_buttons.
  induction l as [|x l IHl]; simpl; [constructor|].
  apply (post_bind (Forall plainButtons)); [apply IH|].
  intros a Ha.
  apply (post_bind (Forall plainButtons)); [exact IHl|].
  intros b Hb. simpl. apply Forall_app. auto.
Qed.

Lemma renderQuestion_plain (qs : list Question) (fd : object) :
  forall (fuel : nat) (question : Question),
  post plainOption (renderQuestion fuel qs fd question).
Proof.
  induction fuel as [|fuel IH]; intros question; [exact I|].
  cbn [renderQuestion].
  repeat match goal with
         | |- post _ (if ?b then _ else _) => destruct b
         end;
    try exact I; try (simpl; plain_buttons; fail).
  - apply (post_bind (Forall plainButtons)).
    + apply post_sequence_map. intros sub _.
      apply (post_bind plainOption); [apply IH|].
      intros r Hr. simpl. plain_buttons. now apply some_nodes_plain.
    + intros subs Hsubs. simpl. plain_buttons.
  - apply (post_bind (Forall plainButtons)).
    + apply post_sequence_map. intros o _.
      apply (post_bind (fun _ => True)).
      * destruct (includes _ _); simpl; auto.
      * intros c _. simpl. plain_buttons.
    + intros boxes Hboxes. simpl. plain_buttons.
  - apply (post_bind (Forall plainButtons)).
    + destruct (answerOf fd (id question)) as [v|]; [|simpl; constructor].
      destruct (truthy v); [|apply child_of_plain].
      apply (post_bind (Forall plainButtons)); [apply child_of_plain|].
      intros c Hc. simpl. plain_buttons.
    + intros uploaded Hu. simpl. plain_buttons.
  - simpl. plain_buttons.
    destruct (answerOf fd (id question)) as [v|]; [|plain_buttons].
    destruct (truthy v); [|plain_buttons].
    destruct v; plain_buttons.
Qed.

Lemma markup_plain fuel s sections :
  post plainButtons (markup fuel s sections).
Proof.
  unfold markup.
  apply (post_bind plainButtons).
  - destruct (submitted s); [simpl; plain_buttons|].
    apply (post_bind (Forall plainButtons)).
    + destruct (loading s); [simpl; plain_buttons|].
      apply post_sequence_map. intros e _. unfold renderSection.
      apply (post_bind (Forall plainButtons)).
      * destruct (collapsed _ _ _); [simpl; constructor|].
        apply (post_bind (Forall (Forall plainButtons))).
        -- apply post_sequence_map. intros e' _. unfold renderSubsection.
           destruct (String.eqb (fst e') "No Subsection").
           ++ apply post_sequence_map. intros q _.
              apply (post_bind plainOption); [apply renderQuestion_plain|].
              intros r Hr. simpl. plain_buttons. now apply some_nodes_plain.
           ++ apply (post_bind (Forall plainButtons)).
              ** destruct (collapsed _ _ _); [simpl; constructor|].
                 apply (post_bind (Forall plainOption)).
                 --- apply post_sequence_map. intros q _.
                     apply renderQuestion_plain.
                 --- intros rs Hrs. simpl. apply Forall_flat_map.
                     eapply Forall_impl; [|exact Hrs].
                     intros r. apply some_nodes_plain.
              ** intros body Hbody. simpl. unfold toggleButton. plain_buttons.
        -- intros parts Hparts. simpl. now apply Forall_concat.
      * intros body Hbody. simpl. unfold toggleButton. plain_buttons.
    + intros content Hc. simpl. unfold submitButton. plain_buttons.
  - intros main Hm. simpl. unfold banner. plain_buttons.
Qed.

Lemma render_plain fuel s : post plainButtons (render fuel s).
Proof. apply post_render. intros sections _. apply markup_plain. Qed.

Section Inert.
Variable formId : Z.
Variable Number : string -> jsval.

(** What a user event leaves alone. *)
Definition quiet (s : State) (r : State * list effect) : Prop :=
  snd r = [] /\
  submitted (fst r) = submitted s /\
  loading (fst r) = loading s /\
  questions (fst r) = questions s.

Lemma call_quiet h t w s r :
  fromRender h -> call formId Number h t w s = Some r -> quiet s r.
Proof.
  intros Hh Hc. destruct h; simpl in Hh; try contradiction; simpl in Hc.
  - injection Hc as <-. unfold handleChange.
    destruct (_ && _); repeat split.
  - unfold handleCheckboxChange in Hc.
    destruct (if target_checked t then _ else _); [|discriminate].
    injection Hc as <-. repeat split.
  - injection Hc as <-. unfold handleFileChange.
    destruct (target_files t); repeat split.
  - injection Hc as <-. unfold handleFilePhotoChange.
    destruct (target_files t); repeat split.
  - injection Hc as <-. repeat split.
Qed.

Lemma quiet_same s : quiet s (s, []).
Proof. repeat split. Qed.

Lemma click_quiet ui el w s r :
  wellBoundTree ui -> plainButtons ui -> In el (elements ui) ->
  click formId Number ui el w s = Some r -> quiet s r.
Proof.
  intros Hwb Hpb Hin Hclick.
  unfold wellBoundTree in Hwb. rewrite Forall_forall in Hwb.
  unfold plainButtons in Hpb. rewrite Forall_forall in Hpb.
  specialize (Hwb _ Hin). specialize (Hpb _ Hin).
  destruct el as [x|tag attrs children|q n]; unfold click in Hclick;
    try (injection Hclick as <-; apply quiet_same).
  destruct Hwb as [_ [Hc [_ Hb]]]. simpl in Hpb.
  destruct (onClick attrs) as [h|].
  - destruct h; try contradiction.
    eapply call_quiet; [|exact Hclick]. exact I.
  - destruct (String.eqb tag "button").
    + rewrite (Hpb eq_refl) in Hclick. simpl in Hclick.
      injection Hclick as <-. apply quiet_same.
    + simpl in Hclick. injection Hclick as <-. apply quiet_same.
Qed.

Lemma change_quiet ui el typed files w s r :
  wellBoundTree ui -> In el (elements ui) ->
  change formId Number el typed files w s = Some r -> quiet s r.
Proof.
  intros Hwb Hin Hchange.
  unfold wellBoundTree in Hwb. rewrite Forall_forall in Hwb.
  specialize (Hwb _ Hin).
  destruct el as [x|tag attrs children|q n]; unfold change in Hchange;
    try (injection Hchange as <-; apply quiet_same).
  destruct Hwb as [_ [_ [Hc _]]].
  destruct (onChange attrs) as [h|];
    [|injection Hchange as <-; apply quiet_same].
  eapply call_quiet; [|exact Hchange].
  destruct h; try contradiction; exact I.
Qed.

Lemma step_submitted s s' :
  step formId Number s s' -> submitted s' = submitted s.
Proof.
  intros Hstep.
  destruct Hstep as [r s|s|fuel ui el w s s' effs Hr Hin Hc
                    |fuel ui el typed files w s s' effs Hr Hin Hc].
  - reflexivity.
  - reflexivity.
  - pose proof (post_Done _ _ _ (render_wellBound fuel s) Hr) as Hwb.
    pose proof (post_Done _ _ _ (render_plain fuel s) Hr) as Hpb.
    destruct (click_quiet ui el w (grouped s) (s', effs) Hwb Hpb Hin Hc)
      as [_ [H _]].
    exact H.
  - pose proof (post_Done _ _ _ (render_wellBound fuel s) Hr) as Hwb.
    destruct (change_quiet ui el typed files w (grouped s) (s', effs) Hwb Hin Hc)
      as [_ [H _]].
    exact H.
Qed.

Lemma reachable_not_submitted s :
  reachable formId Number s -> submitted s = false.
Proof.
  induction 1 as [|s s' Hs IH Hstep]; [reflexivity|].
  rewrite (step_submitted s s' Hstep). exact IH.
Qed.
End Inert.

(** X24: the rendered form never reaches the store.  In every state
    reached from the initial one (by the question query resolving, by
    renders whose grouping is followed and by the user acting on rendered
    elements), the form is not submitted; and a click
    or a change on any element of what is rendered (the handler runs in
    the state the render left) performs no effect (no upload, upsert,
    query, alert or native form submission) and changes neither the
    submitted flag, nor the loading flag, nor the questions. *)
Theorem rendered_form_is_inert (formId : Z) (Number : string -> jsval)
  (s : State) :
  reachable formId Number s ->
  submitted s = false /\
  forall fuel ui el w typed files r,
    render fuel s = Done ui ->
    In el (elements ui) ->
    click formId Number ui el w (grouped s) = Some r \/
    change formId Number el typed files w (grouped s) = Some r ->
    snd r = [] /\
    submitted (fst r) = submitted s /\
    loading (fst r) = loading s /\
    questions (fst r) = questions s.
Proof.
  intros Hreach. split; [now apply (reachable_not_submitted formId Number)|].
  intros fuel ui el w typed files r Hr Hin Hev.
  pose proof (post_Done _ _ _ (render_wellBound fuel s) Hr) as Hwb.
  pose proof (post_Done _ _ _ (render_plain fuel s) Hr) as Hpb.
  destruct Hev as [Hc|Hc].
  - exact (click_quiet formId Number ui el w (grouped s) r Hwb Hpb Hin Hc).
  - exact (change_quiet formId Number ui el typed files w (grouped s) r
             Hwb Hin Hc).
Qed.

Lemma rendered_form_is_inert_witness :
  submitted answeredA = false /\
  forall fuel ui el w typed files r,
    render fuel answeredA = Done ui ->
    In el (elements ui) ->
    click 1 numberOfName ui el w (grouped answeredA) = Some r \/
    change 1 numberOfName el typed files w (grouped answeredA) = Some r ->
    snd r = [] /\
    submitted (fst r) = submitted answeredA /\
    loading (fst r) = loading answeredA /\
    questions (fst r) = questions answeredA.
Proof.
  apply (rendered_form_is_inert 1 numberOfName answeredA).
  exact answeredA_reachable.
Defined.

(** ** Collapsed groups *)

(** The section of the question is expanded, and so is its subsection when
    it has one. *)
Definition expanded (s : State) (q : Question) : Prop :=
  collapsed (ObjectPrototype s) (collapsedSections s) (sectionOf q) = false /\
  (subsectionOf q = "No Subsection" \/
   collapsed (ObjectPrototype s) (collapsedSections s)
     (sectionOf q ++ "-" ++ subsectionOf q)%string = false).

Lemma markup_expanded fuel s sections :
  groupsWithin (questions s) sections ->
  post (renderedAll
          (fun q => underRadio (questions s) (answers s) q \/
                    (no_parent q = true /\ expanded s q)))
    (markup fuel s sections).
Proof.
  intros Hg.
  set (R := fun q => underRadio (questions s) (answers s) q \/
                     (no_parent q = true /\ expanded s q)).
  assert (Hq : forall q, In q (questions s) -> no_parent q = true ->
               expanded s q ->
               post (renderedOption R)
                 (renderQuestion fuel (questions s) (answers s) q)).
  { intros q Hin Htop Hexp.
    eapply post_weaken; [|apply renderQuestion_shown; exact Hin].
    intros [n|]; simpl; auto. apply renderedAll_weaken.
    intros q' [_ [->|Hu]]; [right|left]; auto. }
  unfold markup.
  apply (post_bind (renderedAll R)).
  - destruct (submitted s); [simpl; rendered_all|].
    apply (post_bind (Forall (renderedAll R))).
    + destruct (loading s); [simpl; rendered_all|].
      apply post_sequence_map. intros [sec subs] He.
      apply In_entries in He. unfold renderSection. cbn [fst snd].
      apply (post_bind (Forall (renderedAll R))).
      * destruct (collapsed (ObjectPrototype s) (collapsedSections s) sec)
          eqn:Hsec; [simpl; constructor|].
        apply (post_bind (Forall (Forall (renderedAll R)))).
        -- apply post_sequence_map. intros [sub l] He'.
           apply In_entries in He'.
           assert (Hl : forall q, In q l ->
                        In q (questions s) /\
                        sectionOf q = sec /\ subsectionOf q = sub).
           { intros q Hql. exact (Hg sec subs He sub l He' q Hql). }
           unfold renderSubsection. cbn [fst snd].
           destruct (String.eqb sub "No Subsection") eqn:Ens.
           ++ apply String.eqb_eq in Ens.
              apply post_sequence_map. intros q Hin. apply filter_In in Hin.
              destruct Hin as [Hin Htop].
              destruct (Hl q Hin) as [Hqs [Hs1 Hs2]].
              apply (post_bind (renderedOption R)).
              ** apply Hq; auto. split; [now rewrite Hs1|].
                 left. now rewrite Hs2.
              ** intros r Hr. simpl. rendered_all. now apply some_nodes_rendered.
           ++ apply (post_bind (Forall (renderedAll R))).
              ** destruct (collapsed (ObjectPrototype s) (collapsedSections s)
                             (sec ++ "-" ++ sub)%string) eqn:Hsubc;
                   [simpl; constructor|].
                 apply (post_bind (Forall (renderedOption R))).
                 --- apply post_sequence_map. intros q Hin.
                     apply filter_In in Hin. destruct Hin as [Hin Htop].
                     destruct (Hl q Hin) as [Hqs [Hs1 Hs2]].
                     apply Hq; auto. split; [now rewrite Hs1|].
                     right. now rewrite Hs1, Hs2.
                 --- intros rs Hrs. simpl.
                     now apply flat_map_some_nodes_rendered.
              ** intros body Hbody. simpl. unfold toggleButton. rendered_all.
        -- intros parts Hparts. simpl. now apply Forall_concat.
      * intros body Hbody. simpl. unfold toggleButton. rendered_all.
    + intros content Hc. simpl. unfold submitButton. rendered_all.
  - intros main Hm. simpl. unfold banner. rendered_all.
Qed.

Lemma render_expanded fuel s :
  post (renderedAll
          (fun q => underRadio (questions s) (answers (grouped s)) q \/
                    (no_parent q = true /\ expanded (grouped s) q)))
    (render fuel s).
Proof.
  apply post_render. intros sections Hs.
  apply (markup_expanded fuel (grouped s) sections).
  exact (groupedQuestions_within _ _ _ Hs).
Qed.

(** X25: a collapsed group shows none of its own questions.  A rendered
    question that is not shown as a sub-question of a radio question is a
    top-level question whose section is expanded and whose subsection,
    when it has one, is expanded too (as this render reads the flags,
    after its grouping).  So collapsing a section or a subsection removes
    its top-level questions from the tree (their answers stay in the
    Answer State). *)
Theorem rendered_top_level_is_expanded (fuel : nat) (s : State) (ui : node)
  (q : Question) :
  render fuel s = Done ui ->
  In q (rendered ui) ->
  underRadio (questions s) (answers (grouped s)) q \/
  (no_parent q = true /\
   collapsed (ObjectPrototype (grouped s)) (collapsedSections s) (sectionOf q)
     = false /\
   (subsectionOf q = "No Subsection" \/
    collapsed (ObjectPrototype (grouped s)) (collapsedSections s)
      (sectionOf q ++ "-" ++ subsectionOf q)%string = false)).
Proof.
  intros Hr Hin.
  pose proof (post_Done _ _ _ (render_expanded fuel s) Hr) as Hall.
  unfold renderedAll in Hall. rewrite Forall_forall in Hall.
  exact (Hall q Hin).
Qed.

Lemma rendered_top_level_is_expanded_witness :
  underRadio (questions radioYes) (answers (grouped radioYes)) question50 \/
  (no_parent question50 = true /\
   collapsed (ObjectPrototype (grouped radioYes)) (collapsedSections radioYes)
     (sectionOf question50) = false /\
   (subsectionOf question50 = "No Subsection" \/
    collapsed (ObjectPrototype (grouped radioYes)) (collapsedSections radioYes)
      (sectionOf question50 ++ "-" ++ subsectionOf question50)%string = false)).
Proof.
  apply (rendered_top_level_is_expanded 3 radioYes radioYes_ui question50).
  - vm_compute. reflexivity.
  - vm_compute. left. reflexivity.
Defined.

(** ** Resumed answers win *)

Lemma fold_set_last {A} (k : string) (v : A) (l : obj A) : forall acc,
  (forall kv, In kv l -> fst kv = k -> snd kv = v) ->
  get acc k = Some v \/ (exists kv, In kv l /\ fst kv = k) ->
  get (fold_left (fun acc kv => set acc (fst kv) (snd kv)) l acc) k = Some v.
Proof.
  induction l as [|kv l IH]; intros acc Hall Hex; simpl.
  - destruct Hex as [H|[kv [[] _]]]. exact H.
  - apply IH; [intros kv' Hin; apply Hall; now right|].
    destruct (String.eqb_spec (fst kv) k) as [Hk|Hk].
    + left. subst k. rewrite get_set_same. f_equal.
      apply Hall; auto. now left.
    + destruct Hex as [H|[kv' [[<-|Hin] Hk']]].
      * left. rewrite get_set_other by congruence. exact H.
      * contradiction.
      * right. eauto.
Qed.

Lemma keys_set_NoDup {A} (o : obj A) k v :
  NoDup (keys o) -> NoDup (keys (set o k v)).
Proof.
  unfold keys. induction o as [|[k' v'] o IH]; simpl; intros Hn.
  - constructor; [tauto|constructor].
  - inversion Hn as [|? ? Hnot Hn']; subst.
    destruct (String.eqb k k') eqn:E; simpl.
    + constructor; assumption.
    + constructor; [|now apply IH].
      intros Hin. apply (keys_set o k v k') in Hin.
      destruct Hin as [Hin| ->]; [contradiction|].
      now rewrite String.eqb_refl in E.
Qed.

Lemma NoDup_keys_get {A} (o : obj A) k v :
  NoDup (keys o) -> In (k, v) o -> get o k = Some v.
Proof.
  unfold keys. induction o as [|[k' v'] o IH]; simpl; intros Hn Hin;
    [contradiction|].
  inversion Hn as [|? ? Hnot Hn']; subst.
  destruct Hin as [[= -> ->]|Hin].
  - now rewrite String.eqb_refl.
  - destruct (String.eqb_spec k k') as [->|Hne]; [|now apply IH].
    exfalso. apply Hnot. apply in_map_iff. now exists (k', v).
Qed.

Lemma populate_keys_NoDup rows : forall savedData r,
  NoDup (keys savedData) ->
  snd (populate rows savedData) = Reads r -> NoDup (keys r).
Proof.
  induction rows as [|row rows IH]; intros savedData r Hn; simpl.
  - now intros [= <-].
  - destruct (response_answer row) as [answer|]; [|discriminate].
    destruct (decode answer) as [v| |]; [|discriminate|].
    + specialize (IH (set savedData
                        (NumberToString (response_question_id row)) v)
                    r (keys_set_NoDup _ _ _ Hn)).
      destruct (populate rows _). simpl in *. exact IH.
    + destruct (populate rows savedData) as [logs [r'| |]]; discriminate.
Qed.

Lemma get_spread_same {A} (a b : obj A) (k : string) (v : A) :
  NoDup (keys b) -> get b k = Some v -> get (spread a b) k = Some v.
Proof.
  intros Hn Hget. unfold spread. apply fold_set_last.
  - intros [k' v'] Hin Hk. simpl in *. subst k'.
    apply In_entries in Hin.
    pose proof (NoDup_keys_get b k v' Hn Hin) as H. congruence.
  - right. exists (k, v). split; [|reflexivity].
    apply entries_In. now apply get_In.
Qed.

(** X26: on a key conflict the resumed answer wins.  When the organization
    is found and its stored answers are read (each a text that does not
    open with a brace or a bracket, or JSON of strings, booleans, nulls,
    arrays, objects and integers of magnitude at most 2^53, which
    JavaScript holds exactly), every decoded answer is, after the resume,
    the answer the Answer State holds under its key, whatever the user
    had entered there. *)
Theorem handleSearch_overwrites (w : World) (s : State) (email : string)
  (org : OrganizationRow) (row : ResponseRow) (rows : list ResponseRow)
  (savedData : object) (logs : list effect) (k : string) (v : jsval) :
  get (formData s) "contactEmail" = Some (JStr email) ->
  email <> "" ->
  data (select_organizations w email) = Some [org] ->
  error (select_organizations w email) = None ->
  data (select_responses w (organization_id org)) = Some (row :: rows) ->
  error (select_responses w (organization_id org)) = None ->
  populate (row :: rows) [] = (logs, Reads savedData) ->
  get savedData k = Some v ->
  exists s',
    option_map fst (handleSearch w s) = Some s' /\
    get (formData s') k = Some v /\
    get (answers s') k = Some v.
Proof.
  intros Hget Hne Hod Hoe Hrd Hre Hpop Hk.
  assert (Hn : NoDup (keys savedData)).
  { apply (populate_keys_NoDup (row :: rows) [] savedData); [constructor|].
    exact (f_equal snd Hpop). }
  rewrite (handleSearch_success w s email org row rows savedData logs
             Hget Hne Hod Hoe Hrd Hre Hpop).
  eexists. split; [reflexivity|].
  assert (Hown : get (spread (formData s) savedData) k = Some v)
    by now apply get_spread_same.
  split; [exact Hown|].
  now apply get_answers_own.
Qed.

Lemma handleSearch_overwrites_witness :
  exists s',
    option_map fst (handleSearch storedAnswers knownEmail) = Some s' /\
    get (formData s') "11" = Some (JStr "x") /\
    get (answers s') "11" = Some (JStr "x").
Proof.
  apply (handleSearch_overwrites storedAnswers knownEmail "hr@example.org"
           (mkOrganization 7 "hr@example.org")
           (mkResponse (Some 7) 11 (Some "x"))
           [mkResponse (Some 7) 12
              (Some (JSON.stringify (JArr [JStr "a"; JStr "b"])))]
           [("11", JStr "x"); ("12", JArr [JStr "a"; JStr "b"])]
           [ConsoleLog "Raw responses from Supabase:";
            ConsoleLog "Saved Data before setting formData:";
            ConsoleLog "Raw responses from Supabase:";
            ConsoleLog "Saved Data before setting formData:"]
           "11" (JStr "x"));
    try reflexivity.
  discriminate.
Defined.

(** ** Several stored rows for one question *)




(** ** Saving, then resuming, continued *)





(** ** What a save writes, read by a resume *)

(** X28: the encoding a save applies and the decoding a resume applies are
    inverse on plain strings and on lists of strings.  For such an answer
    held under the key of a question, the progress record that
    [handleSaveProgress] builds carries the question's identifier and a
    text, and the loop of [handleSearch], given a stored row with that
    identifier and that text, puts the identical answer under the same
    key. *)
Theorem saved_answer_decodes (formId : Z) (Number : string -> jsval)
  (email : jsval) (questionId : Z) (answer : jsval)
  (organization : option Z) (savedData : object) :
  Number (NumberToString questionId) = JNum questionId ->
  plainOrStringSet answer = true ->
  exists text,
    progressRecord formId Number email (NumberToString questionId, answer)
      = [("form_id", JNum formId); ("contactEmail", email);
         ("question_id", JNum questionId); ("answer", JStr text)] /\
    snd (populate [mkResponse organization questionId (Some text)] savedData)
      = Reads (set savedData (NumberToString questionId) answer).
Proof.
  intros Hn H. destruct (encode_decode answer H) as [text [He Hd]].
  exists text. split.
  - unfold progressRecord. cbn [fst snd]. now rewrite Hn, He.
  - simpl. now rewrite Hd.
Qed.

Lemma saved_answer_decodes_witness :
  exists text,
    progressRecord 1 numberOfName (JStr "hr@example.org")
      (NumberToString 12, skills)
      = [("form_id", JNum 1); ("contactEmail", JStr "hr@example.org");
         ("question_id", JNum 12); ("answer", JStr text)] /\
    snd (populate [mkResponse (Some 7) 12 (Some text)] [])
      = Reads (set [] (NumberToString 12) skills).
Proof.
  apply (saved_answer_decodes 1 numberOfName (JStr "hr@example.org") 12
           skills (Some 7) []); reflexivity.
Defined.

(** ** Section names that objects inherit *)





